(** * alier-node: a shallow embedding of the routing core

    The development follows the JavaScript sources module by module:
    [Copyutil] (Copyutil.js), [PatternMap] (PatternMap.js), [Auth]
    (Auth.js), [WebEntity] (_WebEntity.js), [WebApi] (WebApi.js),
    [RequestParser] (RequestParser.js) and [Router] (Router.js).

    Conventions.
    - JavaScript strings are modelled by [string]; the case conversions
      [toLowerCase] and [toUpperCase] act on the ASCII letters, which is
      what the JavaScript functions do on ASCII text.
    - A JavaScript object used as a record or a dictionary is an
      association list in insertion order (the order seen by [for..in]).
    - [undefined] and [null] that are only tested with [== null] or [??]
      are modelled by [None].
    - Host built-ins that the sources call but do not define
      ([JSON.parse] on text, [JSON.stringify], [decodeURIComponent],
      [Number], [URLSearchParams], [TextDecoder]) are the fields of a
      [Host] record. *)

From Stdlib Require Import ZArith List String Ascii Bool Lia DecimalString.
Import ListNotations.
Local Open Scope string_scope.
Local Open Scope Z_scope.

(* ===================================================================== *)
(** ** JavaScript values and string helpers *)
(* ===================================================================== *)

Module Js.

(** [String.prototype.toLowerCase] on one ASCII character. *)
Definition lower_ascii (c : ascii) : ascii :=
  let n := N_of_ascii c in
  if ((65 <=? n) && (n <=? 90))%N then ascii_of_N (n + 32) else c.

(** [String.prototype.toUpperCase] on one ASCII character. *)
Definition upper_ascii (c : ascii) : ascii :=
  let n := N_of_ascii c in
  if ((97 <=? n) && (n <=? 122))%N then ascii_of_N (n - 32) else c.

Fixpoint map_string (f : ascii -> ascii) (s : string) : string :=
  match s with
  | EmptyString => EmptyString
  | String c r => String (f c) (map_string f r)
  end.

(** [String.prototype.toLowerCase] and [String.prototype.toUpperCase]
    on a text of ASCII characters, as header names, schemes, method
    names and content types are. *)
Definition toLowerCase (s : string) : string := map_string lower_ascii s.
Definition toUpperCase (s : string) : string := map_string upper_ascii s.

(** [s.startsWith(p)] *)
Definition startsWith (s p : string) : bool := String.prefix p s.

Fixpoint rev_string (s : string) : string :=
  match s with
  | EmptyString => EmptyString
  | String c r => rev_string r ++ String c EmptyString
  end.

(** [s.endsWith(p)] *)
Definition endsWith (s p : string) : bool :=
  String.prefix (rev_string p) (rev_string s).

(** [s.length] *)
Definition length (s : string) : Z := Z.of_nat (String.length s).

(** [xs.join(sep)] on an array of strings. *)
Definition join (sep : string) (xs : list string) : string :=
  String.concat sep xs.

(** [s.split(sep)] for a one-character separator. *)
Fixpoint split_on (sep : ascii) (s : string) : list string :=
  match s with
  | EmptyString => [EmptyString]
  | String c r =>
      if Ascii.eqb c sep then EmptyString :: split_on sep r
      else match split_on sep r with
           | [] => [String c EmptyString]
           | w :: ws => String c w :: ws
           end
  end.

(** The values the routing core handles.  A number is either an integer
    ([Number.isInteger] holds) or some other number (a fraction, [NaN] or
    an infinity) kept by its literal.  [JBuf] is a [Buffer]/[Uint8Array]. *)
#[local] Unset Elimination Schemes.
Inductive JsValue : Type :=
| JUndefined
| JNull
| JBool (b : bool)
| JInt (z : Z)
| JFrac (lit : string)
| JStr (s : string)
| JBuf (bytes : string)
| JArr (elems : list JsValue)
| JObj (props : list (string * JsValue)).
#[local] Set Elimination Schemes.

(** Induction over values, through the arrays and the objects. *)
Section Induction.
Variable P : JsValue -> Prop.
Hypothesis P_undefined : P JUndefined.
Hypothesis P_null : P JNull.
Hypothesis P_bool : forall b, P (JBool b).
Hypothesis P_int : forall z, P (JInt z).
Hypothesis P_frac : forall lit, P (JFrac lit).
Hypothesis P_str : forall s, P (JStr s).
Hypothesis P_buf : forall b, P (JBuf b).
Hypothesis P_arr : forall elems, Forall P elems -> P (JArr elems).
Hypothesis P_obj :
  forall props, Forall (fun kv => P (snd kv)) props -> P (JObj props).

Fixpoint JsValue_nested_ind (v : JsValue) : P v :=
  match v with
  | JUndefined => P_undefined
  | JNull => P_null
  | JBool b => P_bool b
  | JInt z => P_int z
  | JFrac lit => P_frac lit
  | JStr s => P_str s
  | JBuf b => P_buf b
  | JArr elems =>
      P_arr elems
        ((fix all (l : list JsValue) : Forall P l :=
            match l with
            | [] => Forall_nil P
            | x :: r => Forall_cons x (JsValue_nested_ind x) (all r)
            end) elems)
  | JObj props =>
      P_obj props
        ((fix all (l : list (string * JsValue))
            : Forall (fun kv => P (snd kv)) l :=
            match l with
            | [] => Forall_nil _
            | kv :: r =>
                Forall_cons kv (JsValue_nested_ind (snd kv)) (all r)
            end) props)
  end.

End Induction.

(** Own properties of an object, in insertion order. *)
Definition Props := list (string * JsValue).

(** [Object.prototype.hasOwnProperty.call(o, k)] *)
Fixpoint hasOwn {A} (k : string) (o : list (string * A)) : bool :=
  match o with
  | [] => false
  | (k', _) :: r => if String.eqb k' k then true else hasOwn k r
  end.

(** [o[k]] on own properties; [None] is [undefined]. *)
Fixpoint getOwn {A} (k : string) (o : list (string * A)) : option A :=
  match o with
  | [] => None
  | (k', v) :: r => if String.eqb k' k then Some v else getOwn k r
  end.

(** Defining the own property [k]: an existing key keeps its place. *)
Fixpoint define {A} (k : string) (v : A) (o : list (string * A))
  : list (string * A) :=
  match o with
  | [] => [(k, v)]
  | (k', v') :: r =>
      if String.eqb k' k then (k, v) :: r else (k', v') :: define k v r
  end.

(** [delete o[k]] *)
Fixpoint remove {A} (k : string) (o : list (string * A))
  : list (string * A) :=
  match o with
  | [] => []
  | (k', v') :: r =>
      if String.eqb k' k then remove k r else (k', v') :: remove k r
  end.

(** [o[k] = v] on an ordinary object.  Assigning to ["__proto__"] runs the
    accessor inherited from [Object.prototype]: it creates no own
    property. *)
Definition assign (k : string) (v : JsValue) (o : Props) : Props :=
  if String.eqb k "__proto__" then o else define k v o.

(** Decimal rendering of an array index, the key [for..in] yields. *)
Definition index_key (i : nat) : string :=
  NilZero.string_of_uint (Nat.to_uint i).

(** [typeof v === "boolean"] *)
Definition is_boolean (v : option JsValue) : bool :=
  match v with Some (JBool _) => true | _ => false end.

(** [typeof v === "boolean" && v] *)
Definition is_true (v : option JsValue) : bool :=
  match v with Some (JBool true) => true | _ => false end.

End Js.
Import Js.

(** A thrown JavaScript error.  [WebApiError] carries [statusCode],
    [description] and [retryAfter]. *)
Inductive JsError : Type :=
| TypeError (msg : string)
| SyntaxError (msg : string)
| RangeError (msg : string)
| URIError (msg : string)
| WebApiError (statusCode : Z) (description : string)
              (retryAfter : option string)
| OtherError (msg : string).

(** What [Number(s)] can yield: an integer, another number that is
    [>= 0] (a positive fraction, [Infinity]), another number that is
    [< 0], or [NaN]. *)
Inductive JsNumber : Type :=
| NumInt (z : Z)
| NumOtherNonNeg
| NumOtherNeg
| NumNaN.

(** The host built-ins the sources rely on. *)
Record Host : Type := {
  (** [JSON.parse(text)] without a reviver; [None] is a [SyntaxError]. *)
  JSON_parse : string -> option JsValue;
  (** [JSON.stringify(value, null, null)] *)
  JSON_stringify : JsValue -> string;
  (** [decodeURIComponent(s)]; [None] is a [URIError]. *)
  decodeURIComponent : string -> option string;
  (** [Number(s)] on a header value. *)
  Number : string -> JsNumber;
  (** The entries of [new URLSearchParams(s)]. *)
  URLSearchParams : string -> list (string * string);
  (** [new TextDecoder(label, { fatal: true }).decode(bytes)]; [None]
      when it throws. *)
  TextDecoder_decode : string -> string -> option string
}.

(* ===================================================================== *)
(** ** Copyutil.js *)
(* ===================================================================== *)

Module Copyutil.

(** The reviver [parseJson] hands to [JSON.parse] when the caller gave
    none. *)
Definition guard_reviver (key : string) (value : JsValue) : JsValue :=
  if String.eqb key "__proto__" then JUndefined else value.

(** The reviver [parseJson] hands to [JSON.parse] around the caller's. *)
Definition guard_reviver_with (reviver : string -> JsValue -> JsValue)
  (key : string) (value : JsValue) : JsValue :=
  if String.eqb key "__proto__" then JUndefined else reviver key value.

(** The reviver walk of [JSON.parse] (InternalizeJSONProperty): the
    properties of [val] are revived first, a property whose revived value
    is [undefined] is deleted, then the reviver is called for [key]. *)
Fixpoint internalize (reviver : string -> JsValue -> JsValue)
  (key : string) (val : JsValue) {struct val} : JsValue :=
  reviver key
    match val with
    | JArr elems =>
        JArr ((fix walk (i : nat) (xs : list JsValue) : list JsValue :=
                 match xs with
                 | [] => []
                 | x :: r =>
                     internalize reviver (index_key i) x :: walk (S i) r
                 end) O elems)
    | JObj props =>
        JObj ((fix walk (ps : Props) : Props :=
                 match ps with
                 | [] => []
                 | (k, v) :: r =>
                     match internalize reviver k v with
                     | JUndefined => walk r
                     | v' => (k, v') :: walk r
                     end
                 end) props)
    | _ => val
    end.

(** [parseJson(json, reviver)]; [None] is the [SyntaxError] of
    [JSON.parse]. *)
Definition parseJson (h : Host) (json : string)
  (reviver : option (string -> JsValue -> JsValue)) : option JsValue :=
  match reviver with
  | Some r =>
      option_map (internalize (guard_reviver_with r) "") (JSON_parse h json)
  | None =>
      option_map (internalize guard_reviver "") (JSON_parse h json)
  end.

(** The keys and values [for (const k in source)] visits that pass the
    [hasOwnProperty] test: the own properties of an object, the indices
    of an array, of a string or of a buffer, nothing for the rest. *)
Definition own_enumerable (source : JsValue) : Props :=
  match source with
  | JObj props => props
  | JArr elems =>
      (fix go (i : nat) (xs : list JsValue) : Props :=
         match xs with
         | [] => []
         | x :: r => (index_key i, x) :: go (S i) r
         end) O elems
  | JStr s =>
      (fix go (i : nat) (cs : string) : Props :=
         match cs with
         | EmptyString => []
         | String c r => (index_key i, JStr (String c EmptyString)) :: go (S i) r
         end) O s
  | JBuf b =>
      (fix go (i : nat) (cs : string) : Props :=
         match cs with
         | EmptyString => []
         | String c r => (index_key i, JInt (Z.of_N (N_of_ascii c))) :: go (S i) r
         end) O b
  | _ => []
  end.

(** One source of [merge]. *)
Definition merge1 (target : Props) (source : JsValue) : Props :=
  fold_left
    (fun t kv =>
       if String.eqb (fst kv) "__proto__" then t
       else assign (fst kv) (snd kv) t)
    (own_enumerable source) target.

(** [merge(target, ...sources)] *)
Definition merge (target : Props) (sources : list JsValue) : Props :=
  fold_left merge1 sources target.

(** No own property is named ["__proto__"], at any depth. *)
Fixpoint no_proto (v : JsValue) : bool :=
  match v with
  | JArr elems => forallb no_proto elems
  | JObj props =>
      forallb (fun kv => negb (String.eqb (fst kv) "__proto__")
                         && no_proto (snd kv)) props
  | _ => true
  end.

(** A reviver that brings in no [__proto__] key of its own. *)
Definition clean_reviver (reviver : string -> JsValue -> JsValue) : Prop :=
  forall key v, no_proto v = true -> no_proto (reviver key v) = true.

End Copyutil.

(** Either a thrown error or a returned value. *)
Inductive result (A : Type) : Type :=
| Ok (a : A)
| Throw (e : JsError).
Arguments Ok {A} a.
Arguments Throw {A} e.

(* ===================================================================== *)
(** ** Pattern.js (interface) *)
(* ===================================================================== *)

Module Pattern.

(** Modelled from the spec: Pattern.js is not among the sources.  A
    pattern exposes its raw [pattern] string, its [tokens] (one per
    non-empty path segment; [":name"] is a parameter, a final ["*"] the
    wildcard) and its [kind], ["forward"] when the final token is the
    wildcard and ["exact"] otherwise. *)
Record Pattern : Type := {
  pattern : string;
  tokens : list string;
  kind : string
}.

End Pattern.

(* ===================================================================== *)
(** ** PatternMap.js *)
(* ===================================================================== *)

Module PatternMap.

(** Keys of the edges: a literal segment or one of the two symbols
    [PatternMap.#wordwise_wildcard] and [PatternMap.#wildcard]. *)
Inductive Key : Type :=
| Lit (s : string)
| wordwise_wildcard
| wildcard.

Definition Key_eqb (a b : Key) : bool :=
  match a, b with
  | Lit s, Lit s' => String.eqb s s'
  | wordwise_wildcard, wordwise_wildcard => true
  | wildcard, wildcard => true
  | _, _ => false
  end.

Section Trie.
Context {T : Type}.

(** [class __Node__]: [#value] and [#descendants] (a [Map], in insertion
    order).  The trie is a tree, so [#ancestors] is determined by it. *)
#[local] Unset Elimination Schemes.
Inductive Node : Type :=
| MkNode (value : option T) (descendants : list (Key * Node)).
#[local] Set Elimination Schemes.

Definition value (n : Node) : option T :=
  match n with MkNode v _ => v end.

Definition descendants (n : Node) : list (Key * Node) :=
  match n with MkNode _ d => d end.

(** [new __Node__()] *)
Definition new_Node : Node := MkNode None [].

Fixpoint lookup (key : Key) (d : list (Key * Node)) : option Node :=
  match d with
  | [] => None
  | (k, c) :: r => if Key_eqb k key then Some c else lookup key r
  end.

(** [node.has(key)] *)
Definition has (key : Key) (n : Node) : bool :=
  match lookup key (descendants n) with Some _ => true | None => false end.

(** [node.get(key)] with one key. *)
Definition get1 (key : Key) (n : Node) : option Node :=
  lookup key (descendants n).

(** [node.value = newValue]; the setter stores [newValue ?? undefined]. *)
Definition set_value (newValue : option T) (n : Node) : Node :=
  MkNode newValue (descendants n).

(** [Map.prototype.set] on [#descendants]. *)
Fixpoint put (key : Key) (c : Node) (d : list (Key * Node))
  : list (Key * Node) :=
  match d with
  | [] => [(key, c)]
  | (k, c') :: r =>
      if Key_eqb k key then (key, c) :: r else (k, c') :: put key c r
  end.

(** [node.set(key, descendant)] *)
Definition set1 (key : Key) (descendant : Node) (n : Node) : Node :=
  MkNode (value n) (put key descendant (descendants n)).

(** The child under [key] is mutated in place by [f]. *)
Definition update (key : Key) (f : Node -> Node) (n : Node) : Node :=
  match get1 key n with
  | Some c => set1 key (f c) n
  | None => n
  end.

(** The body of [set]: the loop over the keys followed by
    [node.value = value].  [node] walks down; whatever happens below the
    chosen child is written back in place. *)
Fixpoint set_walk (keys : list Key) (v : option T) (node : Node) : Node :=
  match keys with
  | [] => set_value v node
  | key :: rest =>
      if has wordwise_wildcard node then
        update wordwise_wildcard (set_walk rest v) node
      else if has wildcard node then
        (* break *)
        update wildcard (set_value v) node
      else if has key node then
        update key (set_walk rest v) node
      else
        set1 key (set_walk rest v new_Node) node
  end.

(** The loop of [#getNode]. *)
Fixpoint getNode_walk (keys : list Key) (node : Node) : option Node :=
  match keys with
  | [] => Some node
  | key :: rest =>
      if has wildcard node then get1 wildcard node
      else
        match (if has wordwise_wildcard node
               then get1 wordwise_wildcard node
               else get1 key node) with
        | None => None
        | Some next_node => getNode_walk rest next_node
        end
  end.

(** The child [set] descends into, or the fresh node it creates. *)
Definition child_or_new (key : Key) (n : Node) : Node :=
  match get1 key n with Some c => c | None => new_Node end.

(** The value [get] reads at the end of the walk. *)
Definition value_at (keys : list Key) (n : Node) : option T :=
  match getNode_walk keys n with
  | Some c => value c
  | None => None
  end.

(** The keys of the edges leaving a node, in insertion order. *)
Definition edge_keys (n : Node) : list Key := map fst (descendants n).

End Trie.
Arguments Node T : clear implicits.

(** The key a token yields in [#getKeys]. *)
Definition token_key (token : string) : Key :=
  if startsWith token ":" then wordwise_wildcard else Lit token.

(** What [#getKeys] yields after the first token [prev]. *)
Fixpoint keys_from (forward : bool) (prev : string) (rest : list string)
  : list Key :=
  match rest with
  | [] => if forward then [wildcard] else [token_key prev]
  | token :: rest' => token_key prev :: keys_from forward token rest'
  end.

(** [PatternMap.#getKeys(pattern)], run to the end.  Without tokens
    [prev] is [undefined]: a forward pattern yields the wildcard, any
    other throws at [prev.startsWith] before the first key. *)
Definition getKeys (p : Pattern.Pattern) : result (list Key) :=
  let forward := String.eqb (Pattern.kind p) "forward" in
  match Pattern.tokens p with
  | [] =>
      if forward then Ok [wildcard]
      else Throw (TypeError "Cannot read properties of undefined")
  | prev :: rest => Ok (keys_from forward prev rest)
  end.

(** [class PatternMap]: the [#root] node. *)
Definition PatternMap (T : Type) : Type := Node T.

(** [new PatternMap()] *)
Definition empty {T} : PatternMap T := new_Node.

(** [set(pattern, value)]; [value] is [None] for [null]/[undefined]. *)
Definition set {T} (p : Pattern.Pattern) (v : option T) (m : PatternMap T)
  : result (PatternMap T) :=
  if negb (String.eqb (Pattern.kind p) "exact"
           || String.eqb (Pattern.kind p) "forward")
  then Throw (TypeError "matching is not allowed")
  else
    match getKeys p with
    | Throw e => Throw e
    | Ok keys => Ok (set_walk keys v m)
    end.

(** [#getNode(pattern)] *)
Definition getNode {T} (p : Pattern.Pattern) (m : PatternMap T) : result (option (Node T)) :=
  match getKeys p with
  | Throw e => Throw e
  | Ok keys => Ok (getNode_walk keys m)
  end.

(** [get(pattern)]: [this.#getNode(pattern)?.value] *)
Definition get {T} (p : Pattern.Pattern) (m : PatternMap T) : result (option T) :=
  match getNode p m with
  | Throw e => Throw e
  | Ok None => Ok None
  | Ok (Some node) => Ok (value node)
  end.

(** [has(pattern)] *)
Definition has_pattern {T} (p : Pattern.Pattern) (m : PatternMap T) : result bool :=
  match getNode p m with
  | Throw e => Throw e
  | Ok None => Ok false
  | Ok (Some _) => Ok true
  end.

(** A pattern is resolved through its own keys in [node]: no node on its
    path has a wordwise-wildcard or wildcard child other than the key the
    pattern itself has at that place. *)
Definition own_ok {T} (key : Key) (node : Node T) : bool :=
  (negb (has wordwise_wildcard node) || Key_eqb key wordwise_wildcard)
  && (negb (has wildcard node) || Key_eqb key wildcard).

Fixpoint resolves_own {T} (keys : list Key) (node : Node T) : bool :=
  match keys with
  | [] => true
  | key :: rest =>
      own_ok key node
      && match get1 key node with
         | Some c => resolves_own rest c
         | None => false
         end
  end.

(** The wildcard key only comes last, as in every [#getKeys] sequence. *)
Fixpoint wildcard_last (keys : list Key) : bool :=
  match keys with
  | [] => true
  | [_] => true
  | key :: rest => negb (Key_eqb key wildcard) && wildcard_last rest
  end.

(** [Map.prototype.delete] on [#descendants]. *)
Fixpoint delete_key {T} (key : Key) (d : list (Key * Node T))
  : list (Key * Node T) :=
  match d with
  | [] => []
  | (k, c) :: r =>
      if Key_eqb k key then delete_key key r else (k, c) :: delete_key key r
  end.

(** [node.get(...keys)] *)
Fixpoint get_keys {T} (keys : list Key) (node : Node T) : option (Node T) :=
  match keys with
  | [] => Some node
  | key :: rest =>
      match get1 key node with
      | Some c => get_keys rest c
      | None => None
      end
  end.

(** The edges [#getNode] goes along, from the root to the node it
    returns. *)
Fixpoint getNode_path {T} (keys : list Key) (node : Node T)
  : option (list Key) :=
  match keys with
  | [] => Some []
  | key :: rest =>
      if has wildcard node then
        match get1 wildcard node with
        | Some _ => Some [wildcard]
        | None => None
        end
      else
        let k := if has wordwise_wildcard node
                 then wordwise_wildcard else key in
        match get1 k node with
        | None => None
        | Some next_node =>
            match getNode_path rest next_node with
            | Some path => Some (k :: path)
            | None => None
            end
        end
  end.

(** [node.remove()] for the node at the end of [path]: a node of the
    trie has one entry in [#ancestors], the edge [set] stored it under,
    and [remove] deletes that edge from the parent.  The root has no
    ancestor, so nothing happens for the empty path. *)
Fixpoint remove_at {T} (path : list Key) (root : Node T) : Node T :=
  match path with
  | [] => root
  | [key] => MkNode (value root) (delete_key key (descendants root))
  | key :: rest => update key (remove_at rest) root
  end.

(** [delete(pattern)]: the returned boolean and the map afterwards. *)
Definition delete {T} (p : Pattern.Pattern) (m : PatternMap T)
  : result (bool * PatternMap T) :=
  match getKeys p with
  | Throw e => Throw e
  | Ok keys =>
      match getNode_path keys m with
      | None => Ok (false, m)
      | Some path => Ok (true, remove_at path m)
      end
  end.

(** A run of [set] calls, from left to right. *)
Fixpoint sets {T} (calls : list (Pattern.Pattern * option T))
  (m : PatternMap T) : result (PatternMap T) :=
  match calls with
  | [] => Ok m
  | (p, v) :: rest =>
      match set p v m with
      | Throw e => Throw e
      | Ok m' => sets rest m'
      end
  end.

(** No node has both a wordwise-wildcard child and a wildcard child. *)
Fixpoint exclusive {T} (n : Node T) : bool :=
  match n with
  | MkNode _ d =>
      negb (has wordwise_wildcard n && has wildcard n)
      && (fix all (l : list (Key * Node T)) : bool :=
            match l with
            | [] => true
            | (_, c) :: r => exclusive c && all r
            end) d
  end.

End PatternMap.

(* ===================================================================== *)
(** ** Request descriptors *)
(* ===================================================================== *)

Module Http.

(** A header descriptor [{ value, params }]; [params] is [null] until
    the first parameter is set. *)
Record Descriptor : Type := {
  value : string;
  params : option (list (string * string))
}.

(** [headers]: lowercased field name to descriptors. *)
Definition Headers : Type := list (string * list Descriptor).

(** What [RequestParser.parse] resolves to. *)
Record RawRequest : Type := {
  raw_method : string;
  raw_path : string;
  raw_headers : Headers;
  raw_query : list (string * string);
  raw_body : JsValue
}.

(** The descriptor [route] builds for verification. *)
Record Request : Type := {
  method : string;
  path : string;
  headers : Headers;
  body : JsValue;
  query : Props
}.

(** [request.headers?.authorization?.[0]] *)
Definition first_authorization (hs : Headers) : option Descriptor :=
  match getOwn "authorization" hs with
  | Some (d :: _) => Some d
  | _ => None
  end.

End Http.

(* ===================================================================== *)
(** ** Auth.js *)
(* ===================================================================== *)

Module VerifyResult.

(** [{ ok, scheme?, status?, reason? }] *)
Record VerifyResult : Type := {
  ok : bool;
  scheme : option string;
  status : option Z;
  reason : option Props
}.

(** [{ ok: true }] and [{ ok: false }] *)
Definition accepted : VerifyResult :=
  {| ok := true; scheme := None; status := None; reason := None |}.
Definition rejected : VerifyResult :=
  {| ok := false; scheme := None; status := None; reason := None |}.

(** [{ ok: b, scheme: s }] *)
Definition of_scheme (b : bool) (s : string) : VerifyResult :=
  {| ok := b; scheme := Some s; status := None; reason := None |}.

End VerifyResult.

Module Auth.

(** [class AbstractAuthProtocol]: the [scheme] getter, [verify] (what
    its promise resolves to; [None] is [undefined], the result of the
    base implementation) and [getChallenge] (likewise). *)
Record AbstractAuthProtocol : Type := {
  scheme : string;
  verify : Http.Request -> option VerifyResult.VerifyResult;
  getChallenge : option string
}.

(** [DigestAuthProtocol.verify] on a request descriptor.  Whatever is
    thrown inside, also by reading [params] of a missing header, is
    caught.  [verifyParameters] stands for the hash comparison against
    the stored password. *)
Definition Digest_verify
  (verifyParameters : string -> option (list (string * string))
                      -> result bool)
  (request : Http.Request) : option VerifyResult.VerifyResult :=
  match Http.first_authorization (Http.headers request) with
  | None => Some (VerifyResult.of_scheme false "Digest")
  | Some header =>
      match verifyParameters (Http.method request) (Http.params header) with
      | Ok b => Some (VerifyResult.of_scheme b "Digest")
      | Throw _ => Some (VerifyResult.of_scheme false "Digest")
      end
  end.

(** [class DigestAuthProtocol]: [static scheme = "Digest"]. *)
Definition DigestAuthProtocol
  (verifyParameters : string -> option (list (string * string))
                      -> result bool)
  (challenge : string) : AbstractAuthProtocol :=
  {| scheme := "Digest";
     verify := Digest_verify verifyParameters;
     getChallenge := Some challenge |}.

End Auth.

(* ===================================================================== *)
(** ** _WebEntity.js, WebApi.js, WebResource.js *)
(* ===================================================================== *)

(** What [Result(promise)] resolves to, as [route] reads it: [ok] is
    [None] when [undefined], [error] is [Some] for an [Error]. *)
Record ResultOf (A : Type) : Type := {
  r_ok : option A;
  r_error : option JsError
}.
Arguments r_ok {A} _.
Arguments r_error {A} _.

Module WebEntity.

(** A method handler of a [WebApi] subclass, already wrapped by
    [Result]: from [params] to the envelope it resolves to or the error
    it throws. *)
Definition Handler : Type := Props -> ResultOf Props.

(** An own property of a class prototype, as
    [Object.getOwnPropertyDescriptor] shows it. *)
Inductive PropertyDescriptor : Type :=
| DataFunction (f : Handler)
| DataOther (v : JsValue)
| Accessor.

(** The own properties of a class prototype. *)
Definition ClassPrototype : Type := list (string * PropertyDescriptor).

(** What a [WebResource] serves. *)
Record Content : Type := {
  contentType : string;
  content_body : JsValue
}.

(** The subclass an entity is an instance of.  For a [WebApi], [proto]
    is [Object.getPrototypeOf(webApi)], the prototype of the instance's
    own class, and [ancestors] are the prototypes of the classes between
    it and [WebApi].  For a [WebResource], [resource_get] is its [get]
    wrapped by [Result]. *)
Inductive Variant : Type :=
| IsWebApi (proto : ClassPrototype) (ancestors : list ClassPrototype)
| IsWebResource (resource_get : string -> list Http.Descriptor
                                -> ResultOf Content)
| IsOther.

(** [class WebEntity]: [#path], [#auth_protocols] (a [Map] from scheme
    to protocol, in registration order) and the subclass. *)
Record WebEntity : Type := {
  path : Pattern.Pattern;
  auth_protocols : list (string * Auth.AbstractAuthProtocol);
  variant : Variant
}.

(** The map the constructor builds: [protocol_map.set(protocol.scheme,
    protocol)] for each protocol. *)
Definition protocol_map (protocols : list Auth.AbstractAuthProtocol)
  : list (string * Auth.AbstractAuthProtocol) :=
  fold_left (fun m p => define (Auth.scheme p) p m) protocols [].

(** [get authProtocols] *)
Definition authProtocols (e : WebEntity) : list Auth.AbstractAuthProtocol :=
  map snd (auth_protocols e).

(** [get authRequired] *)
Definition authRequired (e : WebEntity) : bool :=
  match authProtocols e with
  | [] => false
  | _ :: _ => true
  end.

(** [getAuthProtocol(scheme)]: [Map.prototype.get], an exact match.
    [None] as argument is [undefined]. *)
Definition getAuthProtocol (e : WebEntity) (scheme : option string)
  : option Auth.AbstractAuthProtocol :=
  match scheme with
  | None => None
  | Some s => getOwn s (auth_protocols e)
  end.

(** [verify(request)].  Reading [params.scheme] of a descriptor whose
    [params] is [null] throws. *)
Definition verify (e : WebEntity) (request : Http.Request)
  : result (option VerifyResult.VerifyResult) :=
  if negb (authRequired e) then Ok (Some VerifyResult.accepted)
  else
    match Http.first_authorization (Http.headers request) with
    | None => Ok (Some VerifyResult.rejected)
    | Some authorization =>
        match Http.params authorization with
        | None => Throw (TypeError "Cannot read properties of null")
        | Some params =>
            match getAuthProtocol e (getOwn "scheme" params) with
            | None => Ok (Some VerifyResult.rejected)
            | Some auth_protocol => Ok (Auth.verify auth_protocol request)
            end
        end
    end.

(** [getChallenge(scheme)] for a string [scheme]. *)
Definition getChallenge (e : WebEntity) (scheme : string) : option string :=
  match getAuthProtocol e (Some scheme) with
  | None => None
  | Some protocol => Auth.getChallenge protocol
  end.

(** [getChallenges()]: the challenges that are not [undefined]. *)
Definition getChallenges (e : WebEntity) : list string :=
  flat_map
    (fun protocol =>
       match getChallenge e (Auth.scheme protocol) with
       | Some challenge => [challenge]
       | None => []
       end)
    (authProtocols e).

(** Each protocol is registered under its own scheme. *)
Definition keyed_by_scheme (m : list (string * Auth.AbstractAuthProtocol))
  : Prop :=
  Forall (fun kp => fst kp = Auth.scheme (snd kp)) m.

End WebEntity.

Module WebApi.
Import WebEntity.

(** [const HttpMethods] *)
Definition HttpMethods : list string :=
  ["GET"; "POST"; "PUT"; "DELETE"; "HEAD"; "OPTIONS"; "PATCH"].

Definition HttpMethods_has (m : string) : bool :=
  existsb (String.eqb m) HttpMethods.

(** [WebApi.supports(webApi, method)] *)
Definition supports (webApi : WebEntity.WebEntity) (method : string) : bool :=
  match variant webApi with
  | IsWebApi proto _ =>
      if negb (HttpMethods_has (toUpperCase method)) then false
      else
        let method_lc := toLowerCase method in
        match getOwn method_lc proto with
        | Some (DataFunction _) => true
        | _ => false
        end
  | _ => false
  end.

(** [WebApi.supportedMethodListOf(webApi)] *)
Definition supportedMethodListOf (webApi : WebEntity.WebEntity) : list string :=
  filter (supports webApi) HttpMethods.

End WebApi.

(* ===================================================================== *)
(** ** RequestParser.js: header fields *)
(* ===================================================================== *)

(** What a generator yields when it is run to its end: the values in
    order, closed by a normal return or by a thrown error.  A consumer
    that stops early never sees the rest. *)
Inductive gen (A : Type) : Type :=
| Done
| Yield (a : A) (rest : gen A)
| Raise (e : JsError).
Arguments Done {A}.
Arguments Yield {A} a rest.
Arguments Raise {A} e.

Module RequestParser.
Import Http.

Fixpoint gen_of_list {A} (l : list A) (k : gen A) : gen A :=
  match l with
  | [] => k
  | a :: r => Yield a (gen_of_list r k)
  end.

(** [[...g]] *)
Fixpoint spread {A} (g : gen A) : result (list A) :=
  match g with
  | Done => Ok []
  | Raise e => Throw e
  | Yield a rest =>
      match spread rest with
      | Ok l => Ok (a :: l)
      | Throw e => Throw e
      end
  end.

(** A generator that yields, for each value of [g], the values of
    [f]. *)
Fixpoint gen_flat_map {A B} (f : A -> list B) (g : gen A) : gen B :=
  match g with
  | Done => Done
  | Raise e => Raise e
  | Yield a rest => gen_of_list (f a) (gen_flat_map f rest)
  end.

Definition code (c : ascii) : N := N_of_ascii c.

Definition in_range (lo hi : N) (c : ascii) : bool :=
  ((lo <=? code c) && (code c <=? hi))%N.

Definition is_code (n : N) (c : ascii) : bool := (code c =? n)%N.

(** Horizontal tab or space. *)
Definition is_wsp_char (c : ascii) : bool := is_code 9 c || is_code 32 c.

(** A control character other than the horizontal tab, or DEL. *)
Definition is_unused_char (c : ascii) : bool :=
  in_range 0 8 c || in_range 10 31 c || is_code 127 c.

Definition snoc (s : string) (c : ascii) : string :=
  s ++ String c EmptyString.

Definition yield_nonempty (cur : string) (k : gen string) : gen string :=
  if String.eqb cur "" then k else Yield cur k.

(** [_isQuotedString(s)] *)
Definition _isQuotedString (s : string) : bool :=
  (2 <=? Js.length s) && startsWith s (String "034" EmptyString)
  && endsWith s (String "034" EmptyString).

(** [/^[\x09\x20]/.test(s)] *)
Definition starts_with_wsp (s : string) : bool :=
  match s with
  | EmptyString => false
  | String c _ => is_wsp_char c
  end.

(** The matches of a global regular expression that is an alternation
    of single characters ([single]) and of one run of the characters of
    a class ([rest]); a character in neither is passed over. *)
Fixpoint regex_split (single rest : ascii -> bool) (cur : string)
  (s : string) : list string :=
  match s with
  | EmptyString => if String.eqb cur "" then [] else [cur]
  | String c r =>
      if single c then
        ((if String.eqb cur "" then [] else [cur])
         ++ String c EmptyString :: regex_split single rest "" r)%list
      else if rest c then regex_split single rest (snoc cur c) r
      else
        ((if String.eqb cur "" then [] else [cur])
         ++ regex_split single rest "" r)%list
  end.

Inductive Mode : Type := Plain | InWhitespace | InQuote.

(** The loop of [tokenize]: [cur] is the text from [first] to [i],
    [skip] holds when the byte at [i] is the one a backslash inside a
    quoted string jumps over, [last_code] is [code]. *)
Fixpoint tokenize_loop (mode : Mode) (skip : bool) (last_code : N)
  (cur : string) (s : string) : gen string :=
  match s with
  | EmptyString =>
      match mode with
      | InQuote => Raise (SyntaxError "Quoted string not terminated")
      | _ =>
          if (last_code =? 92)%N
          then Raise (SyntaxError "Escape sequence not terminated")
          else yield_nonempty cur Done
      end
  | String c r =>
      if skip then tokenize_loop mode false last_code (snoc cur c) r
      else if is_unused_char c then
        Raise (SyntaxError "control characters are not allowed")
      else
        match mode with
        | InQuote =>
            if is_code 92 c then
              tokenize_loop InQuote true (code c) (snoc cur c) r
            else if is_code 34 c then
              Yield (snoc cur c) (tokenize_loop Plain false (code c) "" r)
            else tokenize_loop InQuote false (code c) (snoc cur c) r
        | InWhitespace =>
            if negb (is_wsp_char c) then
              yield_nonempty cur
                (tokenize_loop (if is_code 34 c then InQuote else Plain)
                   false (code c) (String c EmptyString) r)
            else tokenize_loop InWhitespace false (code c) (snoc cur c) r
        | Plain =>
            if is_wsp_char c then
              yield_nonempty cur
                (tokenize_loop InWhitespace false (code c)
                   (String c EmptyString) r)
            else if is_code 34 c then
              yield_nonempty cur
                (tokenize_loop InQuote false (code c)
                   (String c EmptyString) r)
            else tokenize_loop Plain false (code c) (snoc cur c) r
        end
  end.

(** Every character of the text is below 128.  For such a text
    [new TextEncoder().encode(text)] is the sequence of the characters'
    codes, and [TextDecoder("us-ascii").decode] gives a slice of it back
    as the same characters. *)
Fixpoint ascii_text (s : string) : bool :=
  match s with
  | EmptyString => true
  | String c r => (code c <? 128)%N && ascii_text r
  end.

(** [tokenize(text)].  The code scans the bytes
    [new TextEncoder().encode(text)] and yields each slice decoded by
    [TextDecoder("us-ascii")]; here a character stands for its byte and
    a slice is yielded as it is, which is what the code does on a text
    of characters below 128 ([ascii_text]).  On other text the code
    yields the decoder's reading of the UTF-8 bytes, which is not the
    characters of the text. *)
Definition tokenize (text : string) : gen string :=
  tokenize_loop Plain false 0%N "" text.

(** [token_generator] of [parseHeader]. *)
Definition header_line_tokens (header : string) : gen string :=
  gen_flat_map
    (fun token =>
       if _isQuotedString token || starts_with_wsp token then [token]
       else
         regex_split (is_code 58)
           (fun c => is_code 33 c || in_range 35 57 c || in_range 59 126 c
                     || in_range 128 255 c)
           "" token)
    (tokenize header).

(** All the remaining tokens, concatenated. *)
Fixpoint rest_of_line (acc : string) (g : gen string) : result string :=
  match g with
  | Done => Ok acc
  | Raise e => Throw e
  | Yield token rest => rest_of_line (acc ++ token) rest
  end.

(** The [while] loop of [parseHeader]: the field name and the field
    value. *)
Fixpoint split_header_line (name : string) (g : gen string)
  : result (string * string) :=
  match g with
  | Raise e => Throw e
  | Done => Throw (SyntaxError "name-value separator did not appear.")
  | Yield token rest =>
      if negb (String.eqb token ":") && (0 <? Js.length name) then
        Throw (SyntaxError "Unexpected token appeared.")
      else if _isQuotedString token then
        Throw (SyntaxError "quoted-string is not allowed to be a field-name.")
      else if String.eqb token ":" then
        match rest_of_line "" rest with
        | Throw e => Throw e
        | Ok header_value => Ok (name, header_value)
        end
      else if negb (starts_with_wsp token) then split_header_line token rest
      else split_header_line name rest
  end.

(** Where the quoted string that opens just before [s] closes, counted
    in characters of [s]: at the first double quote that no backslash
    precedes, or else at the last double quote. *)
Fixpoint closing_quote (after_backslash : bool) (i : nat)
  (last_seen : option nat) (s : string) : option nat :=
  match s with
  | EmptyString => last_seen
  | String c r =>
      if is_code 34 c then
        if after_backslash then closing_quote false (S i) (Some i) r
        else Some i
      else closing_quote (is_code 92 c) (S i) last_seen r
  end.

Fixpoint take_while (p : ascii -> bool) (s : string) : string :=
  match s with
  | EmptyString => EmptyString
  | String c r => if p c then String c (take_while p r) else EmptyString
  end.

Fixpoint drop (n : nat) (s : string) : string :=
  match n, s with
  | O, _ => s
  | S n', String _ r => drop n' r
  | S _, EmptyString => EmptyString
  end.

Definition is_rest_char (c : ascii) : bool :=
  is_code 33 c || in_range 35 126 c || in_range 128 255 c.

Definition has_unused (s : string) : bool :=
  negb (String.eqb (take_while (fun c => negb (is_unused_char c)) s) s).

(** [substr_iter] of [parseHeaderValue].  [fuel] bounds the number of
    matches by the length of the value; [skipped] holds once a
    character matched no alternative. *)
Fixpoint substr_loop (fuel : nat) (skipped : bool) (s : string)
  : gen string :=
  match fuel with
  | O => Done
  | S fuel' =>
      match s with
      | EmptyString => Done
      | String c r =>
          if is_code 34 c then
            match closing_quote false O None r with
            | None => substr_loop fuel' true r
            | Some n =>
                if skipped then Raise (SyntaxError "Unexpected token appeared.")
                else
                  let token := String c (String.substring 0 (S n) r) in
                  if has_unused token then
                    Raise (SyntaxError "not allowed to be appeared in HTTP headers")
                  else Yield token (substr_loop fuel' false (drop (S n) r))
            end
          else if skipped then
            Raise (SyntaxError "Unexpected token appeared.")
          else if is_unused_char c then
            Raise (SyntaxError "not allowed to be appeared in HTTP headers")
          else
            let p := if is_wsp_char c then is_wsp_char else is_rest_char in
            let token := take_while p s in
            Yield token (substr_loop fuel' false (drop (String.length token) s))
      end
  end.

Definition substr_iter (header_value : string) : gen string :=
  substr_loop (S (String.length header_value)) false header_value.

(** [/^[\x09\x20]+$/.test(s)] *)
Definition all_wsp (s : string) : bool :=
  negb (String.eqb s "") && String.eqb (take_while is_wsp_char s) s.

(** [_tokenizeGenericHeaderValue] *)
Definition _tokenizeGenericHeaderValue (g : gen string) : gen string :=
  gen_flat_map
    (fun s =>
       if _isQuotedString s || all_wsp s then [s]
       else
         regex_split (fun c => is_code 44 c || is_code 59 c || is_code 61 c)
           (fun c => is_code 33 c || in_range 35 43 c || in_range 45 58 c
                     || is_code 60 c || in_range 62 126 c
                     || in_range 128 255 c)
           "" s)
    g.

(** [_tokenizeCredentialsList] *)
Definition _tokenizeCredentialsList (g : gen string) : gen string :=
  gen_flat_map
    (fun s =>
       if _isQuotedString s || all_wsp s then [s]
       else
         regex_split (fun c => is_code 44 c || is_code 61 c)
           (fun c => is_code 33 c || in_range 35 43 c || in_range 45 60 c
                     || in_range 62 126 c || in_range 128 255 c)
           "" s)
    g.

(** [_nextDesc()] *)
Definition _nextDesc : Descriptor := {| value := ""; params := None |}.

(** [_setDescParam(desc, key, value)] for a string [value].  A quoted
    value goes through [parseJson]; a text that opens with a double
    quote parses to a string or not at all. *)
Definition _setDescParam (h : Host) (desc : Descriptor) (key value : string)
  : result Descriptor :=
  let ps := match params desc with Some ps => ps | None => [] end in
  if hasOwn key ps then
    Throw (SyntaxError "Duplicated parameter definition found.")
  else
    let stored :=
      if _isQuotedString value then
        match Copyutil.parseJson h value None with
        | Some (JStr s) => Ok s
        | _ => Throw (SyntaxError "Unexpected token in JSON")
        end
      else Ok value in
    match stored with
    | Throw e => Throw e
    | Ok v =>
        Ok {| value := Http.value desc;
              params :=
                Some (if String.eqb key "__proto__" then ps
                      else define key v ps) |}
    end.

(** [desc.value = frags.join("")] after the trailing white space is
    popped. *)
Fixpoint pop_trailing_wsp (frags : list string) : list string :=
  match frags with
  | [] => []
  | f :: r =>
      match pop_trailing_wsp r with
      | [] => if starts_with_wsp f then [] else [f]
      | r' => f :: r'
      end
  end.

Definition with_value (desc : Descriptor) (v : string) : Descriptor :=
  {| value := v; params := params desc |}.

Definition value_of_frags (desc : Descriptor) (frags : list string)
  : Descriptor :=
  with_value desc (join "" (pop_trailing_wsp frags)).

(** The parameter held in [token_frags]: the name, lowercased, and the
    rest joined. *)
Definition param_of_frags (h : Host) (desc : Descriptor)
  (frags : list string) : result Descriptor :=
  match frags with
  | [] => _setDescParam h desc "undefined" ""
  | name :: rest => _setDescParam h desc (toLowerCase name) (join "" rest)
  end.

Inductive GenericState : Type :=
| G_WAIT_VALUE
| G_WAIT_PARAM_NAME
| G_WAIT_PARAM_KV_SEP
| G_WAIT_PARAM_VALUE
| G_WAIT_VALUE_SEP_OR_PARAM_SEP.

Definition unexpected {A} : gen A :=
  Raise (SyntaxError "Unexpected token appeared.").

Definition incomplete {A} : gen A :=
  Raise (SyntaxError "Incomplete field was given.").

(** Continue with the descriptor, or raise what setting it threw. *)
Definition and_then {A} (r : result Descriptor) (k : Descriptor -> gen A)
  : gen A :=
  match r with
  | Ok d => k d
  | Throw e => Raise e
  end.

(** [_parseGenericHeaderValue] on the fine tokens. *)
Fixpoint generic_loop (h : Host) (state : GenericState)
  (token_frags : list string) (desc : Descriptor) (tokens : gen string)
  : gen Descriptor :=
  match tokens with
  | Raise e => Raise e
  | Done =>
      match state with
      | G_WAIT_VALUE =>
          match token_frags with
          | [] => Raise (OtherError "ReferenceError: token is not defined")
          | _ => Yield (value_of_frags desc token_frags) Done
          end
      | G_WAIT_PARAM_NAME => incomplete
      | G_WAIT_PARAM_KV_SEP => incomplete
      | G_WAIT_PARAM_VALUE =>
          if (List.length token_frags <=? 1)%nat then incomplete
          else and_then (param_of_frags h desc token_frags)
                 (fun d => Yield d Done)
      | G_WAIT_VALUE_SEP_OR_PARAM_SEP => Yield desc Done
      end
  | Yield token rest =>
      match state with
      | G_WAIT_VALUE =>
          if String.eqb token "=" then
            generic_loop h G_WAIT_VALUE (token_frags ++ [token])%list desc rest
          else if String.eqb token ";" then
            match token_frags with
            | [] => unexpected
            | _ =>
                generic_loop h G_WAIT_PARAM_NAME []
                  (value_of_frags desc token_frags) rest
            end
          else if String.eqb token "," then
            match token_frags with
            | [] => unexpected
            | _ =>
                Yield (value_of_frags desc token_frags)
                  (generic_loop h G_WAIT_VALUE [] _nextDesc rest)
            end
          else if starts_with_wsp token then
            match token_frags with
            | [] => generic_loop h G_WAIT_VALUE [] desc rest
            | _ =>
                generic_loop h G_WAIT_VALUE (token_frags ++ [token])%list
                  desc rest
            end
          else
            generic_loop h G_WAIT_VALUE (token_frags ++ [token])%list desc rest
      | G_WAIT_PARAM_NAME =>
          if String.eqb token "=" || String.eqb token ";"
             || String.eqb token "," || _isQuotedString token
          then unexpected
          else if starts_with_wsp token then
            generic_loop h G_WAIT_PARAM_NAME token_frags desc rest
          else
            generic_loop h G_WAIT_PARAM_KV_SEP (token_frags ++ [token])%list
              desc rest
      | G_WAIT_PARAM_KV_SEP =>
          if String.eqb token "=" then
            generic_loop h G_WAIT_PARAM_VALUE token_frags desc rest
          else unexpected
      | G_WAIT_PARAM_VALUE =>
          if String.eqb token "=" then
            generic_loop h G_WAIT_PARAM_VALUE (token_frags ++ [token])%list
              desc rest
          else if String.eqb token ";" then
            if (List.length token_frags <=? 1)%nat then unexpected
            else and_then (param_of_frags h desc token_frags)
                   (fun d => generic_loop h G_WAIT_PARAM_NAME [] d rest)
          else if String.eqb token "," then
            if (List.length token_frags <=? 1)%nat then unexpected
            else and_then (param_of_frags h desc token_frags)
                   (fun d =>
                      Yield d (generic_loop h G_WAIT_VALUE [] _nextDesc rest))
          else if starts_with_wsp token then
            if (List.length token_frags <=? 1)%nat then unexpected
            else and_then (param_of_frags h desc token_frags)
                   (fun d =>
                      generic_loop h G_WAIT_VALUE_SEP_OR_PARAM_SEP [] d rest)
          else if _isQuotedString token then
            if (2 <=? List.length token_frags)%nat then unexpected
            else
              and_then
                (_setDescParam h desc
                   (match token_frags with
                    | name :: _ => toLowerCase name
                    | [] => "undefined"
                    end)
                   token)
                (fun d =>
                   generic_loop h G_WAIT_VALUE_SEP_OR_PARAM_SEP [] d rest)
          else
            generic_loop h G_WAIT_PARAM_VALUE (token_frags ++ [token])%list
              desc rest
      | G_WAIT_VALUE_SEP_OR_PARAM_SEP =>
          if String.eqb token ";" then
            generic_loop h G_WAIT_PARAM_NAME token_frags desc rest
          else if String.eqb token "," then
            Yield desc (generic_loop h G_WAIT_VALUE token_frags _nextDesc rest)
          else if starts_with_wsp token then
            generic_loop h G_WAIT_VALUE_SEP_OR_PARAM_SEP token_frags desc rest
          else unexpected
      end
  end.

Definition _parseGenericHeaderValue (h : Host) (substrings : gen string)
  : gen Descriptor :=
  generic_loop h G_WAIT_VALUE [] _nextDesc
    (_tokenizeGenericHeaderValue substrings).

(** [split_scheme_and_token68(desc)] *)
Definition split_scheme_and_token68 (h : Host) (desc : Descriptor)
  : result Descriptor :=
  let parts := split_on " " (value desc) in
  let scheme := match parts with s :: _ => s | [] => EmptyString end in
  match _setDescParam h desc "scheme" (toLowerCase scheme) with
  | Throw e => Throw e
  | Ok desc' =>
      match parts with
      | _ :: token68 :: _ =>
          if 0 <? Js.length token68
          then _setDescParam h desc' "token68" token68
          else Ok desc'
      | _ => Ok desc'
      end
  end.

Inductive CredentialsState : Type :=
| WAIT_VALUE
| WAIT_SPACE
| WAIT_TOKEN68_OR_PARAM_NAME
| WAIT_PADDING_OR_PARAM_KV_SEP
| WAIT_PADDING_OR_PARAM_VALUE
| WAIT_PADDING
| WAIT_PARAM_KV_SEP
| WAIT_PARAM_VALUE
| WAIT_VALUE_SEP
| WAIT_VALUE_OR_PARAM
| WAIT_SPACE_OR_KV_SEP
| WAIT_TOKEN68_OR_KV_SEP.

(** [desc.value += " "; desc.value += buf.join("")] *)
Definition append_token68 (desc : Descriptor) (buf : list string)
  : Descriptor :=
  with_value desc (value desc ++ " " ++ join "" buf).

(** [yield split_scheme_and_token68(desc)] and what follows. *)
Definition yield_split (h : Host) (desc : Descriptor)
  (k : gen Descriptor) : gen Descriptor :=
  match split_scheme_and_token68 h desc with
  | Ok d => Yield d k
  | Throw e => Raise e
  end.

(** The first element of the spliced buffer, as a property key. *)
Definition param_name_of (buf : list string) : string :=
  match buf with
  | name :: _ => name
  | [] => "undefined"
  end.

Definition has_params (desc : Descriptor) : bool :=
  match params desc with Some _ => true | None => false end.

(** [_parseCredentialsListHeader] on the fine tokens; [buf] is
    [token68_or_param]. *)
Fixpoint credentials_loop (h : Host) (state : CredentialsState)
  (buf : list string) (desc : Descriptor) (tokens : gen string)
  : gen Descriptor :=
  match tokens with
  | Raise e => Raise e
  | Done =>
      match state with
      | WAIT_VALUE | WAIT_VALUE_OR_PARAM => incomplete
      | WAIT_PARAM_VALUE => incomplete
      | WAIT_SPACE | WAIT_TOKEN68_OR_PARAM_NAME => yield_split h desc Done
      | WAIT_PADDING_OR_PARAM_KV_SEP
      | WAIT_PADDING_OR_PARAM_VALUE
      | WAIT_PADDING => yield_split h (append_token68 desc buf) Done
      | WAIT_PARAM_KV_SEP =>
          if has_params desc then
            yield_split h desc
              (yield_split h (with_value _nextDesc (join "" buf)) Done)
          else yield_split h (append_token68 desc buf) Done
      | WAIT_VALUE_SEP =>
          if has_params desc then yield_split h desc Done
          else yield_split h (append_token68 desc buf) Done
      | WAIT_SPACE_OR_KV_SEP | WAIT_TOKEN68_OR_KV_SEP =>
          yield_split h desc
            (yield_split h (with_value _nextDesc (join "" buf)) Done)
      end
  | Yield token rest =>
      match state with
      | WAIT_VALUE =>
          if String.eqb token "=" || String.eqb token ","
             || _isQuotedString token
          then unexpected
          else if starts_with_wsp token then
            credentials_loop h WAIT_VALUE buf desc rest
          else credentials_loop h WAIT_SPACE buf (with_value desc token) rest
      | WAIT_SPACE =>
          if starts_with_wsp token then
            credentials_loop h WAIT_TOKEN68_OR_PARAM_NAME buf desc rest
          else if String.eqb token "," then
            yield_split h desc
              (credentials_loop h WAIT_VALUE buf _nextDesc rest)
          else unexpected
      | WAIT_TOKEN68_OR_PARAM_NAME =>
          if String.eqb token "=" || _isQuotedString token then unexpected
          else if starts_with_wsp token then
            credentials_loop h WAIT_TOKEN68_OR_PARAM_NAME buf desc rest
          else if String.eqb token "," then
            yield_split h desc
              (credentials_loop h WAIT_VALUE buf _nextDesc rest)
          else
            credentials_loop h WAIT_PADDING_OR_PARAM_KV_SEP
              (buf ++ [token])%list desc rest
      | WAIT_PADDING_OR_PARAM_KV_SEP =>
          if String.eqb token "=" then
            credentials_loop h WAIT_PADDING_OR_PARAM_VALUE
              (buf ++ [token])%list desc rest
          else if String.eqb token "," then
            yield_split h
              (match buf with [] => desc | _ => append_token68 desc buf end)
              (credentials_loop h WAIT_VALUE [] _nextDesc rest)
          else if starts_with_wsp token then
            credentials_loop h WAIT_PARAM_KV_SEP buf desc rest
          else unexpected
      | WAIT_PADDING_OR_PARAM_VALUE =>
          if String.eqb token "=" then
            credentials_loop h WAIT_PADDING (buf ++ [token])%list desc rest
          else if String.eqb token "," then
            yield_split h
              (match buf with [] => desc | _ => append_token68 desc buf end)
              (credentials_loop h WAIT_VALUE [] _nextDesc rest)
          else if starts_with_wsp token then
            credentials_loop h WAIT_VALUE_SEP []
              (match buf with [] => desc | _ => append_token68 desc buf end)
              rest
          else
            and_then (_setDescParam h desc (param_name_of buf) token)
              (fun d => credentials_loop h WAIT_VALUE_SEP [] d rest)
      | WAIT_PADDING =>
          if String.eqb token "=" then
            credentials_loop h WAIT_PADDING (buf ++ [token])%list desc rest
          else if String.eqb token "," then
            yield_split h (append_token68 desc buf)
              (credentials_loop h WAIT_VALUE [] _nextDesc rest)
          else if starts_with_wsp token then
            credentials_loop h WAIT_VALUE_SEP [] (append_token68 desc buf) rest
          else unexpected
      | WAIT_PARAM_KV_SEP =>
          if String.eqb token "=" then
            credentials_loop h WAIT_PARAM_VALUE (buf ++ [token])%list desc rest
          else if String.eqb token "," then
            if has_params desc then
              yield_split h desc
                (yield_split h (with_value _nextDesc (join "" buf))
                   (credentials_loop h WAIT_VALUE [] _nextDesc rest))
            else
              yield_split h (append_token68 desc buf)
                (credentials_loop h WAIT_VALUE [] _nextDesc rest)
          else if starts_with_wsp token then
            credentials_loop h WAIT_PARAM_KV_SEP buf desc rest
          else unexpected
      | WAIT_PARAM_VALUE =>
          if String.eqb token "=" || String.eqb token "," then unexpected
          else if starts_with_wsp token then
            credentials_loop h WAIT_PARAM_VALUE buf desc rest
          else
            and_then (_setDescParam h desc (param_name_of buf) token)
              (fun d => credentials_loop h WAIT_VALUE_SEP [] d rest)
      | WAIT_VALUE_SEP =>
          if String.eqb token "," then
            if has_params desc then
              credentials_loop h WAIT_VALUE_OR_PARAM buf desc rest
            else
              yield_split h (append_token68 desc buf)
                (credentials_loop h WAIT_VALUE [] _nextDesc rest)
          else if starts_with_wsp token then
            credentials_loop h WAIT_VALUE_SEP buf desc rest
          else unexpected
      | WAIT_VALUE_OR_PARAM =>
          if String.eqb token "=" || String.eqb token ","
             || _isQuotedString token
          then unexpected
          else if starts_with_wsp token then
            credentials_loop h WAIT_VALUE_OR_PARAM buf desc rest
          else
            credentials_loop h WAIT_SPACE_OR_KV_SEP (buf ++ [token])%list
              desc rest
      | WAIT_SPACE_OR_KV_SEP =>
          if String.eqb token "=" then
            credentials_loop h WAIT_PARAM_VALUE buf desc rest
          else if String.eqb token "," then
            yield_split h desc
              (credentials_loop h WAIT_VALUE buf _nextDesc rest)
          else if starts_with_wsp token then
            credentials_loop h WAIT_TOKEN68_OR_KV_SEP buf desc rest
          else unexpected
      | WAIT_TOKEN68_OR_KV_SEP =>
          if String.eqb token "," || _isQuotedString token then unexpected
          else if String.eqb token "=" then
            credentials_loop h WAIT_PARAM_VALUE buf desc rest
          else if starts_with_wsp token then
            credentials_loop h WAIT_TOKEN68_OR_KV_SEP buf desc rest
          else
            yield_split h desc
              (credentials_loop h WAIT_PADDING_OR_PARAM_KV_SEP [token]
                 (with_value _nextDesc (join "" buf)) rest)
      end
  end.

(** [_parseCredentialsListHeader] *)
Definition _parseCredentialsListHeader (h : Host) (substrings : gen string)
  : gen Descriptor :=
  credentials_loop h WAIT_VALUE [] _nextDesc
    (_tokenizeCredentialsList substrings).

(** [_parseCredentialsHeader]: the list parser is run up to its first
    [yield] only. *)
Definition _parseCredentialsHeader (h : Host) (substrings : gen string)
  : gen Descriptor :=
  match _parseCredentialsListHeader h substrings with
  | Yield d _ => Yield d Done
  | Raise e => Raise e
  | Done => Raise (TypeError "undefined descriptor")
  end.

(** [_parseSingleValuedHeader] *)
Definition _parseSingleValuedHeader (substrings : gen string)
  : gen Descriptor :=
  match spread substrings with
  | Throw e => Raise e
  | Ok l => Yield (with_value _nextDesc (join "" l)) Done
  end.

(** [parseHeaderValue(headerName, headerValue)], with
    [ParseHeaderSpecializations]. *)
Definition parseHeaderValue (h : Host) (headerName headerValue : string)
  : gen Descriptor :=
  let name := toLowerCase headerName in
  let substrings := substr_iter headerValue in
  if String.eqb name "authorization" then
    _parseCredentialsHeader h substrings
  else if String.eqb name "www-authenticate" then
    _parseCredentialsListHeader h substrings
  else if String.eqb name "user-agent" then
    _parseSingleValuedHeader substrings
  else _parseGenericHeaderValue h substrings.

(** [RequestParser.parseHeader(header)]: the one-property object
    [{ [name]: descriptors }]. *)
Definition parseHeader (h : Host) (header : string)
  : result (string * list Descriptor) :=
  match split_header_line "" (header_line_tokens header) with
  | Throw e => Throw e
  | Ok (header_name, header_value) =>
      if String.eqb header_name "" then
        Throw (SyntaxError "field-name is empty")
      else
        match spread (parseHeaderValue h header_name header_value) with
        | Throw e => Throw e
        | Ok descs => Ok (header_name, descs)
        end
  end.

(** An [http.IncomingMessage] as [parse] uses it.  A raw header value
    is a string or an array of strings.  The body arrives as [chunks]
    (buffers, one per [data] event) and the stream closes with [end]
    ([ending = None]) or with [error]. *)
Inductive RawHeader : Type :=
| One (s : string)
| Many (l : list string).

Record IncomingMessage : Type := {
  readable : bool;
  im_method : string;
  url : string;
  im_headers : list (string * RawHeader);
  chunks : list string;
  ending : option JsError
}.

(** The loop of [parse] over [request.headers]. *)
Fixpoint parse_headers (h : Host) (original : list (string * RawHeader))
  (headers : Headers) : result Headers :=
  match original with
  | [] => Ok headers
  | (header_name, header) :: r =>
      let line :=
        header_name ++ ": "
        ++ match header with
           | One s => s
           | Many l => join ", " l
           end in
      match parseHeader h line with
      | Throw e => Throw e
      | Ok (name, descs) =>
          parse_headers h r
            (if String.eqb name header_name
                && negb (String.eqb header_name "__proto__")
             then define header_name descs headers
             else headers)
      end
  end.

(** [url.indexOf("?")] and the two slices. *)
Fixpoint split_url (url : string) : string * string :=
  match url with
  | EmptyString => (EmptyString, EmptyString)
  | String c r =>
      if is_code 63 c then (EmptyString, r)
      else let (p, q) := split_url r in (String c p, q)
  end.

(** [Object.fromEntries(entries)] *)
Definition fromEntries (entries : list (string * string))
  : list (string * string) :=
  fold_left (fun o kv => define (fst kv) (snd kv) o) entries [].

(** [Number(request.headers["content-length"] ?? -1)] *)
Definition declared_length (h : Host) (request : IncomingMessage)
  : JsNumber :=
  match getOwn "content-length" (im_headers request) with
  | None => NumInt (-1)
  | Some (One s) => Number h s
  | Some (Many l) => Number h (join "," l)
  end.

(** [content_length >= 0] *)
Definition non_negative (n : JsNumber) : bool :=
  match n with
  | NumInt z => 0 <=? z
  | NumOtherNonNeg => true
  | NumOtherNeg | NumNaN => false
  end.

(** [content_length !== actual_content_length] *)
Definition differs (n : JsNumber) (actual : Z) : bool :=
  match n with
  | NumInt z => negb (z =? actual)
  | _ => true
  end.

(** [actual_content_length] after the [data] events. *)
Definition received_length (content_length : JsNumber)
  (chunks : list string) : Z :=
  fold_left
    (fun actual chunk =>
       if non_negative content_length then actual + Js.length chunk
       else actual)
    chunks 0.

(** A call of [console.error] or of [console.warn] in the [end]
    handler of [parse]. *)
Inductive Console : Type :=
| logged_error
| logged_warning.

(** The body decoding of the [end] handler: the calls of [console], in
    order, and the body or the error the promise is rejected with. *)
Definition decode_run (h : Host)
  (parseFormData : string -> option string -> result JsValue)
  (headers : Headers) (body : string) : list Console * result JsValue :=
  let content_types :=
    match getOwn "content-type" headers with
    | Some l => l
    | None => [{| value := "application/octet-stream"; params := None |}]
    end in
  match content_types with
  | [] => ([], Throw (TypeError "Cannot read properties of undefined"))
  | content_type :: others =>
      (* content_types.length >= 2 *)
      let warned :=
        match others with
        | [] => []
        | _ :: _ => [logged_warning]
        end in
      if String.eqb (value content_type) "multipart/form-data" then
        match match params content_type with
              | None => Throw (TypeError "Cannot read properties of null")
              | Some ps => parseFormData body (getOwn "boundary" ps)
              end with
        | Throw e => ((warned ++ [logged_error])%list, Throw e)
        | Ok data => (warned, Ok data)
        end
      else if String.eqb (value content_type)
                "application/x-www-form-urlencoded" then
        (warned,
         Ok (JObj (map (fun kv => (fst kv, JStr (snd kv)))
                     (fromEntries (URLSearchParams h body)))))
      else if String.eqb (value content_type) "application/json" then
        match Copyutil.parseJson h body None with
        | None =>
            ((warned ++ [logged_error])%list,
             Throw (SyntaxError "Unexpected token in JSON"))
        | Some data => (warned, Ok data)
        end
      else if startsWith (value content_type) "text/" then
        let charset :=
          match params content_type with
          | Some ps => getOwn "charset" ps
          | None => None
          end in
        match TextDecoder_decode h
                (match charset with Some c => c | None => "utf-8" end)
                body with
        | Some text => (warned, Ok (JStr text))
        | None =>
            (* console.warn(w, body) *)
            match charset with
            | None =>
                ((warned ++ [logged_warning])%list,
                 Throw (TypeError "The encoded data was not valid"))
            | Some c =>
                if String.eqb (toLowerCase c) "utf-8" then
                  ((warned ++ [logged_warning])%list,
                   Throw (TypeError "The encoded data was not valid"))
                else
                  match TextDecoder_decode h "utf-8" body with
                  | Some text =>
                      ((warned ++ [logged_warning])%list, Ok (JStr text))
                  | None =>
                      ((warned ++ [logged_warning; logged_error])%list,
                       Throw (TypeError "The encoded data was not valid"))
                  end
            end
        end
      else (warned, Ok (JBuf body))
  end.

(** The body the [end] handler decodes, or the error it rejects
    with. *)
Definition decode_body (h : Host)
  (parseFormData : string -> option string -> result JsValue)
  (headers : Headers) (body : string) : result JsValue :=
  snd (decode_run h parseFormData headers body).

(** [RequestParser.parse(request)]: the calls of [console], in order,
    and what the promise settles to.  [parseFormData] stands for
    [RequestParser.parseFormData]. *)
Definition parse_run (h : Host)
  (parseFormData : string -> option string -> result JsValue)
  (request : IncomingMessage) : list Console * result RawRequest :=
  if negb (readable request) then
    ([], Throw (TypeError "Given request is not readable"))
  else
    match parse_headers h (im_headers request) [] with
    | Throw e => ([], Throw e)
    | Ok headers =>
        let (path, search) := split_url (url request) in
        let content_length := declared_length h request in
        let actual_content_length :=
          received_length content_length (chunks request) in
        match ending request with
        | Some error => ([], Throw error)
        | None =>
            if non_negative content_length
               && differs content_length actual_content_length
            then
              ([], Throw (RangeError
                            "Content-Length differs from actual length"))
            else
              let (console, decoded) :=
                decode_run h parseFormData headers
                  (join "" (chunks request)) in
              (console,
               match decoded with
               | Throw e => Throw e
               | Ok body =>
                   Ok {| raw_method := im_method request;
                         raw_path := path;
                         raw_headers := headers;
                         raw_query := fromEntries (URLSearchParams h search);
                         raw_body := body |}
               end)
        end
    end.

(** What the promise of [RequestParser.parse(request)] settles to. *)
Definition parse (h : Host)
  (parseFormData : string -> option string -> result JsValue)
  (request : IncomingMessage) : result RawRequest :=
  snd (parse_run h parseFormData request).

(** A token without white space and without a double quote. *)
Fixpoint plain_chars (s : string) : bool :=
  match s with
  | EmptyString => true
  | String c r => negb (is_wsp_char c) && negb (is_code 34 c) && plain_chars r
  end.

Definition plain_run (s : string) : bool :=
  negb (String.eqb s "") && plain_chars s.

(** The three kinds of token of [tokenize]: a run of white space, a
    quoted string, a run of other characters. *)
Definition token_kind (s : string) : bool :=
  all_wsp s || _isQuotedString s || plain_run s.

Definition quote : string := String "034" EmptyString.

(** What the loop of [tokenize] holds in [cur], mode by mode: the
    characters read since the last token. *)
Definition held (mode : Mode) (skip : bool) (cur : string) : Prop :=
  match mode with
  | Plain => plain_chars cur = true /\ skip = false
  | InWhitespace => all_wsp cur = true /\ skip = false
  | InQuote => startsWith cur quote = true
  end.

(** The first of [s.split(" ")]. *)
Definition first_word (s : string) : string :=
  match split_on " " s with
  | w :: _ => w
  | [] => EmptyString
  end.

(** No double quote occurs in [s]. *)
Fixpoint quote_free (s : string) : bool :=
  match s with
  | EmptyString => true
  | String c r => negb (is_code 34 c) && quote_free r
  end.

(** Each token is a quoted string or has no double quote, as the fine
    tokenizers yield them. *)
Fixpoint tokens_ok (g : gen string) : Prop :=
  match g with
  | Done => True
  | Raise _ => True
  | Yield token rest =>
      (_isQuotedString token = true \/ quote_free token = true)
      /\ tokens_ok rest
  end.

(** The parameters of a descriptor, none when [params] is [null]. *)
Definition params_of (desc : Descriptor) : list (string * string) :=
  match params desc with
  | Some ps => ps
  | None => []
  end.

(** The number of body bytes received. *)
Definition total_length (chunks : list string) : Z :=
  fold_left (fun actual chunk => actual + Js.length chunk) chunks 0.

End RequestParser.

(* ===================================================================== *)
(** ** Router.js *)
(* ===================================================================== *)

Module Router.
Import WebEntity.

(** What [route] does besides writing the response. *)
Inductive Event : Type :=
| console_error
| warn_query_not_json (key value : string)
| warn_both_flags (method : string)
| warn_unusual_status (method : string) (status : Z)
| verified (entity_path : string)
| invoked (method_lc : string) (params : Props)
| resource_read (path : string)
| parser_console (call : RequestParser.Console).

(** What [route] gives the response object: the status, message and
    headers passed to [writeHead] and the chunk passed to [write], if
    any, before [end]. *)
Record Response : Type := {
  statusCode : Z;
  statusMessage : option string;
  headers : list (string * JsValue);
  body : option string
}.

(** Computations of [route]: the events so far and a value or a thrown
    error (a rejected promise). *)
Definition M (A : Type) : Type := (list Event * result A)%type.

Definition ret {A} (a : A) : M A := ([], Ok a).

Definition bind {A B} (m : M A) (f : A -> M B) : M B :=
  match m with
  | (l, Ok a) => let (l', r) := f a in ((l ++ l')%list, r)
  | (l, Throw e) => (l, Throw e)
  end.

Definition emit (e : Event) : M unit := ([e], Ok tt).

Definition throw {A} (e : JsError) : M A := ([], Throw e).

Definition lift {A} (r : result A) : M A := ([], r).

Notation "x <- m ;; k" := (bind m (fun x => k))
  (at level 61, m at next level, right associativity).
Notation "m ;;; k" := (bind m (fun _ => k))
  (at level 61, right associativity).

(** Modelled from the spec: Pattern.js is not among the sources.  What
    [route] uses of it: [new Pattern({ pattern: Pattern.escape(path) })],
    whose tokens are literal copies of the segments of [path], and
    [pattern.extract(path)?.params], the parameter bindings or
    [undefined]. *)
Record PatternOps : Type := {
  escaped : string -> Pattern.Pattern;
  extract_params : Pattern.Pattern -> string -> option (list (string * string))
}.

(** [class Router] *)
Record Router : Type := {
  trailingSlashPolicy : string;
  allowsPostMethodOverride : bool;
  parsesQueryAsJson : bool;
  web_entity_map : PatternMap.PatternMap WebEntity.WebEntity
}.

Fixpoint strip_trailing_slashes (s : string) : string :=
  match s with
  | EmptyString => EmptyString
  | String c r =>
      let r' := strip_trailing_slashes r in
      if Ascii.eqb c "/" && String.eqb r' "" then EmptyString
      else String c r'
  end.

(** [#formatRequestPath(path)]: the regular expression matches the run
    of slashes at the end of [path], possibly empty. *)
Definition formatRequestPath (router : Router) (path : string) : string :=
  if String.eqb (trailingSlashPolicy router) "remove" then
    strip_trailing_slashes path
  else if String.eqb (trailingSlashPolicy router) "add" then
    strip_trailing_slashes path ++ "/"
  else path.

(** [h[0].value.toUpperCase()]; an empty array throws. *)
Definition first_value_upper (h : list Http.Descriptor) : result string :=
  match h with
  | [] => Throw (TypeError "Cannot read properties of undefined")
  | d :: _ => Ok (toUpperCase (Http.value d))
  end.

(** [#resolveMethodOverride(method, headers)] *)
Definition resolveMethodOverride (router : Router) (method : string)
  (headers : option Http.Headers) : result string :=
  match headers with
  | None => Ok method
  | Some headers =>
      if negb (allowsPostMethodOverride router)
         || negb (String.eqb method "POST")
      then Ok method
      else
        let http_method := getOwn "x-http-method" headers in
        let http_method_override := getOwn "x-http-method-override" headers in
        let method_override := getOwn "x-method-override" headers in
        match http_method with
        | Some h => first_value_upper h
        | None =>
            match http_method_override with
            | Some h => first_value_upper h
            | None =>
                match method_override with
                | Some h => first_value_upper h
                | None => Ok method
                end
            end
        end
  end.

Definition dquote : string := String "034"%char EmptyString.
Definition backslash : string := String "092"%char EmptyString.

Fixpoint backslashes (n : nat) : string :=
  match n with
  | O => EmptyString
  | S n' => backslash ++ backslashes n'
  end.

(** The [replaceAll] that makes an already quoted reason well formed:
    each match is a run of backslashes followed by a double quote, and a
    match of odd length (an even number of backslashes) gets one more
    backslash in front.  [pending] counts the backslashes read since the
    last other character. *)
Fixpoint escape_bare_quotes (pending : nat) (s : string) : string :=
  match s with
  | EmptyString => backslashes pending
  | String c r =>
      if Ascii.eqb c "092" then escape_bare_quotes (S pending) r
      else if Ascii.eqb c "034" then
        (if Nat.even pending then backslash else EmptyString)
        ++ backslashes pending ++ dquote ++ escape_bare_quotes O r
      else backslashes pending ++ String c (escape_bare_quotes O r)
  end.

(** [v.slice(1, -1)] *)
Definition slice_1_m1 (s : string) : string :=
  String.substring 1 (String.length s - 2) s.

(** The [name=value] pairs made from [reason]. *)
Definition reason_params (h : Host) (reason : Props) : list string :=
  map
    (fun kv =>
       let k := fst kv in
       match snd kv with
       | JStr v =>
           if (2 <=? Js.length v) && startsWith v dquote
              && endsWith v dquote
           then k ++ "=" ++ dquote
                ++ escape_bare_quotes O (slice_1_m1 v) ++ dquote
           else k ++ "=" ++ JSON_stringify h (JStr v)
       | v => k ++ "=" ++ JSON_stringify h v
       end)
    reason.

(** String concatenation [v + s] where [v] may be [undefined]. *)
Definition concat_value (v : option string) (s : string) : string :=
  match v with
  | Some x => x ++ s
  | None => "undefined" ++ s
  end.

Definition value_of_option (v : option string) : JsValue :=
  match v with
  | Some x => JStr x
  | None => JUndefined
  end.

(** The value [route] gives the [www-authenticate] header. *)
Definition www_authenticate (h : Host) (endpoint : WebEntity.WebEntity)
  (verification_result : VerifyResult.VerifyResult) : JsValue :=
  match VerifyResult.scheme verification_result with
  | None => JStr (join ", " (getChallenges endpoint))
  | Some failed_scheme =>
      let www_authenticate_value := getChallenge endpoint failed_scheme in
      match VerifyResult.reason verification_result with
      | None => value_of_option www_authenticate_value
      | Some reason =>
          let sep :=
            match www_authenticate_value with
            | Some x => if String.eqb x failed_scheme then " " else ", "
            | None => ", "
            end in
          JStr (concat_value www_authenticate_value sep
                ++ join ", " (reason_params h reason))
      end
  end.

(** The status code [route] chooses when verification fails. *)
Definition failure_status (verification_result : VerifyResult.VerifyResult) : Z :=
  match VerifyResult.scheme verification_result with
  | Some _ =>
      match VerifyResult.status verification_result with
      | Some status => status
      | None => 401
      end
  | None => 401
  end.

Definition failure_message (status_code : Z) : string :=
  if status_code =? 401 then "Unauthorized"
  else if status_code =? 403 then "Forbidden"
  else "Bad Request".

(** [{ error: { message, status } }] and [{ error: { status } }],
    serialised. *)
Definition error_body (h : Host) (message : option string) (status : Z)
  : string :=
  JSON_stringify h
    (JObj [("error",
            JObj (match message with
                  | Some m => [("message", JStr m); ("status", JInt status)]
                  | None => [("status", JInt status)]
                  end))]).

Definition json_headers (body_data : string) : list (string * JsValue) :=
  [("content-length", JInt (Js.length body_data));
   ("content-type", JStr "application/json")].

(** The response to a request that did not parse. *)
Definition respond_bad_request (h : Host) : M Response :=
  emit console_error ;;;
  let body_data := error_body h (Some "Bad Request") 400 in
  ret {| statusCode := 400;
         statusMessage := Some "Bad Request";
         headers := json_headers body_data;
         body := Some body_data |}.

(** The responses with status 404 and 405. *)
Definition respond_error (h : Host) (method : string) (status_code : Z)
  (message : string) : M Response :=
  if String.eqb method "HEAD" then
    ret {| statusCode := status_code;
           statusMessage := Some message;
           headers := [];
           body := None |}
  else
    let body_data := error_body h (Some message) status_code in
    ret {| statusCode := status_code;
           statusMessage := Some message;
           headers := json_headers body_data;
           body := Some body_data |}.

(** The response to a request that was not verified. *)
Definition respond_unverified (h : Host) (method : string)
  (endpoint : WebEntity.WebEntity) (verification_result : VerifyResult.VerifyResult)
  : M Response :=
  let status_code := failure_status verification_result in
  let message := failure_message status_code in
  let headers :=
    [("www-authenticate", www_authenticate h endpoint verification_result)]
  in
  if negb (String.eqb method "HEAD") then
    let body_data := error_body h None status_code in
    ret {| statusCode := status_code;
           statusMessage := Some message;
           headers := (headers ++ json_headers body_data)%list;
           body := Some body_data |}
  else
    ret {| statusCode := status_code;
           statusMessage := Some message;
           headers := headers;
           body := None |}.

(** The response to a handler that threw. *)
Definition respond_thrown (h : Host) (error : JsError) : M Response :=
  emit console_error ;;;
  let '(status_code, description, retry_after) :=
    match error with
    | WebApiError s d r => (s, d, r)
    | _ => (500, "Something went wrong", None)
    end in
  let body_data := error_body h (Some description) status_code in
  ret {| statusCode := status_code;
         statusMessage := None;
         headers :=
           (json_headers body_data
            ++ match retry_after with
               | Some r => [("retry-after", JStr r)]
               | None => []
               end)%list;
         body := Some body_data |}.

(** [Number.isInteger(x) && 200 <= x && x <= 599] *)
Definition valid_status (x : option JsValue) : option Z :=
  match x with
  | Some (JInt z) => if (200 <=? z) && (z <=? 599) then Some z else None
  | _ => None
  end.

Definition status_or_200 (x : option JsValue) : Z :=
  match valid_status x with
  | Some z => z
  | None => 200
  end.

(** The status code of a PUT (with [flag] = ["created"], [code] = 201)
    or DELETE (["accepted"], 202) response. *)
Definition flagged_status (flag : string) (code : Z) (ok : Props) : Z :=
  let no_content := getOwn "noContent" ok in
  let flagged := getOwn flag ok in
  if is_boolean no_content && is_boolean flagged then 200
  else if is_true no_content then 204
  else if is_true flagged then code
  else status_or_200 (getOwn "statusCode" ok).

(** The warning that goes with it. *)
Definition flagged_warning (flag : string) (code : Z) (method : string)
  (ok : Props) : M unit :=
  let status_code := flagged_status flag code ok in
  if is_boolean (getOwn "noContent" ok) && is_boolean (getOwn flag ok)
  then emit (warn_both_flags method)
  else if negb ((status_code =? 200) || (status_code =? code)
                || (status_code =? 204))
  then emit (warn_unusual_status method status_code)
  else ret tt.

(** [const { a, b, c, ...rest } = ok] *)
Definition rest_without (names : list string) (ok : Props) : Props :=
  fold_left (fun o name => remove name o) names ok.

Definition respond_json (h : Host) (status_code : Z) (response_body : Props)
  : M Response :=
  if status_code =? 204 then
    ret {| statusCode := status_code; statusMessage := None;
           headers := []; body := None |}
  else
    let body_data := JSON_stringify h (JObj response_body) in
    ret {| statusCode := status_code; statusMessage := None;
           headers := json_headers body_data; body := Some body_data |}.

(** The response made from the envelope [ok] a handler resolved to. *)
Definition respond_envelope (h : Host) (method : string) (ok : Props)
  : M Response :=
  if String.eqb method "HEAD" then
    ret {| statusCode := 204; statusMessage := None;
           headers := ok; body := None |}
  else if String.eqb method "PUT" then
    let response_headers :=
      rest_without ["statusCode"; "noContent"; "created"] ok in
    flagged_warning "created" 201 method ok ;;;
    ret {| statusCode := flagged_status "created" 201 ok;
           statusMessage := None;
           headers := response_headers;
           body := None |}
  else if String.eqb method "DELETE" then
    let response_body :=
      rest_without ["statusCode"; "noContent"; "accepted"] ok in
    flagged_warning "accepted" 202 method ok ;;;
    respond_json h (flagged_status "accepted" 202 ok) response_body
  else
    respond_json h (status_or_200 (getOwn "statusCode" ok))
      (rest_without ["statusCode"] ok).

(** One turn of the loop over the raw query: [q[k] = parseJson(v)], or
    the warning and [q[k] = v]. *)
Definition query_step (h : Host) (acc : M Props) (kv : string * string)
  : M Props :=
  q <- acc ;;
  match Copyutil.parseJson h (snd kv) None with
  | Some v => ret (assign (fst kv) v q)
  | None =>
      emit (warn_query_not_json (fst kv) (snd kv)) ;;;
      ret (assign (fst kv) (JStr (snd kv)) q)
  end.

(** The query after [parseJson] on each value. *)
Definition parse_query (h : Host) (rq : list (string * string)) : M Props :=
  fold_left (query_step h) rq (ret []).

(** The only events the query conversion leaves. *)
Definition is_query_warning (e : Event) : Prop :=
  match e with
  | warn_query_not_json _ _ => True
  | _ => False
  end.

(** The events of [m] come after [l]. *)
Definition prepend {A} (l : list Event) (m : M A) : M A :=
  let (l', r) := m in ((l ++ l')%list, r).

(** [extracted[k] = decodeURIComponent(extracted[k])] for each key. *)
Fixpoint decode_params (h : Host) (extracted : list (string * string))
  : result Props :=
  match extracted with
  | [] => Ok []
  | (k, v) :: r =>
      match decodeURIComponent h v with
      | None => Throw (URIError "URI malformed")
      | Some v' =>
          match decode_params h r with
          | Ok r' => Ok ((k, JStr v') :: r')
          | Throw e => Throw e
          end
      end
  end.

(** The [params] handed to a [WebApi] handler. *)
Definition handler_params (h : Host) (ops : PatternOps)
  (endpoint : WebEntity.WebEntity) (method : string) (request : Http.Request)
  : result Props :=
  let params := Copyutil.merge [] [JObj (Http.query request)] in
  let params :=
    if negb (existsb (String.eqb method) ["GET"; "HEAD"; "DELETE"]) then
      Copyutil.merge params
        [match Http.body request with
         | JStr s => JObj [("body", JStr s)]
         | JBuf b => JObj [("body", JBuf b)]
         | other => other
         end]
    else params in
  match extract_params ops (WebEntity.path endpoint) (Http.path request) with
  | None => Ok params
  | Some extracted =>
      match decode_params h extracted with
      | Throw e => Throw e
      | Ok decoded => Ok (Copyutil.merge params [JObj decoded])
      end
  end.

(** [endpoint[method_lc](params)] wrapped by [Result], once [supports]
    holds: the handler is the function found on the class prototype. *)
Definition invoke (proto : ClassPrototype) (method_lc : string)
  (params : Props) : M (ResultOf Props) :=
  match getOwn method_lc proto with
  | Some (DataFunction f) =>
      emit (invoked method_lc params) ;;; ret (f params)
  | _ => throw (TypeError "endpoint[method_lc] is not a function")
  end.

(** The branch of [route] that serves a [WebResource]. *)
Definition serve_resource (h : Host)
  (resource_get : string -> list Http.Descriptor -> ResultOf Content)
  (request : Http.Request) : M Response :=
  match getOwn "accept" (Http.headers request) with
  | None => throw (TypeError "Spread syntax requires an iterable")
  | Some accept =>
      emit (resource_read (Http.path request)) ;;;
      let result := resource_get (Http.path request) accept in
      match r_error result with
      | Some error => respond_thrown h error
      | None =>
          let ok :=
            match r_ok result with
            | Some c => c
            | None => {| contentType := "text/plain";
                         content_body := JStr "" |}
            end in
          let body_data :=
            match content_body ok with
            | JStr s => s
            | JBuf b => b
            | _ => EmptyString
            end in
          ret {| statusCode := 200; statusMessage := None;
                 headers := [("content-length", JInt (Js.length body_data));
                             ("content-type", JStr (contentType ok))];
                 body := Some body_data |}
      end
  end.

(** The branch of [route] that calls a [WebApi] handler. *)
Definition serve_api (h : Host) (ops : PatternOps) (endpoint : WebEntity.WebEntity)
  (proto : ClassPrototype) (method : string) (request : Http.Request)
  : M Response :=
  params <- lift (handler_params h ops endpoint method request) ;;
  result <- invoke proto (toLowerCase method) params ;;
  match r_error result with
  | Some error => respond_thrown h error
  | None =>
      respond_envelope h method
        (match r_ok result with Some ok => ok | None => [] end)
  end.

(** [endpoint instanceof WebResource && method === "GET"] or
    [endpoint instanceof WebApi && WebApi.supports(endpoint, method)] *)
Definition allowed (endpoint : WebEntity.WebEntity) (method : string) : bool :=
  match variant endpoint with
  | IsWebResource _ => String.eqb method "GET"
  | IsWebApi _ _ => WebApi.supports endpoint method
  | IsOther => false
  end.

(** The query handed on: each value through [parseJson] when
    [parsesQueryAsJson] is set. *)
Definition query_of (h : Host) (router : Router) (raw : Http.RawRequest)
  : M Props :=
  if parsesQueryAsJson router then parse_query h (Http.raw_query raw)
  else ret (map (fun kv => (fst kv, JStr (snd kv))) (Http.raw_query raw)).

(** [request_desc] *)
Definition request_of (router : Router) (raw : Http.RawRequest) (query : Props)
  : Http.Request :=
  {| Http.method := Http.raw_method raw;
     Http.path := formatRequestPath router (Http.raw_path raw);
     Http.headers := Http.raw_headers raw;
     Http.body := Http.raw_body raw;
     Http.query := query |}.

(** The branches of [route] for a verified request. *)
Definition respond_verified (h : Host) (ops : PatternOps)
  (endpoint : WebEntity.WebEntity) (method : string) (request_desc : Http.Request)
  : M Response :=
  match variant endpoint with
  | IsWebResource resource_get => serve_resource h resource_get request_desc
  | IsWebApi proto _ => serve_api h ops endpoint proto method request_desc
  | IsOther => throw (TypeError "endpoint[method_lc] is not a function")
  end.

(** The branches of [route] once an endpoint is found. *)
Definition respond_found (h : Host) (ops : PatternOps)
  (endpoint : WebEntity.WebEntity) (method : string) (request_desc : Http.Request)
  : M Response :=
  if negb (allowed endpoint method) then
    respond_error h method 405 (method ++ " is not allowed")
  else
    emit (verified (Pattern.pattern (WebEntity.path endpoint))) ;;;
    verified_ <- lift (WebEntity.verify endpoint request_desc) ;;
    let verification_result :=
      match verified_ with
      | Some r => r
      | None => VerifyResult.rejected
      end in
    if negb (VerifyResult.ok verification_result) then
      respond_unverified h method endpoint verification_result
    else respond_verified h ops endpoint method request_desc.

(** [route], from the outcome of [RequestParser.parse] on. *)
Definition route_parsed (h : Host) (ops : PatternOps) (router : Router)
  (parsed : result Http.RawRequest) : M Response :=
  match parsed with
  | Throw _ => respond_bad_request h
  | Ok raw =>
      let path := formatRequestPath router (Http.raw_path raw) in
      method <- lift (resolveMethodOverride router (Http.raw_method raw)
                        (Some (Http.raw_headers raw))) ;;
      query <- query_of h router raw ;;
      let request_desc := request_of router raw query in
      endpoint <- lift (PatternMap.get (escaped ops path)
                          (web_entity_map router)) ;;
      match endpoint with
      | None => respond_error h method 404 (path ++ " not found")
      | Some endpoint => respond_found h ops endpoint method request_desc
      end
  end.

(** [route(request, response)]: the calls of [console] made by
    [RequestParser.parse] come first. *)
Definition route (h : Host) (ops : PatternOps)
  (parseFormData : string -> option string -> result JsValue)
  (router : Router) (request : RequestParser.IncomingMessage) : M Response :=
  let (console, parsed) :=
    RequestParser.parse_run h parseFormData request in
  prepend (map parser_console console) (route_parsed h ops router parsed).

(** [s] is made of slashes only. *)
Fixpoint only_slashes (s : string) : bool :=
  match s with
  | EmptyString => true
  | String c r => Ascii.eqb c "/" && only_slashes r
  end.

(** [const TrailingSlashPolicy] *)
Definition TrailingSlashPolicy : list (string * string) :=
  [("asis", "asis"); ("add", "add"); ("remove", "remove")].

(** [o.name] on the options object; [None] is [undefined]. *)
Definition option_of (name : string) (o : JsValue) : option JsValue :=
  match o with
  | JObj props =>
      match getOwn name props with
      | Some JUndefined => None
      | found => found
      end
  | _ => None
  end.

(** [new Router(o)], with its empty [#web_entity_map]. *)
Definition new_Router (o : JsValue) : result Router :=
  match o with
  | JObj _ | JArr _ | JBuf _ =>
      let trailing_slash_policy_ :=
        match option_of "trailingSlashPolicy" o with
        | None | Some JNull => JStr "remove"
        | Some x => x
        end in
      let allows_post_method_override_ :=
        match option_of "allowsPostMethodOverride" o with
        | None | Some JNull => JBool false
        | Some x => x
        end in
      let parses_query_as_json_ :=
        match option_of "parsesQueryAsJson" o with
        | None | Some JNull => JBool true
        | Some x => x
        end in
      match trailing_slash_policy_ with
      | JStr policy =>
          if negb (hasOwn policy TrailingSlashPolicy) then
            Throw (TypeError "not a valid trailing slash policy name")
          else
            match allows_post_method_override_ with
            | JBool allows =>
                match parses_query_as_json_ with
                | JBool parses =>
                    Ok {| trailingSlashPolicy := policy;
                          allowsPostMethodOverride := allows;
                          parsesQueryAsJson := parses;
                          web_entity_map := PatternMap.empty |}
                | _ => Throw (TypeError "not a boolean")
                end
            | _ => Throw (TypeError "not a boolean")
            end
      | _ => Throw (TypeError "not a string")
      end
  | _ => Throw (TypeError "not a non-null object")
  end.

Definition with_map (router : Router)
  (m : PatternMap.PatternMap WebEntity.WebEntity) : Router :=
  {| trailingSlashPolicy := trailingSlashPolicy router;
     allowsPostMethodOverride := allowsPostMethodOverride router;
     parsesQueryAsJson := parsesQueryAsJson router;
     web_entity_map := m |}.

Section Registry.

(** [a === b] on two web entities: whether they are one object. *)
Variable same : WebEntity.WebEntity -> WebEntity.WebEntity -> bool.

(** [enable(webEntity)]: the router afterwards. *)
Definition enable (webEntity : WebEntity.WebEntity) (router : Router)
  : result Router :=
  let path := WebEntity.path webEntity in
  match PatternMap.get path (web_entity_map router) with
  | Throw e => Throw e
  | Ok (Some old_entity) =>
      if negb (same webEntity old_entity) then
        Throw (OtherError "is already used for other entity")
      else Ok router
  | Ok None =>
      match PatternMap.set path (Some webEntity) (web_entity_map router) with
      | Throw e => Throw e
      | Ok m => Ok (with_map router m)
      end
  end.

(** [disable(webEntity)]: the router afterwards. *)
Definition disable (webEntity : WebEntity.WebEntity) (router : Router)
  : result Router :=
  let path := WebEntity.path webEntity in
  match PatternMap.get path (web_entity_map router) with
  | Throw e => Throw e
  | Ok (Some cur_entity) =>
      if same webEntity cur_entity then
        match PatternMap.delete path (web_entity_map router) with
        | Throw e => Throw e
        | Ok (_, m) => Ok (with_map router m)
        end
      else Ok router
  | Ok None => Ok router
  end.

End Registry.

End Router.

(* ===================================================================== *)
(** ** WebApiError.js *)
(* ===================================================================== *)

Module WebApiErrors.

(** What the constructor asks of the clock and of [Date]. *)
Record Clock : Type := {
  (** [Date.now()] *)
  Date_now : Z;
  (** [date_expr.test(s)] *)
  date_expr_test : string -> bool;
  (** [Date.parse(s)]; [None] is [NaN]. *)
  Date_parse : string -> option Z;
  (** [new Date(t).toUTCString()] *)
  toUTCString : Z -> string
}.

(** [status_code_] *)
Definition status_of (statusCode : JsValue) : Z :=
  match statusCode with
  | JInt z => if (100 <=? z) && (z <=? 599) then z else 500
  | _ => 500
  end.

(** [description_] *)
Definition description_of (options : JsValue) : string :=
  match Router.option_of "description" options with
  | Some (JStr s) => s
  | _ => "Something went wrong"
  end.

(** [#retry_after], for an [options.retryAfter] that is no [Date]:
    a number or a string gives a date, anything else [undefined]. *)
Definition retry_after_of (c : Clock) (options : JsValue) : option string :=
  let t0 := Date_now c in
  let dt := 5 in
  match Router.option_of "retryAfter" options with
  | Some (JStr s) =>
      Some (toUTCString c
              (if date_expr_test c s then
                 match Date_parse c s with
                 | Some t => t
                 | None => t0 + dt
                 end
               else t0 + dt))
  | Some (JInt n) => Some (toUTCString c (t0 + n))
  | Some (JFrac _) => Some (toUTCString c (t0 + dt))
  | _ => None
  end.

(** [new WebApiError(statusCode, statusMessage, options)], as far as
    [route] reads it: [statusCode], [description], [retryAfter]. *)
Definition new_WebApiError (c : Clock) (statusCode : JsValue)
  (options : JsValue) : JsError :=
  WebApiError (status_of statusCode) (description_of options)
    (retry_after_of c options).

(** The subclasses, each by the status code it hands to [super]. *)
Definition BadRequestError c := new_WebApiError c (JInt 400).
Definition UnauthorizedError c := new_WebApiError c (JInt 401).
Definition ForbiddenError c := new_WebApiError c (JInt 403).
Definition NotFoundError c := new_WebApiError c (JInt 404).
Definition MethodNotAllowedError c := new_WebApiError c (JInt 405).
Definition NotAcceptableError c := new_WebApiError c (JInt 406).
Definition ProxyAuthenticationRequiredError c := new_WebApiError c (JInt 407).
Definition RequestTimeoutError c := new_WebApiError c (JInt 408).
Definition ConflictError c := new_WebApiError c (JInt 409).
Definition GoneError c := new_WebApiError c (JInt 410).
Definition UnsupportedMediaTypeError c := new_WebApiError c (JInt 415).
Definition InternalServerError c := new_WebApiError c (JInt 500).
Definition NotImplementedError c := new_WebApiError c (JInt 501).
Definition BadGatewayError c := new_WebApiError c (JInt 502).
Definition ServiceUnavailableError c := new_WebApiError c (JInt 503).
Definition NetworkAuthenticationRequiredError c :=
  new_WebApiError c (JInt 511).

(** The error [route] answers for: a [WebApiError] as it is, anything
    else wrapped in an [InternalServerError] with the description
    [Something went wrong]. *)
Definition answered (c : Clock) (error : JsError) : JsError :=
  match error with
  | WebApiError _ _ _ => error
  | _ => InternalServerError c
           (JObj [("description", JStr "Something went wrong")])
  end.

End WebApiErrors.

(* ===================================================================== *)
(** ** ContentType.js *)
(* ===================================================================== *)

Module ContentType.

(** A character of the class [tchar]. *)
Definition is_tchar (c : ascii) : bool :=
  existsb (Ascii.eqb c)
    ["!"; "#"; "$"; "%"; "&"; "'"; "*"; "+"; "-"; "."; "^"; "_"; "`";
     "|"; "~"]%char
  || RequestParser.in_range 48 57 c
  || RequestParser.in_range 97 122 c
  || RequestParser.in_range 65 90 c.

(** What is left of [s] after its longest prefix of [tchar]s. *)
Fixpoint after_token (s : string) : string :=
  match s with
  | EmptyString => EmptyString
  | String c r => if is_tchar c then after_token r else s
  end.

(** [ContentType.isContentType(s)]: a token, a slash, a token, and
    nothing more. *)
Definition isContentType (s : string) : bool :=
  match s with
  | EmptyString => false
  | String c _ =>
      is_tchar c
      && match after_token s with
         | String slash (String c' r') =>
             Ascii.eqb slash "/" && is_tchar c'
             && String.eqb (after_token r') ""
         | _ => false
         end
  end.

(** [content_type.split("/").map(s => s.toLowerCase())], destructured
    into its first two parts; a missing part is [undefined], which a
    valid content type never has. *)
Definition type_and_subtype (content_type : string) : string * string :=
  match map toLowerCase (split_on "/" content_type) with
  | t :: st :: _ => (t, st)
  | [t] => (t, "undefined")
  | [] => ("undefined", "undefined")
  end.

(** [(extension.startsWith(".") ? extension.slice(1) : extension)
    .toLowerCase()] *)
Definition normalized (extension : string) : string :=
  toLowerCase
    (if startsWith extension "." then RequestParser.drop 1 extension
     else extension).

(** [Set.prototype.add] *)
Definition add {A} (eqb : A -> A -> bool) (x : A) (l : list A) : list A :=
  if existsb (eqb x) l then l else (l ++ [x])%list.

(** A registered [ContentType]: the object is known by its type and
    subtype, of which the registry holds one instance. *)
Definition Id : Type := (string * string)%type.

Definition Id_eqb (a b : Id) : bool :=
  String.eqb (fst a) (fst b) && String.eqb (snd a) (snd b).

(** The two static maps: [#type_repos], from type to subtype to the
    instance, of which the [#extensions] are kept here, and
    [#ext_repos], from extension to the set of instances. *)
Record Registry : Type := {
  type_repos : list (string * list (string * list string));
  ext_repos : list (string * list Id)
}.

Definition empty : Registry := {| type_repos := []; ext_repos := [] |}.

(** The [#extensions] of the instance registered as [id], if any. *)
Definition extensions_of (id : Id) (reg : Registry) : option (list string) :=
  match getOwn (fst id) (type_repos reg) with
  | Some subtype_map => getOwn (snd id) subtype_map
  | None => None
  end.

(** [ContentType.get(contentType)] *)
Definition get (contentType : string) (reg : Registry) : option Id :=
  if negb (isContentType contentType) then None
  else
    let id := type_and_subtype contentType in
    match extensions_of id reg with
    | Some _ => Some id
    | None => None
    end.

(** The set an extension is mapped to in [#ext_repos], empty when it
    has none. *)
Definition types_at (extension : string) (repos : list (string * list Id))
  : list Id :=
  match getOwn extension repos with
  | Some associated_types => associated_types
  | None => []
  end.

(** [ContentType.typesOf(extension)] *)
Definition typesOf (extension : string) (reg : Registry) : list Id :=
  types_at (normalized extension) (ext_repos reg).

(** [associated_types.add(instance)], with the set made when the
    extension has none yet. *)
Definition associate (extension : string) (id : Id)
  (repos : list (string * list Id)) : list (string * list Id) :=
  define extension
    (add Id_eqb id
       match getOwn extension repos with
       | Some associated_types => associated_types
       | None => []
       end)
    repos.

(** Storing the [#extensions] of the instance [id]. *)
Definition store (id : Id) (extensions : list string)
  (repos : list (string * list (string * list string)))
  : list (string * list (string * list string)) :=
  define (fst id)
    (define (snd id) extensions
       match getOwn (fst id) repos with
       | Some subtype_map => subtype_map
       | None => []
       end)
    repos.

(** One turn of the loop over the extensions given for a content type
    that is registered already. *)
Definition merge_extension (id : Id) (reg : Registry) (extension : string)
  : Registry :=
  match extensions_of id reg with
  | None => reg
  | Some known =>
      if existsb (String.eqb extension) known then reg
      else
        {| type_repos := store id (known ++ [extension])%list (type_repos reg);
           ext_repos := associate extension id (ext_repos reg) |}
  end.

(** [new ContentType(contentType, ...extensions)]: the instance that
    the expression gives and the registry afterwards. *)
Definition new_ContentType (contentType : string) (extensions : list string)
  (reg : Registry) : result (Id * Registry) :=
  if negb (isContentType contentType) then
    Throw (TypeError "not a valid Content-Type")
  else
    let id := type_and_subtype contentType in
    let extensions_ :=
      fold_left (fun set extension => add String.eqb (normalized extension) set)
        extensions [] in
    match get contentType reg with
    | Some other => Ok (other, fold_left (merge_extension other) extensions_ reg)
    | None =>
        Ok (id,
            {| type_repos := store id extensions_ (type_repos reg);
               ext_repos :=
                 fold_left (fun repos extension => associate extension id repos)
                   extensions_ (ext_repos reg) |})
    end.

(** A run of constructor calls, as the loop over
    [_common_content_type_defs] makes them. *)
Fixpoint register (defs : list (string * list string)) (reg : Registry)
  : result Registry :=
  match defs with
  | [] => Ok reg
  | (content_type, extensions) :: rest =>
      match new_ContentType content_type extensions reg with
      | Throw e => Throw e
      | Ok (_, reg') => register rest reg'
      end
  end.

(** The two maps tell the same: an instance is among the types of an
    extension exactly when the extension is among its [#extensions]. *)
Definition agree (reg : Registry) : Prop :=
  forall (extension : string) (id : Id),
    In id (types_at extension (ext_repos reg))
    <-> exists known,
          extensions_of id reg = Some known /\ In extension known.

End ContentType.

(* ===================================================================== *)
(** ** WebResource.js: the content types of a resource *)
(* ===================================================================== *)

Module WebResource.

(** The fields of a [WebResource] that decide which content types it
    serves: [#content_type], [#uses_wildcard] and
    [#allowed_content_types], a map from the main type to the set of its
    subtypes. *)
Record ContentTypes : Type := {
  contentType : string;
  uses_wildcard : bool;
  allowed_content_types : list (string * list string)
}.

(** One turn of the constructor's loop over [o.allowedContentTypes]. *)
Definition allow (allowed : result (list (string * list string)))
  (content_type : string) : result (list (string * list string)) :=
  match allowed with
  | Throw e => Throw e
  | Ok allowed_content_types_ =>
      if negb (ContentType.isContentType content_type) then
        Throw (TypeError "is not a content-type")
      else
        let (main_type, sub_type) :=
          ContentType.type_and_subtype content_type in
        match getOwn main_type allowed_content_types_ with
        | Some sub_types =>
            Ok (define main_type
                  (ContentType.add String.eqb sub_type sub_types)
                  allowed_content_types_)
        | None => Ok (define main_type [sub_type] allowed_content_types_)
        end
  end.

(** What the constructor makes of [o.contentType] and
    [o.allowedContentTypes] ([None] when the latter is [null] or
    [undefined]). *)
Definition new_ContentTypes (content_type_ : string)
  (allowedContentTypes : option (list string)) : result ContentTypes :=
  if negb (ContentType.isContentType content_type_) then
    Throw (TypeError "is not a content-type")
  else
    let (content_main_type_, content_sub_type_) :=
      ContentType.type_and_subtype content_type_ in
    let uses_wildcard_ :=
      String.eqb content_main_type_ "*" || String.eqb content_sub_type_ "*" in
    let allowed_content_types_ :=
      if uses_wildcard_ then []
      else [(content_main_type_, [content_sub_type_])] in
    match fold_left allow
            match allowedContentTypes with
            | Some content_types => content_types
            | None => []
            end
            (Ok allowed_content_types_) with
    | Throw e => Throw e
    | Ok allowed =>
        Ok {| contentType := content_type_;
              uses_wildcard := uses_wildcard_;
              allowed_content_types := allowed |}
    end.

(** [get allowedContentTypes], run to its end. *)
Definition allowedContentTypes (r : ContentTypes) : list string :=
  flat_map
    (fun entry =>
       map (fun sub_type => fst entry ++ "/" ++ sub_type) (snd entry))
    (allowed_content_types r).

(** [getAllowedType(contentType)]; [None] is [undefined]. *)
Definition getAllowedType (r : ContentTypes) (content_type : string)
  : option string :=
  if negb (ContentType.isContentType content_type) then None
  else
    let (main_type, sub_type) := ContentType.type_and_subtype content_type in
    let is_main_wildcard := String.eqb main_type "*" in
    let is_sub_wildcard := String.eqb sub_type "*" in
    if is_main_wildcard && is_sub_wildcard then
      if uses_wildcard r then None else Some (contentType r)
    else if is_main_wildcard then
      match find (fun entry => existsb (String.eqb sub_type) (snd entry))
              (allowed_content_types r) with
      | Some (allowed_main_type, _) => Some (allowed_main_type ++ "/" ++ sub_type)
      | None => None
      end
    else if is_sub_wildcard then
      match getOwn main_type (allowed_content_types r) with
      | Some (allowed_sub_type :: _) =>
          Some (main_type ++ "/" ++ allowed_sub_type)
      | _ => None
      end
    else
      match getOwn main_type (allowed_content_types r) with
      | Some sub_types =>
          if existsb (String.eqb sub_type) sub_types
          then Some (main_type ++ "/" ++ sub_type)
          else None
      | None => None
      end.

End WebResource.

(* ===================================================================== *)
(** ** The words of the specification, and examples *)
(* ===================================================================== *)

Module Spec.

(** The status of a PUT response: both [noContent] and [created]
    booleans, 200; else [noContent] true, 204; else [created] true, 201;
    else an integer [statusCode] in [200, 599]; otherwise 200. *)
Definition put_status (noContent created statusCode : option JsValue) : Z :=
  match noContent, created with
  | Some (JBool _), Some (JBool _) => 200
  | Some (JBool true), _ => 204
  | _, Some (JBool true) => 201
  | _, _ =>
      match statusCode with
      | Some (JInt z) => if (200 <=? z) && (z <=? 599) then z else 200
      | _ => 200
      end
  end.

(** The envelope without [statusCode], [noContent] and [created]. *)
Definition put_headers (ok : Props) : Props :=
  filter
    (fun kv => negb (String.eqb (fst kv) "statusCode")
               && negb (String.eqb (fst kv) "noContent")
               && negb (String.eqb (fst kv) "created"))
    ok.

(** The header consulted for the method override: the first present of
    the three, in this order. *)
Definition override_header (headers : Http.Headers)
  : option (list Http.Descriptor) :=
  match getOwn "x-http-method" headers with
  | Some h => Some h
  | None =>
      match getOwn "x-http-method-override" headers with
      | Some h => Some h
      | None => getOwn "x-method-override" headers
      end
  end.




(** The uniqueness rule of the specification, read on the walk of [keys]
    from [node]: the key to add is not a wordwise wildcard where a
    wordwise-wildcard child exists, or it is a wordwise wildcard where a
    literal child exists, or it is another key where a wildcard child
    exists. *)
Definition is_Lit (k : PatternMap.Key) : bool :=
  match k with PatternMap.Lit _ => true | _ => false end.

Definition breaks_rule_here {T} (key : PatternMap.Key)
  (node : PatternMap.Node T) : bool :=
  negb (PatternMap.has key node)
  && ((PatternMap.has PatternMap.wordwise_wildcard node && is_Lit key)
      || (existsb (fun kc => is_Lit (fst kc)) (PatternMap.descendants node)
          && PatternMap.Key_eqb key PatternMap.wordwise_wildcard)
      || PatternMap.has PatternMap.wildcard node).

Fixpoint breaks_rule {T} (keys : list PatternMap.Key)
  (node : PatternMap.Node T) : bool :=
  match keys with
  | [] => false
  | key :: rest =>
      breaks_rule_here key node
      || match PatternMap.get1 key node with
         | Some c => breaks_rule rest c
         | None => false
         end
  end.

End Spec.


(** Concrete patterns, entities, routers and requests. *)
Module Examples.

Definition pat (s : string) (toks : list string) (k : string) : Pattern.Pattern :=
  {| Pattern.pattern := s; Pattern.tokens := toks; Pattern.kind := k |}.

Definition p_a_x : Pattern.Pattern := pat "/a/:x" ["a"; ":x"] "exact".
Definition p_a_b : Pattern.Pattern := pat "/a/b" ["a"; "b"] "exact".
Definition p_a_b_c : Pattern.Pattern := pat "/a/b/c" ["a"; "b"; "c"] "exact".
Definition p_a_b_d : Pattern.Pattern := pat "/a/b/d" ["a"; "b"; "d"] "exact".

Definition k_a_b_c : list PatternMap.Key :=
  [PatternMap.Lit "a"; PatternMap.Lit "b"; PatternMap.Lit "c"].
Definition k_a_b_d : list PatternMap.Key :=
  [PatternMap.Lit "a"; PatternMap.Lit "b"; PatternMap.Lit "d"].

(** The JSON text of an object with the keys [__proto__] (an object with
    the key [x]) and [a]. *)
Definition json_text : string :=
  "{" ++ Router.dquote ++ "__proto__" ++ Router.dquote ++ ":{"
  ++ Router.dquote ++ "x" ++ Router.dquote ++ ":1},"
  ++ Router.dquote ++ "a" ++ Router.dquote ++ ":2}".

(** A host for the examples: [JSON.parse] knows quoted strings without
    escapes and [json_text], [Number] knows the text [3]. *)
Definition demo_host : Host :=
  {| JSON_parse := fun s =>
       if RequestParser._isQuotedString s
       then Some (JStr (Router.slice_1_m1 s))
       else if String.eqb s json_text
       then Some (JObj [("__proto__", JObj [("x", JInt 1)]);
                        ("a", JInt 2)])
       else None;
     JSON_stringify := fun _ => "{}";
     decodeURIComponent := fun s => Some s;
     Number := fun s => if String.eqb s "3" then NumInt 3 else NumNaN;
     URLSearchParams := fun _ => [];
     TextDecoder_decode := fun _ bytes => Some bytes |}.

(** Modelled from the spec: Pattern.js is not among the sources.  The
    tokens of an escaped path are its non-empty segments, taken
    literally; the example patterns have no parameters to extract. *)
Definition demo_ops : Router.PatternOps :=
  {| Router.escaped := fun path =>
       {| Pattern.pattern := path;
          Pattern.tokens :=
            filter (fun seg => negb (String.eqb seg "")) (split_on "/" path);
          Pattern.kind := "exact" |};
     Router.extract_params := fun _ _ => None |}.

Definition demo_parseFormData (body : string) (boundary : option string)
  : result JsValue := Ok (JObj []).

(** A handler that resolves to [{ created: true, location: "/x/1" }]. *)
Definition put_handler : WebEntity.Handler :=
  fun _ => {| r_ok := Some [("created", JBool true);
                            ("location", JStr "/x/1")];
              r_error := None |}.

(** A [WebApi] at [/x] whose class overrides [put] only. *)
Definition api_x : WebEntity.WebEntity :=
  {| WebEntity.path := pat "/x" ["x"] "exact";
     WebEntity.auth_protocols := [];
     WebEntity.variant := WebEntity.IsWebApi
                            [("put", WebEntity.DataFunction put_handler)] [] |}.



(** A protocol that keeps the base [verify], which resolves to
    [undefined]. *)
Definition base_protocol : Auth.AbstractAuthProtocol :=
  {| Auth.scheme := "basic";
     Auth.verify := fun _ => None;
     Auth.getChallenge := Some "Basic realm=x" |}.

Definition api_with (protocols : list Auth.AbstractAuthProtocol)
  : WebEntity.WebEntity :=
  {| WebEntity.path := pat "/x" ["x"] "exact";
     WebEntity.auth_protocols := WebEntity.protocol_map protocols;
     WebEntity.variant := WebEntity.IsWebApi
                            [("put", WebEntity.DataFunction put_handler)] [] |}.

Definition router_with (e : WebEntity.WebEntity) : Router.Router :=
  {| Router.trailingSlashPolicy := "remove";
     Router.allowsPostMethodOverride := true;
     Router.parsesQueryAsJson := true;
     Router.web_entity_map :=
       PatternMap.set_walk [PatternMap.Lit "x"] (Some e) PatternMap.empty |}.

Definition authorization (scheme_lc : string) : Http.Headers :=
  [("authorization",
    [{| Http.value := scheme_lc;
        Http.params := Some [("scheme", scheme_lc)] |}])].

Definition raw_request (method : string) (headers : Http.Headers)
  : Http.RawRequest :=
  {| Http.raw_method := method;
     Http.raw_path := "/x/";
     Http.raw_headers := headers;
     Http.raw_query := [];
     Http.raw_body := JBuf "" |}.

(** An incoming PUT of [/x] that declares [Content-Length: 3]. *)
Definition incoming (chunks : list string) : RequestParser.IncomingMessage :=
  {| RequestParser.readable := true;
     RequestParser.im_method := "PUT";
     RequestParser.url := "/x";
     RequestParser.im_headers := [("content-length", RequestParser.One "3")];
     RequestParser.chunks := chunks;
     RequestParser.ending := None |}.

(** A Digest protocol whose hash comparison always succeeds. *)
Definition digest : Auth.AbstractAuthProtocol :=
  Auth.DigestAuthProtocol (fun _ _ => Ok true) "Digest qop=auth".

(** The header line [authorization: Digest username=u], with [u] in
    double quotes. *)
Definition digest_line : string :=
  "authorization: Digest username=" ++ Router.dquote ++ "u" ++ Router.dquote.

Definition digest_descriptor : Http.Descriptor :=
  {| Http.value := "Digest";
     Http.params := Some [("username", "u"); ("scheme", "digest")] |}.

(** The map that holds [/a/:x]. *)
Definition m_a_x : PatternMap.PatternMap Z :=
  PatternMap.set_walk
    [PatternMap.Lit "a"; PatternMap.wordwise_wildcard] (Some 1)
    PatternMap.empty.

(** The map that holds [/a/:x] after [set(/a/b/c, 3)], and after
    [set(/a/b/d, 4)]. *)
Definition m_a_x_c : PatternMap.PatternMap Z :=
  PatternMap.set_walk k_a_b_c (Some 3) m_a_x.
Definition m_a_x_cd : PatternMap.PatternMap Z :=
  PatternMap.set_walk k_a_b_d (Some 4) m_a_x_c.

End Examples.

(** Further examples. *)
Module MoreExamples.
Import Examples.

Definition p_a : Pattern.Pattern := pat "/a" ["a"] "exact".
Definition p_a_y : Pattern.Pattern := pat "/a/:y" ["a"; ":y"] "exact".
Definition p_a_any : Pattern.Pattern := pat "/a/*" ["a"; "*"] "forward".

(** [/a/:x] is set to 1, then [/a] to 3. *)
Definition calls_a : list (Pattern.Pattern * option Z) :=
  [(p_a_x, Some 1); (p_a, Some 3)].

(** The fresh map after [set(/a/b, 2)]. *)
Definition m_a_b : PatternMap.PatternMap Z :=
  PatternMap.set_walk [PatternMap.Lit "a"; PatternMap.Lit "b"] (Some 2)
    PatternMap.empty.

(** A clock that stands at 0 and prints a time as a fixed text. *)
Definition clock : WebApiErrors.Clock :=
  {| WebApiErrors.Date_now := 0;
     WebApiErrors.date_expr_test := fun _ => false;
     WebApiErrors.Date_parse := fun _ => None;
     WebApiErrors.toUTCString := fun _ => "Thu, 01 Jan 1970 00:00:00 GMT" |}.

(** A handler that throws [new NotFoundError(path, {})]. *)
Definition failing_handler : WebEntity.Handler :=
  fun _ => {| r_ok := None;
              r_error := Some (WebApiErrors.NotFoundError clock (JObj [])) |}.

(** A [WebApi] at [/x] whose [put] is [failing_handler]. *)
Definition api_failing : WebEntity.WebEntity :=
  {| WebEntity.path := pat "/x" ["x"] "exact";
     WebEntity.auth_protocols := [];
     WebEntity.variant :=
       WebEntity.IsWebApi
         [("put", WebEntity.DataFunction failing_handler)] [] |}.

(** Modelled from the spec: Pattern.js is not among the sources.  The
    pattern [/u/:id] binds [id] to the second segment of [/u/7]. *)
Definition ops_id : Router.PatternOps :=
  {| Router.escaped := Router.escaped demo_ops;
     Router.extract_params := fun _ path =>
       if String.eqb path "/u/7" then Some [("id", "7")] else None |}.

(** A [WebApi] at [/u/:id]. *)
Definition api_user : WebEntity.WebEntity :=
  {| WebEntity.path := pat "/u/:id" ["u"; ":id"] "exact";
     WebEntity.auth_protocols := [];
     WebEntity.variant :=
       WebEntity.IsWebApi [("post", WebEntity.DataFunction put_handler)] [] |}.

(** A request of [/u/7?id=1] whose JSON body is [{ id: 2 }]. *)
Definition request_user : Http.Request :=
  {| Http.method := "POST";
     Http.path := "/u/7";
     Http.headers := [];
     Http.body := JObj [("id", JInt 2)];
     Http.query := [("id", JInt 1)] |}.

(** The router [new Router({})] makes. *)
Definition router0 : Router.Router :=
  {| Router.trailingSlashPolicy := "remove";
     Router.allowsPostMethodOverride := false;
     Router.parsesQueryAsJson := true;
     Router.web_entity_map := PatternMap.empty |}.

(** Two entities, at [/a] and at [/a/b], and the router that has both. *)
Definition entity_a : WebEntity.WebEntity :=
  {| WebEntity.path := p_a;
     WebEntity.auth_protocols := [];
     WebEntity.variant := WebEntity.IsWebApi [] [] |}.

Definition entity_a_b : WebEntity.WebEntity :=
  {| WebEntity.path := p_a_b;
     WebEntity.auth_protocols := [];
     WebEntity.variant := WebEntity.IsWebApi [] [] |}.

Definition router_a_b : Router.Router :=
  Router.with_map router0
    (PatternMap.set_walk [PatternMap.Lit "a"; PatternMap.Lit "b"]
       (Some entity_a_b)
       (PatternMap.set_walk [PatternMap.Lit "a"] (Some entity_a)
          PatternMap.empty)).

(** A second protocol with the scheme [basic]. *)
Definition basic_again : Auth.AbstractAuthProtocol :=
  {| Auth.scheme := "basic";
     Auth.verify := fun _ => Some VerifyResult.accepted;
     Auth.getChallenge := Some "Basic realm=y" |}.

(** The text [a: b] followed by the quoted string [c d], and its
    tokens. *)
Definition header_text : string :=
  "a: b " ++ Router.dquote ++ "c d" ++ Router.dquote.

Definition header_tokens : list string :=
  ["a:"; " "; "b"; " "; Router.dquote ++ "c d" ++ Router.dquote].

(** An incoming PUT of [/x] that declares [application/json] and
    carries the text [{]. *)
Definition incoming_json : RequestParser.IncomingMessage :=
  {| RequestParser.readable := true;
     RequestParser.im_method := "PUT";
     RequestParser.url := "/x";
     RequestParser.im_headers :=
       [("content-type", RequestParser.One "application/json")];
     RequestParser.chunks := ["{"];
     RequestParser.ending := None |}.

(** The registry after [new ContentType("application/json", "json")]
    and [new ContentType("text/html", "html")]. *)
Definition registry : ContentType.Registry :=
  {| ContentType.type_repos :=
       [("application", [("json", ["json"])]); ("text", [("html", ["html"])])];
     ContentType.ext_repos :=
       [("json", [("application", "json")]); ("html", [("text", "html")])] |}.

(** The content types of a resource constructed with the primary type
    [Text/HTML] and [allowedContentTypes: ["text/plain"]]. *)
Definition page : WebResource.ContentTypes :=
  {| WebResource.contentType := "Text/HTML";
     WebResource.uses_wildcard := false;
     WebResource.allowed_content_types := [("text", ["html"; "plain"])] |}.

End MoreExamples.

(* ===================================================================== *)
(** * Properties *)
(* ===================================================================== *)

(** ** PatternMap: the walks of [set] and [#getNode] *)

Module PatternMapFacts.
Import PatternMap.

Lemma Key_eqb_eq (a b : Key) : Key_eqb a b = true <-> a = b.
Proof.
  destruct a, b; simpl; split; intro H; try discriminate; try reflexivity.
  - apply String.eqb_eq in H. now subst.
  - injection H as ->. apply String.eqb_refl.
Qed.

Lemma Key_eqb_refl (a : Key) : Key_eqb a a = true.
Proof. now apply Key_eqb_eq. Qed.

Lemma Key_eqb_neq (a b : Key) : Key_eqb a b = false <-> a <> b.
Proof.
  split.
  - intros H E. apply Key_eqb_eq in E. congruence.
  - intro H. destruct (Key_eqb a b) eqn:E; [|reflexivity].
    apply Key_eqb_eq in E. contradiction.
Qed.

Section Walks.
Context {T : Type}.
Implicit Types (n c : Node T) (d : list (Key * Node T)) (v : option T).

Lemma lookup_put_same key c d : lookup key (put key c d) = Some c.
Proof.
  induction d as [|[k c'] r IH]; simpl.
  - now rewrite Key_eqb_refl.
  - destruct (Key_eqb k key) eqn:E; simpl.
    + now rewrite Key_eqb_refl.
    + now rewrite E.
Qed.

Lemma lookup_put_other key key' c d :
  key <> key' -> lookup key (put key' c d) = lookup key d.
Proof.
  intro N. induction d as [|[k c'] r IH]; simpl.
  - assert (E : Key_eqb key' key = false)
      by (apply Key_eqb_neq; congruence).
    now rewrite E.
  - destruct (Key_eqb k key') eqn:E; simpl.
    + apply Key_eqb_eq in E. subst k.
      assert (E : Key_eqb key' key = false)
        by (apply Key_eqb_neq; congruence).
      now rewrite E.
    + destruct (Key_eqb k key); [reflexivity | exact IH].
Qed.

Lemma get1_set1_same key c n : get1 key (set1 key c n) = Some c.
Proof. apply lookup_put_same. Qed.

Lemma get1_set1_other key key' c n :
  key <> key' -> get1 key (set1 key' c n) = get1 key n.
Proof. apply lookup_put_other. Qed.

Lemma has_get1 key n : has key n = true <-> exists c, get1 key n = Some c.
Proof.
  unfold has, get1. destruct (lookup key (descendants n)).
  - split; eauto.
  - split; [discriminate | intros [c H]; discriminate].
Qed.

Lemma has_set1 key key' c n :
  has key (set1 key' c n) = Key_eqb key' key || has key n.
Proof.
  destruct (Key_eqb key' key) eqn:E.
  - apply Key_eqb_eq in E. subst. unfold has.
    fold (get1 key (set1 key c n)). now rewrite get1_set1_same.
  - apply Key_eqb_neq in E. unfold has.
    fold (get1 key (set1 key' c n)). fold (get1 key n).
    rewrite get1_set1_other by congruence. reflexivity.
Qed.

Lemma has_update key key' f n : has key (update key' f n) = has key n.
Proof.
  unfold update. destruct (get1 key' n) eqn:G; [|reflexivity].
  rewrite has_set1. destruct (Key_eqb key' key) eqn:E; [|reflexivity].
  apply Key_eqb_eq in E. subst. simpl. symmetry. apply has_get1. eauto.
Qed.

Lemma has_set_value key v n : has key (set_value v n) = has key n.
Proof. reflexivity. Qed.

(** [set] never removes an edge. *)
Lemma has_set_walk key keys v n :
  has key n = true -> has key (set_walk keys v n) = true.
Proof.
  intro H. destruct keys as [|k rest]; simpl; [exact H|].
  destruct (has wordwise_wildcard n); [now rewrite has_update|].
  destruct (has wildcard n); [now rewrite has_update|].
  destruct (has k n); [now rewrite has_update|].
  rewrite has_set1, H. apply orb_true_r.
Qed.

Lemma own_ok_before key keys v n :
  own_ok key (set_walk keys v n) = true -> own_ok key n = true.
Proof.
  unfold own_ok. intro H. apply andb_true_iff in H as [H1 H2].
  apply andb_true_iff; split.
  - destruct (has wordwise_wildcard n) eqn:E; [|reflexivity].
    now rewrite (has_set_walk _ keys v _ E) in H1.
  - destruct (has wildcard n) eqn:E; [|reflexivity].
    now rewrite (has_set_walk _ keys v _ E) in H2.
Qed.

Lemma wildcard_last_tail key rest :
  wildcard_last (key :: rest) = true -> wildcard_last rest = true.
Proof.
  destruct rest; simpl; [reflexivity|].
  intro H. now apply andb_true_iff in H as [_ H].
Qed.

Lemma wildcard_last_head rest :
  wildcard_last (wildcard :: rest) = true -> rest = [].
Proof. destruct rest; simpl; [reflexivity | discriminate]. Qed.

Lemma child_or_new_set1_same key c n : child_or_new key (set1 key c n) = c.
Proof. unfold child_or_new. now rewrite get1_set1_same. Qed.

(** When the key is the one the node resolves by, [set] takes the edge
    of that very key. *)
Lemma set_walk_own key rest v n :
  wildcard_last (key :: rest) = true ->
  own_ok key n = true ->
  set_walk (key :: rest) v n
  = set1 key (set_walk rest v (child_or_new key n)) n.
Proof.
  intros W O. unfold own_ok in O. apply andb_true_iff in O as [O1 O2].
  simpl. unfold child_or_new.
  destruct (has wordwise_wildcard n) eqn:HW.
  - simpl in O1. apply Key_eqb_eq in O1. subst key.
    unfold update. apply has_get1 in HW as [c ->]. reflexivity.
  - destruct (has wildcard n) eqn:HT.
    + simpl in O2. apply Key_eqb_eq in O2. subst key.
      apply wildcard_last_head in W. subst rest.
      unfold update. apply has_get1 in HT as [c ->]. reflexivity.
    + destruct (has key n) eqn:HK.
      * unfold update. apply has_get1 in HK as [c ->]. reflexivity.
      * unfold has in HK. unfold get1.
        destruct (lookup key (descendants n)); [discriminate | reflexivity].
Qed.

(** ... and so does [#getNode]. *)
Lemma getNode_walk_own key rest n :
  wildcard_last (key :: rest) = true ->
  own_ok key n = true ->
  getNode_walk (key :: rest) n
  = match get1 key n with
    | Some c => getNode_walk rest c
    | None => None
    end.
Proof.
  intros W O. unfold own_ok in O. apply andb_true_iff in O as [O1 O2].
  simpl.
  destruct (has wildcard n) eqn:HT.
  - simpl in O2. apply Key_eqb_eq in O2. subst key.
    apply wildcard_last_head in W. subst rest.
    destruct (get1 wildcard n); reflexivity.
  - destruct (has wordwise_wildcard n) eqn:HW; [|reflexivity].
    simpl in O1. apply Key_eqb_eq in O1. now subst key.
Qed.

Lemma value_set_walk_cons key rest v n :
  value (set_walk (key :: rest) v n) = value n.
Proof.
  simpl. unfold update.
  destruct (has wordwise_wildcard n).
  { destruct (get1 wordwise_wildcard n); reflexivity. }
  destruct (has wildcard n).
  { destruct (get1 wildcard n); reflexivity. }
  destruct (has key n); [|reflexivity].
  destruct (get1 key n); reflexivity.
Qed.

Lemma getNode_walk_set_value key rest v n :
  getNode_walk (key :: rest) (set_value v n) = getNode_walk (key :: rest) n.
Proof. reflexivity. Qed.

Lemma resolves_own_set_value keys v n :
  keys <> [] ->
  resolves_own keys (set_value v n) = resolves_own keys n.
Proof. destruct keys; [congruence | reflexivity]. Qed.

Lemma resolves_own_cons key rest n :
  resolves_own (key :: rest) n
  = own_ok key n
    && match get1 key n with
       | Some c => resolves_own rest c
       | None => false
       end.
Proof. reflexivity. Qed.

(** A pattern resolved through its own keys reads back what was set. *)
Lemma value_at_set_walk_same keys v n :
  wildcard_last keys = true ->
  resolves_own keys (set_walk keys v n) = true ->
  value_at keys (set_walk keys v n) = v.
Proof.
  revert n. induction keys as [|key rest IH]; intros n W R.
  - reflexivity.
  - pose proof R as R'. rewrite resolves_own_cons in R'.
    apply andb_true_iff in R' as [O R'].
    pose proof (own_ok_before _ _ _ _ O) as O0.
    unfold value_at. rewrite (getNode_walk_own _ _ _ W O).
    rewrite (set_walk_own _ _ _ _ W O0) in R' |- *.
    rewrite get1_set1_same in R' |- *.
    apply (IH _ (wildcard_last_tail _ _ W) R').
Qed.

(** Two patterns with different keys, each resolved through its own keys
    in the final trie, do not disturb one another. *)
Lemma value_at_set_walk_frame kp : forall kq v w n,
  wildcard_last kp = true ->
  wildcard_last kq = true ->
  kp <> kq ->
  resolves_own kp (set_walk kq w (set_walk kp v n)) = true ->
  resolves_own kq (set_walk kq w (set_walk kp v n)) = true ->
  value_at kp (set_walk kq w (set_walk kp v n)) = v.
Proof.
  induction kp as [|k r IH]; intros kq v w n Wp Wq D Rp Rq.
  - destruct kq as [|k' r']; [congruence|].
    unfold value_at, getNode_walk.
    now rewrite value_set_walk_cons.
  - destruct kq as [|k' r'].
    + change (set_walk [] w ?x) with (set_value w x) in *.
      unfold value_at. rewrite getNode_walk_set_value.
      rewrite resolves_own_set_value in Rp by congruence.
      apply (value_at_set_walk_same _ _ _ Wp Rp).
    + pose proof Rp as Rp'. rewrite resolves_own_cons in Rp'.
      apply andb_true_iff in Rp' as [Op Rp'].
      pose proof Rq as Rq'. rewrite resolves_own_cons in Rq'.
      apply andb_true_iff in Rq' as [Oq Rq'].
      pose proof (own_ok_before _ _ _ _ Oq) as Oq1.
      pose proof (own_ok_before _ _ _ _ Op) as Op1.
      pose proof (own_ok_before _ _ _ _ Op1) as Op0.
      unfold value_at. rewrite (getNode_walk_own _ _ _ Wp Op).
      rewrite (set_walk_own k' r' w _ Wq Oq1) in Rp', Rq' |- *.
      rewrite (set_walk_own k r v _ Wp Op0) in Rp', Rq' |- *.
      destruct (Key_eqb k k') eqn:E.
      * apply Key_eqb_eq in E. subst k'.
        rewrite get1_set1_same in Rp', Rq' |- *.
        rewrite child_or_new_set1_same in Rp', Rq' |- *.
        apply (IH r' v w _ (wildcard_last_tail _ _ Wp)
                 (wildcard_last_tail _ _ Wq)); [congruence | | ]; assumption.
      * apply Key_eqb_neq in E.
        rewrite get1_set1_other in Rp' |- * by congruence.
        rewrite get1_set1_same in Rp' |- *.
        apply (value_at_set_walk_same _ _ _ (wildcard_last_tail _ _ Wp) Rp').
Qed.

End Walks.

Lemma token_key_not_wildcard token : Key_eqb (token_key token) wildcard = false.
Proof. unfold token_key. destruct (startsWith token ":"); reflexivity. Qed.

Lemma keys_from_wildcard_last forward rest : forall prev,
  wildcard_last (keys_from forward prev rest) = true.
Proof.
  induction rest as [|token rest IH]; intro prev; simpl.
  - destruct forward; reflexivity.
  - specialize (IH token).
    destruct (keys_from forward token rest) eqn:E; [reflexivity|].
    rewrite token_key_not_wildcard. exact IH.
Qed.

Lemma getKeys_wildcard_last p keys :
  getKeys p = Ok keys -> wildcard_last keys = true.
Proof.
  unfold getKeys. destruct (Pattern.tokens p) as [|prev rest].
  - destruct (String.eqb (Pattern.kind p) "forward"); [|discriminate].
    intro H. injection H as <-. reflexivity.
  - intro H. injection H as <-. apply keys_from_wildcard_last.
Qed.

End PatternMapFacts.

(** ** PatternMap: which edges [set] adds *)

Module PatternMapEdges.
Import PatternMap PatternMapFacts.

Section Edges.
Context {T : Type}.
Implicit Types (n c : Node T) (d : list (Key * Node T)) (v : option T).

Lemma map_fst_put_present key c c0 d :
  lookup key d = Some c0 -> map fst (put key c d) = map fst d.
Proof.
  induction d as [|[k c'] r IH]; simpl; [discriminate|].
  destruct (Key_eqb k key) eqn:E.
  - intros _. apply Key_eqb_eq in E. now subst.
  - intro H. simpl. now rewrite IH.
Qed.

Lemma map_fst_put_absent key c d :
  lookup key d = None -> map fst (put key c d) = (map fst d ++ [key])%list.
Proof.
  induction d as [|[k c'] r IH]; simpl; [reflexivity|].
  destruct (Key_eqb k key) eqn:E; [discriminate|].
  intro H. simpl. now rewrite IH.
Qed.

Lemma edge_keys_update key f n : edge_keys (update key f n) = edge_keys n.
Proof.
  unfold update. destruct (get1 key n) as [c|] eqn:G; [|reflexivity].
  unfold edge_keys. simpl. apply (map_fst_put_present _ _ c). exact G.
Qed.

(** Once a wordwise-wildcard child exists, [set] adds no child there. *)
Lemma set_walk_keeps_edges_wordwise key rest v n :
  has wordwise_wildcard n = true ->
  edge_keys (set_walk (key :: rest) v n) = edge_keys n.
Proof. intro H. simpl. rewrite H. apply edge_keys_update. Qed.

(** Once a wildcard child exists, [set] adds no child there. *)
Lemma set_walk_keeps_edges_wildcard key rest v n :
  has wildcard n = true ->
  edge_keys (set_walk (key :: rest) v n) = edge_keys n.
Proof.
  intro H. simpl. rewrite H.
  destruct (has wordwise_wildcard n); apply edge_keys_update.
Qed.

(** Without a wildcard child of either kind an absent key is inserted,
    whatever literal children the node has. *)
Lemma set_walk_adds_edge key rest v n :
  has wordwise_wildcard n = false ->
  has wildcard n = false ->
  has key n = false ->
  edge_keys (set_walk (key :: rest) v n) = (edge_keys n ++ [key])%list.
Proof.
  intros H1 H2 H3. simpl. rewrite H1, H2, H3.
  unfold edge_keys. simpl. apply map_fst_put_absent.
  unfold has in H3. destruct (lookup key (descendants n)); [discriminate|].
  reflexivity.
Qed.

End Edges.

End PatternMapEdges.

(** ** Copyutil: the reviver walk *)

Module CopyutilFacts.
Import Copyutil.

Lemma guard_reviver_undefined_or_same key v :
  guard_reviver key v = JUndefined \/ guard_reviver key v = v.
Proof.
  unfold guard_reviver. destruct (String.eqb key "__proto__"); auto.
Qed.

Lemma guard_reviver_proto v : guard_reviver "__proto__" v = JUndefined.
Proof. reflexivity. Qed.

Lemma no_proto_guard key v :
  no_proto v = true -> no_proto (guard_reviver key v) = true.
Proof.
  intro H. destruct (guard_reviver_undefined_or_same key v) as [-> | ->];
    [reflexivity | exact H].
Qed.

(** Whatever the parsed text holds, the walk leaves no own property named
    [__proto__]. *)
Lemma internalize_no_proto v :
  forall key, no_proto (internalize guard_reviver key v) = true.
Proof.
  induction v using JsValue_nested_ind; intro key;
    try (simpl; apply no_proto_guard; reflexivity).
  - simpl. apply no_proto_guard. simpl.
    generalize O. induction H as [|x r Hx Hr IH]; intro i; simpl.
    + reflexivity.
    + rewrite Hx. simpl. apply IH.
  - simpl. apply no_proto_guard. simpl.
    induction H as [|[k x] r Hx Hr IH]; simpl.
    + reflexivity.
    + simpl in Hx. specialize (Hx k).
      destruct (String.eqb k "__proto__") eqn:E.
      * apply String.eqb_eq in E. subst k.
        assert (U : internalize guard_reviver "__proto__" x = JUndefined).
        { destruct x; reflexivity. }
        rewrite U. exact IH.
      * set (v' := internalize guard_reviver k x) in *.
        assert (G : forallb
                      (fun kv => negb (String.eqb (fst kv) "__proto__")
                                 && no_proto (snd kv))
                      ((k, v') :: (fix walk (ps : Props) : Props :=
                                     match ps with
                                     | [] => []
                                     | (k0, v0) :: r0 =>
                                         match internalize guard_reviver k0 v0
                                         with
                                         | JUndefined => walk r0
                                         | v1 => (k0, v1) :: walk r0
                                         end
                                     end) r) = true).
        { simpl. rewrite E, Hx. simpl. exact IH. }
        destruct v'; try exact G. exact IH.
Qed.

End CopyutilFacts.

(** ** Router: the shape of [route] *)

Module RouterFacts.
Import WebEntity Router.

Lemma bind_ok {A B} (l : list Event) (a : A) (f : A -> M B) :
  bind (l, Ok a) f = prepend l (f a).
Proof. reflexivity. Qed.

Lemma bind_lift_ok {A B} (a : A) (f : A -> M B) :
  bind (lift (Ok a)) f = f a.
Proof. unfold lift. rewrite bind_ok. unfold prepend. now destruct (f a). Qed.

Lemma bind_emit {B} (e : Event) (k : M B) :
  bind (emit e) (fun _ => k) = prepend [e] k.
Proof. reflexivity. Qed.

Lemma query_step_ok h l0 q0 kv :
  exists l' q',
    query_step h (l0, Ok q0) kv = ((l0 ++ l')%list, Ok q')
    /\ Forall is_query_warning l'.
Proof.
  unfold query_step. rewrite bind_ok.
  destruct (Copyutil.parseJson h (snd kv) None) as [x|].
  - exists [], (assign (fst kv) x q0). split; [reflexivity | constructor].
  - exists [warn_query_not_json (fst kv) (snd kv)],
           (assign (fst kv) (JStr (snd kv)) q0).
    split; [reflexivity | repeat constructor].
Qed.

Lemma parse_query_from h rq : forall l0 q0,
  Forall is_query_warning l0 ->
  exists l q,
    fold_left (query_step h) rq (l0, Ok q0) = (l, Ok q)
    /\ Forall is_query_warning l.
Proof.
  induction rq as [|kv r IH]; intros l0 q0 W.
  - simpl. eauto.
  - cbn [fold_left].
    destruct (query_step_ok h l0 q0 kv) as (l' & q' & -> & W').
    apply IH. apply Forall_app. split; assumption.
Qed.

(** The query conversion never throws. *)
Lemma query_of_ok h router raw :
  exists l q,
    query_of h router raw = (l, Ok q) /\ Forall is_query_warning l.
Proof.
  unfold query_of. destruct (parsesQueryAsJson router).
  - apply (parse_query_from h (Http.raw_query raw) [] []). constructor.
  - eexists; eexists; split; [reflexivity | constructor].
Qed.

(** [route] on a request that parsed, whose method resolved and whose
    path is registered. *)
Lemma route_parsed_found h ops router raw method lq query endpoint :
  resolveMethodOverride router (Http.raw_method raw)
    (Some (Http.raw_headers raw)) = Ok method ->
  query_of h router raw = (lq, Ok query) ->
  PatternMap.get
    (escaped ops (formatRequestPath router (Http.raw_path raw)))
    (web_entity_map router) = Ok (Some endpoint) ->
  route_parsed h ops router (Ok raw)
  = prepend lq (respond_found h ops endpoint method
                  (request_of router raw query)).
Proof.
  intros Hm Hq He. unfold route_parsed.
  rewrite Hm, bind_lift_ok, Hq, bind_ok, He, bind_lift_ok. reflexivity.
Qed.


(** The branch taken once the request is allowed and verification gave
    [verified_]. *)
Lemma respond_found_verified h ops endpoint method request verified_ :
  allowed endpoint method = true ->
  WebEntity.verify endpoint request = Ok verified_ ->
  respond_found h ops endpoint method request
  = prepend [verified (Pattern.pattern (WebEntity.path endpoint))]
      (let verification_result :=
         match verified_ with
         | Some r => r
         | None => VerifyResult.rejected
         end in
       if negb (VerifyResult.ok verification_result)
       then respond_unverified h method endpoint verification_result
       else respond_verified h ops endpoint method request).
Proof.
  intros Ha Hv. unfold respond_found.
  rewrite Ha. simpl negb. cbv iota.
  rewrite bind_emit, Hv, bind_lift_ok. reflexivity.
Qed.

Lemma respond_unverified_ok h method endpoint vr :
  exists resp,
    respond_unverified h method endpoint vr = ([], Ok resp)
    /\ statusCode resp = failure_status vr
    /\ getOwn "www-authenticate" (headers resp)
       = Some (www_authenticate h endpoint vr).
Proof.
  unfold respond_unverified.
  destruct (negb (String.eqb method "HEAD"));
    eexists; (split; [reflexivity | split; reflexivity]).
Qed.



End RouterFacts.

(** ** WebApi: what [supports] looks at *)

Module WebApiFacts.
Import WebEntity.



(** A handler defined by a class further up, between the instance's
    class and [WebApi], does not count. *)
Lemma supports_ignores_ancestors e proto ancestors method :
  variant e = IsWebApi proto ancestors ->
  getOwn (toLowerCase method) proto = None ->
  WebApi.supports e method = false.
Proof.
  intros V G. unfold WebApi.supports. rewrite V, G.
  now destruct (negb _).
Qed.

End WebApiFacts.

(** ** Router: a verified request to a [WebApi] *)

Module EnvelopeFacts.
Import WebEntity Router RouterFacts.

Lemma remove_filter {A} (k : string) (o : list (string * A)) :
  remove k o = filter (fun kv => negb (String.eqb (fst kv) k)) o.
Proof.
  induction o as [|[k' v] r IH]; simpl; [reflexivity|].
  destruct (String.eqb k' k); simpl; now rewrite IH.
Qed.

Lemma filter_filter {A} (p q : A -> bool) (l : list A) :
  filter q (filter p l) = filter (fun x => p x && q x) l.
Proof.
  induction l as [|x r IH]; simpl; [reflexivity|].
  destruct (p x); simpl; [destruct (q x)|]; now rewrite IH.
Qed.

(** The rest of the destructuring is the envelope without the three
    control fields. *)
Lemma rest_without_put (ok : Props) :
  rest_without ["statusCode"; "noContent"; "created"] ok
  = Spec.put_headers ok.
Proof.
  unfold rest_without, Spec.put_headers. simpl.
  rewrite !remove_filter, !filter_filter.
  apply filter_ext. intro kv. now rewrite andb_assoc.
Qed.

(** The status the code chooses is the one the specification words. *)
Lemma flagged_status_put (ok : Props) :
  flagged_status "created" 201 ok
  = Spec.put_status (getOwn "noContent" ok) (getOwn "created" ok)
      (getOwn "statusCode" ok).
Proof.
  unfold flagged_status, Spec.put_status, status_or_200, valid_status.
  destruct (getOwn "noContent" ok) as [[| |[|]| | | | | |]|];
    destruct (getOwn "created" ok) as [[| |[|]| | | | | |]|];
    simpl; try reflexivity;
    destruct (getOwn "statusCode" ok) as [[| | |code| | | | |]|];
    try reflexivity;
    destruct ((200 <=? code) && (code <=? 599)); reflexivity.
Qed.

Lemma respond_envelope_put h (ok : Props) :
  exists log,
    respond_envelope h "PUT" ok
    = (log,
       Ok {| statusCode :=
               Spec.put_status (getOwn "noContent" ok) (getOwn "created" ok)
                 (getOwn "statusCode" ok);
             statusMessage := None;
             headers := Spec.put_headers ok;
             body := None |})
    /\ (is_boolean (getOwn "noContent" ok)
        && is_boolean (getOwn "created" ok) = true ->
        In (warn_both_flags "PUT") log).
Proof.
  unfold respond_envelope. simpl String.eqb. cbv iota.
  rewrite rest_without_put, flagged_status_put.
  unfold flagged_warning.
  destruct (is_boolean (getOwn "noContent" ok)
            && is_boolean (getOwn "created" ok)).
  - eexists. split; [reflexivity|]. intros _. simpl. auto.
  - destruct (negb _); eexists; (split; [reflexivity | discriminate]).
Qed.

(** The handler is called once, with the merged parameters, and its
    envelope is answered. *)
Lemma serve_api_returned h ops endpoint proto method request params f :
  handler_params h ops endpoint method request = Ok params ->
  getOwn (toLowerCase method) proto = Some (DataFunction f) ->
  r_error (f params) = None ->
  serve_api h ops endpoint proto method request
  = prepend [invoked (toLowerCase method) params]
      (respond_envelope h method
         (match r_ok (f params) with Some ok => ok | None => [] end)).
Proof.
  intros Hp Hf He. unfold serve_api, invoke.
  rewrite Hp, bind_lift_ok, Hf, bind_emit. unfold prepend at 1, ret.
  rewrite bind_ok, He. reflexivity.
Qed.

End EnvelopeFacts.

(** ** WebEntity: the protocol map *)

Module WebEntityFacts.
Import WebEntity.

Lemma define_keyed m p :
  keyed_by_scheme m -> keyed_by_scheme (define (Auth.scheme p) p m).
Proof.
  unfold keyed_by_scheme.
  induction m as [|[k q] r IH]; simpl; intro H.
  - repeat constructor.
  - inversion H as [|? ? Hk Hr]; subst.
    destruct (String.eqb k (Auth.scheme p)); constructor; simpl; auto.
Qed.

Lemma define_keys_in {A} k (v : A) m x :
  In x (map fst (define k v m)) -> x = k \/ In x (map fst m).
Proof.
  induction m as [|[k' v'] r IH]; simpl.
  - intros [<- | []]. auto.
  - destruct (String.eqb k' k) eqn:E; simpl.
    + apply String.eqb_eq in E. subst. intros [<- | H]; auto.
    + intros [<- | H]; auto. destruct (IH H); auto.
Qed.

Lemma define_NoDup {A} k (v : A) m :
  NoDup (map fst m) -> NoDup (map fst (define k v m)).
Proof.
  induction m as [|[k' v'] r IH]; simpl; intro H.
  - repeat constructor. intros [].
  - inversion H as [|? ? Hn Hr]; subst.
    destruct (String.eqb k' k) eqn:E; simpl.
    + apply String.eqb_eq in E. subst. now constructor.
    + constructor; [|auto]. intro I.
      apply define_keys_in in I as [-> | I]; [|contradiction].
      now rewrite String.eqb_refl in E.
Qed.

Lemma protocol_map_from ps : forall m,
  keyed_by_scheme m -> NoDup (map fst m) ->
  keyed_by_scheme (fold_left (fun m p => define (Auth.scheme p) p m) ps m)
  /\ NoDup (map fst
             (fold_left (fun m p => define (Auth.scheme p) p m) ps m)).
Proof.
  induction ps as [|p r IH]; intros m K N; simpl; [auto|].
  apply IH; [now apply define_keyed | now apply define_NoDup].
Qed.

Lemma getOwn_NoDup {A} (m : list (string * A)) k v :
  NoDup (map fst m) -> In (k, v) m -> getOwn k m = Some v.
Proof.
  induction m as [|[k' v'] r IH]; simpl; intros N I; [contradiction|].
  inversion N as [|? ? Hn Hr]; subst.
  destruct I as [E | I].
  - injection E as -> ->. now rewrite String.eqb_refl.
  - destruct (String.eqb k' k) eqn:E; [|auto].
    apply String.eqb_eq in E. subst. exfalso. apply Hn.
    apply (in_map fst) in I. exact I.
Qed.

Lemma challenges_by_lookup
  (m l : list (string * Auth.AbstractAuthProtocol)) :
  (forall k p, In (k, p) l -> getOwn (Auth.scheme p) m = Some p) ->
  flat_map
    (fun protocol =>
       match match getOwn (Auth.scheme protocol) m with
             | None => None
             | Some q => Auth.getChallenge q
             end with
       | Some challenge => [challenge]
       | None => []
       end)
    (map snd l)
  = flat_map
      (fun p => match Auth.getChallenge p with
                | Some challenge => [challenge]
                | None => []
                end)
      (map snd l).
Proof.
  induction l as [|[k p] r IH]; intro G; simpl; [reflexivity|].
  rewrite (G k p (or_introl eq_refl)). f_equal.
  apply IH. intros k' p' I. apply (G k' p'). now right.
Qed.

(** With the map the constructor builds, [getChallenges] collects the
    challenge of each registered protocol, in registration order. *)
Lemma getChallenges_registered (e : WebEntity.WebEntity) ps :
  auth_protocols e = protocol_map ps ->
  getChallenges e
  = flat_map
      (fun p => match Auth.getChallenge p with
                | Some challenge => [challenge]
                | None => []
                end)
      (authProtocols e).
Proof.
  intro E.
  destruct (protocol_map_from ps [] (Forall_nil _) (NoDup_nil _)) as [K N].
  fold (protocol_map ps) in K, N. rewrite <- E in K, N.
  apply (challenges_by_lookup (auth_protocols e) (auth_protocols e)).
  intros k p I. unfold keyed_by_scheme in K. rewrite Forall_forall in K.
  pose proof (K _ I) as Hk. simpl in Hk. subst k.
  now apply getOwn_NoDup.
Qed.

End WebEntityFacts.

(** ** RequestParser: the declared and the received length *)

Module RequestParserFacts.
Import RequestParser.

Lemma received_length_from content_length chunks : forall a,
  non_negative content_length = true ->
  fold_left
    (fun actual chunk =>
       if non_negative content_length then actual + Js.length chunk
       else actual)
    chunks a
  = fold_left (fun actual chunk => actual + Js.length chunk) chunks a.
Proof.
  induction chunks as [|c r IH]; intros a H; simpl; [reflexivity|].
  rewrite IH by exact H. now rewrite H.
Qed.

Lemma received_length_declared content_length chunks :
  non_negative content_length = true ->
  received_length content_length chunks = total_length chunks.
Proof. apply received_length_from. Qed.

(** What the promise settles to, spelled out. *)
Lemma parse_eq h parseFormData request :
  parse h parseFormData request
  = if negb (readable request) then
      Throw (TypeError "Given request is not readable")
    else
      match parse_headers h (im_headers request) [] with
      | Throw e => Throw e
      | Ok headers =>
          let (path, search) := split_url (url request) in
          let content_length := declared_length h request in
          let actual_content_length :=
            received_length content_length (chunks request) in
          match ending request with
          | Some error => Throw error
          | None =>
              if non_negative content_length
                 && differs content_length actual_content_length
              then Throw (RangeError
                            "Content-Length differs from actual length")
              else
                match decode_body h parseFormData headers
                        (join "" (chunks request)) with
                | Throw e => Throw e
                | Ok body =>
                    Ok {| Http.raw_method := im_method request;
                          Http.raw_path := path;
                          Http.raw_headers := headers;
                          Http.raw_query :=
                            fromEntries (URLSearchParams h search);
                          Http.raw_body := body |}
                end
          end
      end.
Proof.
  unfold parse, parse_run, decode_body.
  destruct (negb (readable request)); [reflexivity|].
  destruct (parse_headers h (im_headers request) []) as [headers|e];
    [|reflexivity].
  destruct (split_url (url request)) as [path search].
  destruct (ending request); [reflexivity|].
  destruct (_ && _); [reflexivity|].
  now destruct (decode_run h parseFormData headers _) as [console [body|e]].
Qed.

(** The body of a request declared as JSON that [JSON.parse] rejects. *)
Lemma decode_run_bad_json h parseFormData headers body content_type others :
  getOwn "content-type" headers = Some (content_type :: others) ->
  Http.value content_type = "application/json" ->
  JSON_parse h body = None ->
  decode_run h parseFormData headers body
  = ((match others with [] => [] | _ :: _ => [logged_warning] end
      ++ [logged_error])%list,
     Throw (SyntaxError "Unexpected token in JSON")).
Proof.
  intros Hc Hv Hj. unfold decode_run. rewrite Hc, Hv.
  simpl String.eqb. cbv iota.
  unfold Copyutil.parseJson. rewrite Hj. reflexivity.
Qed.

Lemma lower_ascii_not_D (c : ascii) : lower_ascii c <> "D"%char.
Proof.
  destruct c as [[] [] [] [] [] [] [] []]; vm_compute; discriminate.
Qed.

(** No lowercased text is the scheme name [Digest]. *)
Lemma toLowerCase_not_Digest (x : string) : toLowerCase x <> "Digest".
Proof.
  destruct x as [|c r]; simpl; [discriminate|].
  intro H. injection H as H _. now apply lower_ascii_not_D in H.
Qed.

End RequestParserFacts.

(** ** RequestParser: the scheme a credentials header yields *)

Module CredentialsFacts.
Import Http RequestParser.

Lemma quote_free_app a b :
  quote_free (a ++ b) = quote_free a && quote_free b.
Proof.
  induction a as [|c r IH]; simpl; [reflexivity|].
  rewrite IH. now rewrite andb_assoc.
Qed.

Lemma startsWith_quote s :
  startsWith s (String "034" EmptyString) = true ->
  exists r, s = String "034" r.
Proof.
  unfold startsWith. destruct s as [|c r]; [discriminate|].
  cbn -[Ascii.ascii_dec].
  destruct (Ascii.ascii_dec "034" c) as [<- | N]; [eauto | discriminate].
Qed.

Lemma quoted_not_free s : _isQuotedString s = true -> quote_free s = false.
Proof.
  unfold _isQuotedString. intro H.
  apply andb_true_iff in H as [H _]. apply andb_true_iff in H as [_ H].
  apply startsWith_quote in H as [r ->]. reflexivity.
Qed.

Lemma free_not_quoted s : quote_free s = true -> _isQuotedString s = false.
Proof.
  intro H. destruct (_isQuotedString s) eqn:E; [|reflexivity].
  apply quoted_not_free in E. congruence.
Qed.

Lemma quote_free_snoc cur c :
  quote_free cur = true -> is_code 34 c = false ->
  quote_free (snoc cur c) = true.
Proof.
  intros H N. unfold snoc. rewrite quote_free_app, H. simpl. now rewrite N.
Qed.

Lemma regex_split_free single rest :
  (forall c, single c = true -> is_code 34 c = false) ->
  (forall c, rest c = true -> is_code 34 c = false) ->
  forall s cur,
    quote_free cur = true ->
    Forall (fun t => quote_free t = true) (regex_split single rest cur s).
Proof.
  intros Hs Hr. induction s as [|c r IH]; intros cur Hc; simpl.
  - destruct (String.eqb cur ""); repeat constructor. exact Hc.
  - destruct (single c) eqn:S1.
    + apply Forall_app. split.
      * destruct (String.eqb cur ""); repeat constructor. exact Hc.
      * constructor; [simpl; now rewrite (Hs c S1) | now apply IH].
    + destruct (rest c) eqn:R1.
      * apply IH. apply quote_free_snoc; auto.
      * apply Forall_app. split.
        -- destruct (String.eqb cur ""); repeat constructor. exact Hc.
        -- now apply IH.
Qed.

Lemma take_while_wsp_free s :
  quote_free (take_while is_wsp_char s) = true.
Proof.
  induction s as [|c r IH]; simpl; [reflexivity|].
  destruct (is_wsp_char c) eqn:W; [|reflexivity].
  simpl. rewrite IH.
  destruct (is_code 34 c) eqn:Q; [|reflexivity].
  unfold is_code in Q. apply N.eqb_eq in Q.
  unfold is_wsp_char, is_code in W. rewrite Q in W. discriminate.
Qed.

Lemma all_wsp_free s : all_wsp s = true -> quote_free s = true.
Proof.
  unfold all_wsp. intro H. apply andb_true_iff in H as [_ H].
  apply String.eqb_eq in H. rewrite <- H. apply take_while_wsp_free.
Qed.

Lemma tokens_ok_of_list l k :
  Forall (fun t => _isQuotedString t = true \/ quote_free t = true) l ->
  tokens_ok k -> tokens_ok (gen_of_list l k).
Proof.
  induction 1 as [|t r Ht Hr IH]; intro Hk; simpl; auto.
Qed.

Lemma code_in_range_not_quote lo hi c :
  in_range lo hi c = true -> (34 < lo \/ hi < 34)%N -> is_code 34 c = false.
Proof.
  unfold in_range, is_code. intros H B.
  apply andb_true_iff in H as [H1 H2].
  apply N.leb_le in H1, H2. apply N.eqb_neq. lia.
Qed.

Lemma is_code_not_quote n c :
  is_code n c = true -> n <> 34%N -> is_code 34 c = false.
Proof.
  unfold is_code. intros H N. apply N.eqb_eq in H. apply N.eqb_neq. congruence.
Qed.

(** Whatever it is given, the credentials tokenizer yields quoted
    strings and tokens without a double quote. *)
Lemma credentials_tokens_ok g : tokens_ok (_tokenizeCredentialsList g).
Proof.
  unfold _tokenizeCredentialsList.
  induction g as [|s rest IH|e]; simpl; auto.
  apply tokens_ok_of_list; [|exact IH].
  destruct (_isQuotedString s) eqn:Q; simpl.
  - constructor; [now left | constructor].
  - destruct (all_wsp s) eqn:W.
    + constructor; [right; now apply all_wsp_free | constructor].
    + eapply Forall_impl; [intros t Ht; right; exact Ht|].
      apply regex_split_free; [| |reflexivity].
      * intros c H. apply orb_true_iff in H as [H | H];
          (eapply is_code_not_quote; [exact H | discriminate]).
      * intros c H.
        repeat (apply orb_true_iff in H as [H | H]);
          first [ eapply is_code_not_quote; [exact H | discriminate]
                | eapply code_in_range_not_quote; [exact H | lia] ].
Qed.

Lemma split_on_free sep s :
  quote_free s = true ->
  Forall (fun t => quote_free t = true) (split_on sep s).
Proof.
  induction s as [|c r IH]; simpl; intro H.
  - repeat constructor.
  - apply andb_true_iff in H as [Hc Hr]. specialize (IH Hr).
    destruct (Ascii.eqb c sep).
    + constructor; [reflexivity | exact IH].
    + destruct (split_on sep r) as [|w ws]; [repeat constructor|].
      * simpl. now rewrite Hc.
      * inversion IH; subst. constructor; [|assumption].
        simpl. rewrite Hc. assumption.
Qed.

Lemma lower_ascii_quote c :
  is_code 34 (lower_ascii c) = is_code 34 c.
Proof.
  destruct c as [[] [] [] [] [] [] [] []]; reflexivity.
Qed.

Lemma toLowerCase_free s :
  quote_free s = true -> quote_free (toLowerCase s) = true.
Proof.
  induction s as [|c r IH]; simpl; [reflexivity|].
  intro H. apply andb_true_iff in H as [Hc Hr].
  rewrite lower_ascii_quote, Hc. simpl. now apply IH.
Qed.

Lemma join_free (l : list string) :
  Forall (fun t => quote_free t = true) l -> quote_free (join "" l) = true.
Proof.
  unfold join. induction 1 as [|t r Ht Hr IH]; simpl; [reflexivity|].
  destruct r as [|t' r']; [exact Ht|].
  rewrite quote_free_app, Ht. simpl. exact IH.
Qed.

Lemma getOwn_define_same {A} k (v : A) m : getOwn k (define k v m) = Some v.
Proof.
  induction m as [|[k' v'] r IH]; simpl.
  - now rewrite String.eqb_refl.
  - destruct (String.eqb k' k) eqn:E; simpl.
    + now rewrite String.eqb_refl.
    + now rewrite E.
Qed.

Lemma getOwn_define_other {A} k k' (v : A) m :
  k <> k' -> getOwn k (define k' v m) = getOwn k m.
Proof.
  intro N. induction m as [|[k0 v0] r IH]; simpl.
  - assert (E : String.eqb k' k = false)
      by (apply String.eqb_neq; congruence).
    now rewrite E.
  - destruct (String.eqb k0 k') eqn:E; simpl.
    + apply String.eqb_eq in E. subst k0.
      assert (E : String.eqb k' k = false)
        by (apply String.eqb_neq; congruence).
      now rewrite E.
    + destruct (String.eqb k0 k); [reflexivity | exact IH].
Qed.

(** Setting a parameter leaves the value of the descriptor alone. *)
Lemma _setDescParam_value h desc key v d :
  _setDescParam h desc key v = Ok d -> value d = value desc.
Proof.
  unfold _setDescParam. destruct (hasOwn key _); [discriminate|].
  destruct (_isQuotedString v).
  - destruct (Copyutil.parseJson h v None) as [[]|]; try discriminate.
    intro H. now injection H as <-.
  - intro H. now injection H as <-.
Qed.

(** Setting another parameter leaves the scheme alone. *)
Lemma _setDescParam_keeps_scheme h desc key v d :
  _setDescParam h desc key v = Ok d -> key <> "scheme" ->
  getOwn "scheme" (params_of d) = getOwn "scheme" (params_of desc).
Proof.
  unfold _setDescParam, params_of. intros H N.
  destruct (hasOwn key _); [discriminate|].
  assert (G : forall s,
             getOwn "scheme"
               (if String.eqb key "__proto__"
                then match params desc with Some ps => ps | None => [] end
                else define key s
                       match params desc with Some ps => ps | None => [] end)
             = getOwn "scheme"
                 match params desc with Some ps => ps | None => [] end).
  { intro s. destruct (String.eqb key "__proto__"); [reflexivity|].
    apply getOwn_define_other. congruence. }
  destruct (_isQuotedString v).
  - destruct (Copyutil.parseJson h v None) as [[]|]; try discriminate.
    injection H as <-. simpl. apply G.
  - injection H as <-. simpl. apply G.
Qed.

(** A scheme without a double quote is stored as it is. *)
Lemma _setDescParam_scheme h desc v d :
  quote_free v = true ->
  _setDescParam h desc "scheme" v = Ok d ->
  getOwn "scheme" (params_of d) = Some v.
Proof.
  unfold _setDescParam, params_of. intros Q H.
  destruct (hasOwn "scheme" _); [discriminate|].
  rewrite (free_not_quoted _ Q) in H. injection H as <-. simpl.
  apply getOwn_define_same.
Qed.

(** What [split_scheme_and_token68] stores as the scheme is a lowercased
    text. *)
Lemma split_stores_lowercased h desc d :
  quote_free (value desc) = true ->
  split_scheme_and_token68 h desc = Ok d ->
  exists x, getOwn "scheme" (params_of d) = Some (toLowerCase x).
Proof.
  intros Q H. unfold split_scheme_and_token68 in H.
  pose proof (split_on_free " " _ Q) as F.
  set (parts := split_on " " (value desc)) in *.
  set (scheme := match parts with s :: _ => s | [] => EmptyString end) in *.
  assert (Qs : quote_free (toLowerCase scheme) = true).
  { apply toLowerCase_free. subst scheme.
    destruct parts; [reflexivity | now inversion F]. }
  destruct (_setDescParam h desc "scheme" (toLowerCase scheme))
    as [desc'|e] eqn:S1; [|discriminate].
  pose proof (_setDescParam_scheme _ _ _ _ Qs S1) as G.
  exists scheme.
  destruct parts as [|p0 [|token68 ps]]; try (injection H as <-; exact G).
  destruct (0 <? Js.length token68); [|injection H as <-; exact G].
  rewrite (_setDescParam_keeps_scheme _ _ _ _ _ H); [exact G | discriminate].
Qed.

(** The invariant of the credentials loop: neither the value under
    construction nor the buffered tokens hold a double quote. *)
Definition clean (buf : list string) (desc : Descriptor) : Prop :=
  quote_free (value desc) = true
  /\ Forall (fun t => quote_free t = true) buf.

Lemma clean_next : clean [] _nextDesc.
Proof. split; [reflexivity | constructor]. Qed.

Lemma clean_push buf desc token :
  clean buf desc -> quote_free token = true ->
  clean (buf ++ [token])%list desc.
Proof.
  intros [V B] Q. split; [exact V|].
  apply Forall_app. split; [exact B | repeat constructor; exact Q].
Qed.

Lemma clean_value buf desc token :
  clean buf desc -> quote_free token = true ->
  clean buf (with_value desc token).
Proof. intros [V B] Q. split; [exact Q | exact B]. Qed.

Lemma clean_value_free buf desc :
  clean buf desc -> quote_free (value desc) = true.
Proof. now intros [V _]. Qed.

Lemma append_free buf desc :
  clean buf desc -> quote_free (value (append_token68 desc buf)) = true.
Proof.
  intros [V B]. unfold append_token68, with_value. cbn [value].
  rewrite !quote_free_app, V, (join_free _ B). reflexivity.
Qed.

Lemma joined_free buf desc :
  clean buf desc ->
  quote_free (value (with_value _nextDesc (join "" buf))) = true.
Proof. intros [_ B]. cbn [value with_value]. now apply join_free. Qed.

Lemma maybe_append_free buf desc :
  clean buf desc ->
  quote_free
    (value match buf with
           | [] => desc
           | _ :: _ => append_token68 desc buf
           end) = true.
Proof.
  intro C. destruct buf; [now destruct C | now apply append_free].
Qed.

Lemma clean_set h buf desc key v d :
  clean buf desc -> _setDescParam h desc key v = Ok d -> clean [] d.
Proof.
  intros [V _] S. split; [|constructor].
  now rewrite (_setDescParam_value _ _ _ _ _ S).
Qed.

Lemma token_free token :
  _isQuotedString token = true \/ quote_free token = true ->
  _isQuotedString token = false ->
  quote_free token = true.
Proof. intros [Q | Q] N; [congruence | exact Q]. Qed.

Lemma eqb_free token lit :
  String.eqb token lit = true -> quote_free lit = true ->
  quote_free token = true.
Proof. intros E Q. apply String.eqb_eq in E. now subst. Qed.

Ltac split_tests :=
  repeat match goal with
    | H : (if ?b then _ else _) = Yield _ _ |- _ => destruct b eqn:?
    | H : orb _ _ = false |- _ => apply orb_false_iff in H; destruct H
    end.

Ltac free_value :=
  first [ eapply clean_value_free; eassumption
        | eapply append_free; eassumption
        | eapply joined_free; eassumption
        | eapply maybe_append_free; eassumption
        | reflexivity ].

Ltac free_token :=
  first [ eapply token_free; eassumption
        | eapply eqb_free; [eassumption | reflexivity] ].

Ltac clean_state :=
  first [ eassumption
        | apply clean_next
        | eapply clean_set; eassumption
        | apply clean_push; [eassumption | free_token]
        | apply clean_value; [eassumption | free_token]
        | split; [free_value | first [constructor | repeat constructor; free_token]] ].

(** The first descriptor the credentials loop yields carries a
    lowercased scheme. *)
Lemma credentials_first_yield h tokens :
  forall state buf desc d rest,
    tokens_ok tokens ->
    clean buf desc ->
    credentials_loop h state buf desc tokens = Yield d rest ->
    exists x, getOwn "scheme" (params_of d) = Some (toLowerCase x).
Proof.
  induction tokens as [|token tokens' IH|e];
    intros state buf desc d rest T C H.
  - destruct state; cbn [credentials_loop] in H;
      unfold incomplete, unexpected in H; try discriminate;
      split_tests;
      (unfold yield_split in H;
       match type of H with
       | match split_scheme_and_token68 h ?D with _ => _ end = _ =>
           destruct (split_scheme_and_token68 h D) eqn:S;
           [injection H as <- _ | discriminate];
           eapply split_stores_lowercased; [|exact S]; free_value
       end).
  - destruct T as [Tk T].
    destruct state; cbn [credentials_loop] in H;
      unfold incomplete, unexpected in H;
      split_tests; try discriminate;
      first
        [ (* the loop goes on *)
          eapply IH; [exact T | | exact H]; clean_state
        | (* a parameter is set, then the loop goes on *)
          unfold and_then in H;
          match type of H with
          | match ?S with _ => _ end = _ =>
              destruct S eqn:SP; [|discriminate];
              eapply IH; [exact T | | exact H]; clean_state
          end
        | (* a descriptor is yielded *)
          unfold yield_split in H;
          match type of H with
          | match split_scheme_and_token68 h ?D with _ => _ end = _ =>
              destruct (split_scheme_and_token68 h D) eqn:S;
              [injection H as <- _ | discriminate];
              eapply split_stores_lowercased; [|exact S]; free_value
          end ].
  - discriminate.
Qed.

(** So does the only descriptor of an [authorization] header. *)
Lemma authorization_scheme_lowercased h line descs :
  parseHeader h line = Ok ("authorization", descs) ->
  exists d ps x,
    descs = [d] /\ params d = Some ps
    /\ getOwn "scheme" ps = Some (toLowerCase x).
Proof.
  unfold parseHeader.
  destruct (split_header_line "" (header_line_tokens line))
    as [[name v]|]; [|discriminate].
  destruct (String.eqb name ""); [discriminate|].
  destruct (spread (parseHeaderValue h name v)) as [l|] eqn:S; [|discriminate].
  intro H. injection H as -> ->.
  change (parseHeaderValue h "authorization" v)
    with (_parseCredentialsHeader h (substr_iter v)) in S.
  unfold _parseCredentialsHeader, _parseCredentialsListHeader in S.
  destruct (credentials_loop h WAIT_VALUE [] _nextDesc
              (_tokenizeCredentialsList (substr_iter v)))
    as [|d rest|e] eqn:L; try discriminate.
  simpl in S. injection S as <-.
  destruct (credentials_first_yield h _ _ _ _ _ _
              (credentials_tokens_ok _) clean_next L) as [x G].
  unfold params_of in G. destruct (params d) as [ps|] eqn:P.
  - exists d, ps, x. auto.
  - discriminate G.
Qed.

End CredentialsFacts.

(** ** PatternMap: maps built by [set], and [delete] *)

Module PatternMapMore.
Import PatternMap PatternMapFacts.

Section Built.
Context {T : Type}.
Implicit Types (n c : Node T) (d : list (Key * Node T)) (v : option T).

Lemma exclusive_eq (o : option T) d :
  exclusive (MkNode o d)
  = negb (has wordwise_wildcard (MkNode o d) && has wildcard (MkNode o d))
    && forallb (fun kc => exclusive (snd kc)) d.
Proof.
  simpl. f_equal.
  induction d as [|[k c] r IH]; simpl; [reflexivity|]. now rewrite IH.
Qed.

Lemma exclusive_node n :
  exclusive n = true ->
  has wordwise_wildcard n = true -> has wildcard n = false.
Proof.
  destruct n as [o d]. rewrite exclusive_eq. intros E H.
  apply andb_true_iff in E as [E _]. rewrite H in E. simpl in E.
  now destruct (has wildcard (MkNode o d)).
Qed.

Lemma exclusive_lookup d key c :
  forallb (fun kc => exclusive (snd kc)) d = true ->
  lookup key d = Some c -> exclusive c = true.
Proof.
  induction d as [|[k c'] r IH]; simpl; [discriminate|].
  intros A L. apply andb_true_iff in A as [A1 A2].
  destruct (Key_eqb k key); [congruence | exact (IH A2 L)].
Qed.

Lemma exclusive_child n key c :
  exclusive n = true -> get1 key n = Some c -> exclusive c = true.
Proof.
  destruct n as [o d]. rewrite exclusive_eq. intros E G.
  apply andb_true_iff in E as [_ E]. exact (exclusive_lookup _ _ _ E G).
Qed.

Lemma exclusive_put d key c :
  forallb (fun kc => exclusive (snd kc)) d = true ->
  exclusive c = true ->
  forallb (fun kc => exclusive (snd kc)) (put key c d) = true.
Proof.
  intros A C. induction d as [|[k c'] r IH]; simpl.
  - now rewrite C.
  - simpl in A. apply andb_true_iff in A as [A1 A2].
    destruct (Key_eqb k key); simpl.
    + now rewrite C, A2.
    + now rewrite A1, IH.
Qed.

Lemma exclusive_set1 n key c :
  exclusive n = true -> exclusive c = true ->
  has wordwise_wildcard (set1 key c n) && has wildcard (set1 key c n) = false ->
  exclusive (set1 key c n) = true.
Proof.
  destruct n as [o d]. intros E C H. unfold set1 in *. simpl value in *.
  simpl descendants in *. rewrite exclusive_eq in E |- *.
  apply andb_true_iff in E as [_ E]. rewrite H. simpl.
  now apply exclusive_put.
Qed.

Lemma exclusive_update n key (f : Node T -> Node T) :
  exclusive n = true ->
  (forall c, exclusive c = true -> exclusive (f c) = true) ->
  exclusive (update key f n) = true.
Proof.
  intros E F. unfold update. destruct (get1 key n) as [c|] eqn:G; [|exact E].
  apply exclusive_set1; [exact E | apply F; exact (exclusive_child _ _ _ E G)|].
  assert (U : forall k, has k (set1 key (f c) n) = has k n).
  { intro k. rewrite has_set1. destruct (Key_eqb key k) eqn:K; [|reflexivity].
    apply Key_eqb_eq in K. subst k. simpl. symmetry. apply has_get1. eauto. }
  rewrite !U. destruct (has wordwise_wildcard n) eqn:W; [|reflexivity].
  now rewrite (exclusive_node _ E W).
Qed.

Lemma exclusive_set_value v n :
  exclusive n = true -> exclusive (set_value v n) = true.
Proof.
  destruct n as [o d]. unfold set_value. simpl descendants.
  rewrite !exclusive_eq. unfold has. simpl. trivial.
Qed.

Lemma exclusive_new : exclusive (@new_Node T) = true.
Proof. reflexivity. Qed.

(** [set] keeps the two wildcard children apart. *)
Lemma exclusive_set_walk keys : forall v n,
  exclusive n = true -> exclusive (set_walk keys v n) = true.
Proof.
  induction keys as [|key rest IH]; intros v n E; simpl.
  - now apply exclusive_set_value.
  - destruct (has wordwise_wildcard n) eqn:W.
    { apply exclusive_update; [exact E | intros c C; now apply IH]. }
    destruct (has wildcard n) eqn:A.
    { apply exclusive_update; [exact E|].
      intros c C. now apply exclusive_set_value. }
    destruct (has key n) eqn:K.
    { apply exclusive_update; [exact E | intros c C; now apply IH]. }
    apply exclusive_set1; [exact E | apply IH; apply exclusive_new|].
    rewrite !has_set1, W, A, !orb_false_r.
    destruct key; reflexivity.
Qed.

Lemma exclusive_set p v (m m' : PatternMap T) :
  exclusive m = true -> set p v m = Ok m' -> exclusive m' = true.
Proof.
  unfold set. intros E.
  destruct (negb _); [discriminate|].
  destruct (getKeys p) as [keys|e]; [|discriminate].
  intro H. injection H as <-. now apply exclusive_set_walk.
Qed.

Lemma exclusive_sets calls : forall (m m' : PatternMap T),
  exclusive m = true -> sets calls m = Ok m' -> exclusive m' = true.
Proof.
  induction calls as [|[p v] rest IH]; intros m m' E; simpl.
  - intro H. now injection H as <-.
  - destruct (set p v m) as [m1|e] eqn:S; [|discriminate].
    apply IH. exact (exclusive_set _ _ _ _ E S).
Qed.

(** In such a map [#getNode] ends where [set] has just written. *)
Lemma value_at_set_walk_exclusive keys : forall v n,
  exclusive n = true -> wildcard_last keys = true ->
  value_at keys (set_walk keys v n) = v.
Proof.
  induction keys as [|key rest IH]; intros v n E W; [reflexivity|].
  pose proof (wildcard_last_tail _ _ W) as W'.
  unfold value_at. simpl.
  destruct (has wordwise_wildcard n) eqn:HW.
  { pose proof (exclusive_node _ E HW) as HA.
    rewrite !has_update, HA, HW.
    unfold update. apply has_get1 in HW as [c G]. rewrite G.
    rewrite get1_set1_same.
    apply (IH v c (exclusive_child _ _ _ E G) W'). }
  destruct (has wildcard n) eqn:HA.
  { rewrite !has_update, HA.
    unfold update. apply has_get1 in HA as [c G]. rewrite G.
    now rewrite get1_set1_same. }
  destruct (has key n) eqn:HK.
  { rewrite !has_update, HA, HW.
    unfold update. apply has_get1 in HK as [c G]. rewrite G.
    rewrite get1_set1_same.
    apply (IH v c (exclusive_child _ _ _ E G) W'). }
  rewrite !has_set1, HA, HW, !orb_false_r.
  destruct key as [s| |]; simpl.
  - rewrite get1_set1_same. apply (IH v _ exclusive_new W').
  - rewrite get1_set1_same. apply (IH v _ exclusive_new W').
  - rewrite get1_set1_same. apply wildcard_last_head in W. now subst rest.
Qed.

(** ... and finds a node for every prefix of the keys. *)
Lemma getNode_walk_prefix kq : forall rest v n,
  exclusive n = true -> wildcard_last (kq ++ rest) = true ->
  getNode_walk kq (set_walk (kq ++ rest) v n) <> None.
Proof.
  induction kq as [|key kq IH]; intros rest v n E W; [discriminate|].
  pose proof (wildcard_last_tail _ _ W) as W'.
  cbn [app set_walk getNode_walk].
  destruct (has wordwise_wildcard n) eqn:HW.
  { pose proof (exclusive_node _ E HW) as HA.
    rewrite !has_update, HA, HW.
    unfold update. apply has_get1 in HW as [c G]. rewrite G.
    rewrite get1_set1_same.
    apply (IH rest v c (exclusive_child _ _ _ E G) W'). }
  destruct (has wildcard n) eqn:HA.
  { rewrite !has_update, HA.
    unfold update. apply has_get1 in HA as [c G]. rewrite G.
    now rewrite get1_set1_same. }
  destruct (has key n) eqn:HK.
  { rewrite !has_update, HA, HW.
    unfold update. apply has_get1 in HK as [c G]. rewrite G.
    rewrite get1_set1_same.
    apply (IH rest v c (exclusive_child _ _ _ E G) W'). }
  rewrite !has_set1, HA, HW, !orb_false_r.
  destruct key as [s| |]; simpl.
  - rewrite get1_set1_same. apply (IH rest v _ exclusive_new W').
  - rewrite get1_set1_same. apply (IH rest v _ exclusive_new W').
  - now rewrite get1_set1_same.
Qed.

Lemma put_put key c c' d : put key c (put key c' d) = put key c d.
Proof.
  induction d as [|[k c0] r IH]; simpl.
  - now rewrite Key_eqb_refl.
  - destruct (Key_eqb k key) eqn:E; simpl.
    + now rewrite Key_eqb_refl.
    + now rewrite E, IH.
Qed.

Lemma set1_set1 key c c' n : set1 key c (set1 key c' n) = set1 key c n.
Proof. unfold set1. simpl. now rewrite put_put. Qed.

Lemma update_set1 key (f : Node T -> Node T) c n :
  update key f (set1 key c n) = set1 key (f c) n.
Proof. unfold update. now rewrite get1_set1_same, set1_set1. Qed.

Lemma update_update key (f g h : Node T -> Node T) n :
  (forall c, f (g c) = h c) ->
  update key f (update key g n) = update key h n.
Proof.
  intro H. unfold update at 2 3. destruct (get1 key n) as [c|] eqn:G.
  - now rewrite update_set1, H.
  - unfold update. now rewrite G.
Qed.

(** A second [set] of the same keys goes the same way. *)
Lemma set_walk_twice keys : forall v w n,
  wildcard_last keys = true ->
  set_walk keys v (set_walk keys w n) = set_walk keys v n.
Proof.
  induction keys as [|key rest IH]; intros v w n W; [reflexivity|].
  pose proof (wildcard_last_tail _ _ W) as W'.
  simpl.
  destruct (has wordwise_wildcard n) eqn:HW.
  { rewrite has_update, HW. apply update_update. intro c. now apply IH. }
  destruct (has wildcard n) eqn:HA.
  { rewrite !has_update, HW, HA. now apply update_update. }
  destruct (has key n) eqn:HK.
  { rewrite !has_update, HW, HA, HK. apply update_update.
    intro c. now apply IH. }
  rewrite !has_set1, HW, HA, HK, !orb_false_r, Key_eqb_refl.
  destruct key as [s| |]; simpl.
  - now rewrite update_set1, IH.
  - now rewrite update_set1, IH.
  - apply wildcard_last_head in W. subst rest. now rewrite update_set1.
Qed.

(** On a fresh map the nodes above the one written hold no value. *)
Lemma value_at_inner kq : forall rest v,
  rest <> [] -> wildcard_last (kq ++ rest) = true ->
  value_at kq (set_walk (kq ++ rest) v (@new_Node T)) = None.
Proof.
  induction kq as [|key kq IH]; intros rest v R W.
  - destruct rest as [|k r]; [congruence|].
    unfold value_at. cbn [app getNode_walk].
    now rewrite value_set_walk_cons.
  - pose proof (wildcard_last_tail _ _ W) as W'.
    assert (E : forall k, has k (@new_Node T) = false) by reflexivity.
    unfold value_at. cbn [app set_walk getNode_walk].
    rewrite !E, !has_set1, !E, !orb_false_r.
    destruct key as [s| |]; cbn [Key_eqb].
    + rewrite get1_set1_same. now apply IH.
    + rewrite get1_set1_same. now apply IH.
    + apply wildcard_last_head in W. destruct kq; simpl in W; congruence.
Qed.

Lemma lookup_delete_key key key' d :
  lookup key' (delete_key key d)
  = if Key_eqb key key' then None else lookup key' d.
Proof.
  induction d as [|[k c] r IH]; simpl.
  - now destruct (Key_eqb key key').
  - destruct (Key_eqb k key) eqn:E.
    + rewrite IH. apply Key_eqb_eq in E. subst k.
      now destruct (Key_eqb key key').
    + simpl. rewrite IH. destruct (Key_eqb k key') eqn:E'; [|reflexivity].
      apply Key_eqb_eq in E'. subst k.
      destruct (Key_eqb key key') eqn:E''; [|reflexivity].
      apply Key_eqb_eq in E''. subst key'.
      now rewrite Key_eqb_refl in E.
Qed.

Lemma has_delete_key key key' n :
  has key' (MkNode (value n) (delete_key key (descendants n)))
  = negb (Key_eqb key key') && has key' n.
Proof.
  unfold has. simpl. rewrite lookup_delete_key.
  now destruct (Key_eqb key key').
Qed.

(** [getNode_path] is the way [#getNode] takes. *)
Lemma getNode_path_walk keys : forall n,
  getNode_walk keys n
  = match getNode_path keys n with
    | Some path => get_keys path n
    | None => None
    end.
Proof.
  induction keys as [|key rest IH]; intro n; [reflexivity|].
  cbn [getNode_walk getNode_path]. destruct (has wildcard n).
  { destruct (get1 wildcard n) eqn:G; [|reflexivity]. simpl. now rewrite G. }
  cbv zeta.
  destruct (has wordwise_wildcard n).
  - destruct (get1 wordwise_wildcard n) as [c|] eqn:G; [|reflexivity].
    rewrite IH. destruct (getNode_path rest c); [|reflexivity].
    simpl. now rewrite G.
  - destruct (get1 key n) as [c|] eqn:G; [|reflexivity].
    rewrite IH. destruct (getNode_path rest c); [|reflexivity].
    simpl. now rewrite G.
Qed.

Lemma getNode_path_found keys : forall n path,
  getNode_path keys n = Some path -> getNode_walk keys n <> None.
Proof.
  induction keys as [|key rest IH]; intros n path; [discriminate|].
  simpl. destruct (has wildcard n).
  { destruct (get1 wildcard n); [discriminate | discriminate]. }
  destruct (has wordwise_wildcard n).
  - destruct (get1 wordwise_wildcard n) as [c|]; [|discriminate].
    destruct (getNode_path rest c) eqn:P; [|discriminate].
    intros _. exact (IH _ _ P).
  - destruct (get1 key n) as [c|]; [|discriminate].
    destruct (getNode_path rest c) eqn:P; [|discriminate].
    intros _. exact (IH _ _ P).
Qed.

Lemma getNode_path_missing keys n :
  getNode_path keys n = None -> getNode_walk keys n = None.
Proof. intro H. now rewrite getNode_path_walk, H. Qed.

(** A pattern resolved through its own keys is found along them. *)
Lemma getNode_path_own keys : forall n,
  wildcard_last keys = true -> resolves_own keys n = true ->
  getNode_path keys n = Some keys.
Proof.
  induction keys as [|key rest IH]; intros n W R; [reflexivity|].
  rewrite resolves_own_cons in R. apply andb_true_iff in R as [O R].
  destruct (get1 key n) as [c|] eqn:G; [|discriminate].
  unfold own_ok in O. apply andb_true_iff in O as [O1 O2].
  simpl. destruct (has wildcard n) eqn:HA.
  { simpl in O2. apply Key_eqb_eq in O2. subst key.
    apply wildcard_last_head in W. subst rest. now rewrite G. }
  destruct (has wordwise_wildcard n) eqn:HW.
  { simpl in O1. apply Key_eqb_eq in O1. subst key. rewrite G.
    now rewrite (IH c (wildcard_last_tail _ _ W) R). }
  rewrite G. now rewrite (IH c (wildcard_last_tail _ _ W) R).
Qed.

(** Without its last edge, nothing is found along the keys or beyond. *)
Lemma getNode_walk_removed keys : forall more n,
  keys <> [] -> wildcard_last (keys ++ more) = true ->
  resolves_own keys n = true ->
  getNode_walk (keys ++ more) (remove_at keys n) = None.
Proof.
  induction keys as [|key rest IH]; intros more n N W R; [congruence|].
  rewrite resolves_own_cons in R. apply andb_true_iff in R as [O R].
  destruct (get1 key n) as [c|] eqn:G; [|discriminate].
  unfold own_ok in O. apply andb_true_iff in O as [O1 O2].
  destruct rest as [|key2 rest].
  - cbn [app remove_at getNode_walk]. rewrite !has_delete_key.
    assert (A : negb (Key_eqb key wildcard) && has wildcard n = false).
    { destruct (has wildcard n); [|apply andb_false_r].
      simpl in O2. now rewrite O2. }
    assert (B : negb (Key_eqb key wordwise_wildcard)
                && has wordwise_wildcard n = false).
    { destruct (has wordwise_wildcard n); [|apply andb_false_r].
      simpl in O1. now rewrite O1. }
    rewrite A, B. unfold get1. simpl. rewrite lookup_delete_key.
    now rewrite Key_eqb_refl.
  - assert (HA : has wildcard n = false).
    { destruct (has wildcard n); [|reflexivity].
      simpl in O2. apply Key_eqb_eq in O2. subst key.
      apply wildcard_last_head in W. discriminate. }
    change (remove_at (key :: key2 :: rest) n)
      with (update key (remove_at (key2 :: rest)) n).
    cbn [app getNode_walk]. rewrite !has_update, HA.
    unfold update. rewrite G.
    assert (E : get1 (if has wordwise_wildcard n
                      then wordwise_wildcard else key)
                  (set1 key (remove_at (key2 :: rest) c) n)
                = Some (remove_at (key2 :: rest) c)).
    { destruct (has wordwise_wildcard n).
      - simpl in O1. apply Key_eqb_eq in O1. subst key.
        apply get1_set1_same.
      - apply get1_set1_same. }
    assert (F : getNode_walk ((key2 :: rest) ++ more)
                  (remove_at (key2 :: rest) c) = None).
    { apply IH; [discriminate | exact (wildcard_last_tail _ _ W) | exact R]. }
    destruct (has wordwise_wildcard n); rewrite E; exact F.
Qed.

End Built.

Lemma keys_from_names forward rest : forall rest' prev prev',
  token_key prev = token_key prev' ->
  map token_key rest = map token_key rest' ->
  keys_from forward prev rest = keys_from forward prev' rest'.
Proof.
  induction rest as [|t r IH]; intros [|t' r'] prev prev' P M;
    try discriminate; simpl.
  - now rewrite P.
  - injection M as M1 M2. rewrite P. f_equal. now apply IH.
Qed.

Lemma getKeys_names p q :
  Pattern.kind p = Pattern.kind q ->
  map token_key (Pattern.tokens p) = map token_key (Pattern.tokens q) ->
  getKeys p = getKeys q.
Proof.
  unfold getKeys. intros K M. rewrite K.
  destruct (Pattern.tokens p) as [|a r], (Pattern.tokens q) as [|a' r'];
    try discriminate; [reflexivity|].
  injection M as M1 M2. f_equal. now apply keys_from_names.
Qed.

Lemma getKeys_nonempty p keys : getKeys p = Ok keys -> keys <> [].
Proof.
  unfold getKeys. destruct (Pattern.tokens p) as [|prev rest].
  - destruct (String.eqb _ _); [|discriminate]. intro H. injection H as <-.
    discriminate.
  - intro H. injection H as <-. destruct rest; simpl.
    + destruct (String.eqb _ _); discriminate.
    + discriminate.
Qed.

Lemma set_keys {T} p v (m m' : PatternMap T) :
  set p v m = Ok m' ->
  exists keys, getKeys p = Ok keys /\ wildcard_last keys = true
               /\ m' = set_walk keys v m.
Proof.
  unfold set. destruct (negb _); [discriminate|].
  destruct (getKeys p) as [keys|e] eqn:K; [|discriminate].
  intro H. injection H as <-. exists keys.
  split; [reflexivity|]. split; [|reflexivity].
  exact (getKeys_wildcard_last _ _ K).
Qed.

End PatternMapMore.

(** ** PatternMap: two [set] calls and the walks of [get] *)

Module PatternMapWalks.
Import PatternMap PatternMapFacts PatternMapMore.

Section TwoSets.
Context {T : Type}.
Implicit Types (n c : Node T) (v w : option T).

Lemma get1_has key n c : get1 key n = Some c -> has key n = true.
Proof. intro G. apply has_get1. now exists c. Qed.

Lemma has_false_get1 key n : has key n = false -> get1 key n = None.
Proof.
  unfold has, get1. now destruct (lookup key (descendants n)).
Qed.

(** The three ways [set] takes a step. *)
Lemma set_walk_ww key rest v n c :
  get1 wordwise_wildcard n = Some c ->
  set_walk (key :: rest) v n
  = set1 wordwise_wildcard (set_walk rest v c) n.
Proof.
  intro G. cbn [set_walk]. rewrite (get1_has _ _ _ G).
  unfold update. now rewrite G.
Qed.

Lemma set_walk_wild key rest v n c :
  has wordwise_wildcard n = false ->
  get1 wildcard n = Some c ->
  set_walk (key :: rest) v n = set1 wildcard (set_value v c) n.
Proof.
  intros W G. cbn [set_walk]. rewrite W, (get1_has _ _ _ G).
  unfold update. now rewrite G.
Qed.

Lemma set_walk_plain key rest v n :
  has wordwise_wildcard n = false ->
  has wildcard n = false ->
  set_walk (key :: rest) v n
  = set1 key (set_walk rest v (child_or_new key n)) n.
Proof.
  intros W D. cbn [set_walk]. rewrite W, D.
  unfold child_or_new, update, has, get1.
  now destruct (lookup key (descendants n)).
Qed.

(** The three ways [#getNode] takes a step. *)
Lemma path_wild key rest n :
  has wildcard n = true ->
  getNode_path (key :: rest) n = Some [wildcard].
Proof.
  intro D. cbn [getNode_path]. rewrite D.
  apply has_get1 in D as [c ->]. reflexivity.
Qed.

Lemma path_ww key rest n c :
  has wildcard n = false ->
  get1 wordwise_wildcard n = Some c ->
  getNode_path (key :: rest) n
  = option_map (cons wordwise_wildcard) (getNode_path rest c).
Proof.
  intros D G. cbn [getNode_path]. rewrite D. cbv zeta.
  rewrite (get1_has _ _ _ G), G. reflexivity.
Qed.

Lemma path_plain key rest n :
  has wildcard n = false ->
  has wordwise_wildcard n = false ->
  getNode_path (key :: rest) n
  = match get1 key n with
    | Some c => option_map (cons key) (getNode_path rest c)
    | None => None
    end.
Proof.
  intros D W. cbn [getNode_path]. rewrite D. cbv zeta. rewrite W.
  reflexivity.
Qed.

Lemma value_at_wild key rest n c :
  get1 wildcard n = Some c ->
  value_at (key :: rest) n = value c.
Proof.
  intro G. unfold value_at. cbn [getNode_walk].
  now rewrite (get1_has _ _ _ G), G.
Qed.

Lemma value_at_ww key rest n c :
  has wildcard n = false ->
  get1 wordwise_wildcard n = Some c ->
  value_at (key :: rest) n = value_at rest c.
Proof.
  intros D G. unfold value_at. cbn [getNode_walk].
  now rewrite D, (get1_has _ _ _ G), G.
Qed.

Lemma value_at_plain key rest n :
  has wildcard n = false ->
  has wordwise_wildcard n = false ->
  value_at (key :: rest) n
  = match get1 key n with
    | Some c => value_at rest c
    | None => None
    end.
Proof.
  intros D W. unfold value_at. cbn [getNode_walk]. rewrite D, W.
  now destruct (get1 key n).
Qed.

Lemma exclusive_child_or_new key n :
  exclusive n = true -> exclusive (child_or_new key n) = true.
Proof.
  intro E. unfold child_or_new. destruct (get1 key n) as [c|] eqn:G.
  - exact (exclusive_child _ _ _ E G).
  - apply exclusive_new.
Qed.

(** [#getNode] finds the pattern just set. *)
Lemma path_after_set keys v n :
  exclusive n = true -> wildcard_last keys = true ->
  getNode_path keys (set_walk keys v n) <> None.
Proof.
  intros E W P.
  apply getNode_path_missing in P.
  apply (getNode_walk_prefix keys [] v n E); [now rewrite app_nil_r|].
  now rewrite app_nil_r.
Qed.

Lemma option_cons_inj (k : Key) (a b : option (list Key)) :
  option_map (cons k) a = option_map (cons k) b -> a = b.
Proof.
  destruct a, b; simpl; intro H; try discriminate; [|reflexivity].
  now injection H as ->.
Qed.

(** Below a node that [set] created, a walk ends at the node of the
    pattern set, at a node without a value, or nowhere. *)
Lemma value_at_chain kq : forall keys w,
  value_at keys (set_walk kq w (@new_Node T)) = w
  \/ value_at keys (set_walk kq w (@new_Node T)) = None.
Proof.
  induction kq as [|k' rq IH]; intros keys w.
  - destruct keys as [|k r]; [now left | now right].
  - rewrite set_walk_plain by reflexivity.
    change (child_or_new k' (@new_Node T)) with (@new_Node T).
    destruct keys as [|k r]; [now right|].
    set (chain := set_walk rq w new_Node).
    destruct (Key_eqb k' wildcard) eqn:D.
    + apply Key_eqb_eq in D. subst k'.
      rewrite (value_at_wild k r _ chain) by apply get1_set1_same.
      exact (IH [] w).
    + assert (Dn : has wildcard (set1 k' chain new_Node) = false).
      { rewrite has_set1, D. reflexivity. }
      destruct (Key_eqb k' wordwise_wildcard) eqn:W.
      * apply Key_eqb_eq in W. subst k'.
        rewrite (value_at_ww k r _ chain Dn) by apply get1_set1_same.
        exact (IH r w).
      * rewrite value_at_plain;
          [|exact Dn | rewrite has_set1, W; reflexivity].
        destruct (Key_eqb k' k) eqn:K.
        -- apply Key_eqb_eq in K. subst k'.
           rewrite get1_set1_same. exact (IH r w).
        -- apply Key_eqb_neq in K.
           rewrite get1_set1_other by congruence. now right.
Qed.

(** Two [set] calls, and [get] of the first pattern afterwards: when the
    second call has left the walk of the first pattern as it was and
    the walk of the second pattern goes elsewhere, the value is the
    first one; when the second call has turned the walk of the first
    pattern, it ends at a node the second call created. *)
Lemma two_sets kp : forall kq v w n,
  exclusive n = true ->
  wildcard_last kp = true ->
  wildcard_last kq = true ->
  (getNode_path kp (set_walk kq w (set_walk kp v n))
   = getNode_path kp (set_walk kp v n) ->
   getNode_path kp (set_walk kq w (set_walk kp v n))
   <> getNode_path kq (set_walk kq w (set_walk kp v n)) ->
   value_at kp (set_walk kq w (set_walk kp v n)) = v)
  /\ (getNode_path kp (set_walk kq w (set_walk kp v n))
      <> getNode_path kp (set_walk kp v n) ->
      value_at kp (set_walk kq w (set_walk kp v n)) = w
      \/ value_at kp (set_walk kq w (set_walk kp v n)) = None).
Proof.
  induction kp as [|k rp IH]; intros kq v w n E Wp Wq.
  { split.
    - intros _ Hne. destruct kq as [|k' rq].
      + exfalso. now apply Hne.
      + unfold value_at. cbn [getNode_walk].
        now rewrite value_set_walk_cons.
    - intro Hne. exfalso. now apply Hne. }
  destruct kq as [|k' rq].
  { change (set_walk [] w (set_walk (k :: rp) v n))
      with (set_value w (set_walk (k :: rp) v n)).
    assert (P : getNode_path (k :: rp) (set_value w (set_walk (k :: rp) v n))
                = getNode_path (k :: rp) (set_walk (k :: rp) v n))
      by reflexivity.
    split.
    - intros _ _. unfold value_at. rewrite getNode_walk_set_value.
      now apply value_at_set_walk_exclusive.
    - intro Hne. exfalso. now apply Hne. }
  pose proof (wildcard_last_tail _ _ Wp) as Wp'.
  pose proof (wildcard_last_tail _ _ Wq) as Wq'.
  (* both walks go along the wordwise wildcard *)
  assert (Along : forall c0,
             exclusive c0 = true ->
             has wildcard n = false ->
             let n1 := set1 wordwise_wildcard (set_walk rp v c0) n in
             (getNode_path (k :: rp) (set_walk (k' :: rq) w n1)
              = getNode_path (k :: rp) n1 ->
              getNode_path (k :: rp) (set_walk (k' :: rq) w n1)
              <> getNode_path (k' :: rq) (set_walk (k' :: rq) w n1) ->
              value_at (k :: rp) (set_walk (k' :: rq) w n1) = v)
             /\ (getNode_path (k :: rp) (set_walk (k' :: rq) w n1)
                 <> getNode_path (k :: rp) n1 ->
                 value_at (k :: rp) (set_walk (k' :: rq) w n1) = w
                 \/ value_at (k :: rp) (set_walk (k' :: rq) w n1) = None)).
  { intros c0 E0 D n1. subst n1.
    set (c1 := set_walk rp v c0).
    rewrite (set_walk_ww k' rq w _ c1) by apply get1_set1_same.
    rewrite set1_set1.
    set (c2 := set_walk rq w c1).
    assert (D1 : has wildcard (set1 wordwise_wildcard c1 n) = false)
      by now rewrite has_set1.
    assert (D2 : has wildcard (set1 wordwise_wildcard c2 n) = false)
      by now rewrite has_set1.
    rewrite (path_ww k rp _ c2 D2) by apply get1_set1_same.
    rewrite (path_ww k rp _ c1 D1) by apply get1_set1_same.
    rewrite (path_ww k' rq _ c2 D2) by apply get1_set1_same.
    rewrite (value_at_ww k rp _ c2 D2) by apply get1_set1_same.
    destruct (IH rq v w c0 E0 Wp' Wq') as [I1 I2]. fold c1 c2 in I1, I2.
    split.
    - intros Hs Hne. apply I1; [now apply option_cons_inj in Hs|].
      intro X. apply Hne. now rewrite X.
    - intro Hne. apply I2. intro X. apply Hne. now rewrite X. }
  (* both walks end at the wildcard *)
  assert (Ends : forall c1,
             has wordwise_wildcard n = false ->
             let n1 := set1 wildcard c1 n in
             getNode_path (k :: rp) (set_walk (k' :: rq) w n1)
             = Some [wildcard]
             /\ getNode_path (k :: rp) n1 = Some [wildcard]
             /\ getNode_path (k' :: rq) (set_walk (k' :: rq) w n1)
                = Some [wildcard]).
  { intros c1 W n1. subst n1.
    rewrite (set_walk_wild k' rq w _ c1);
      [|now rewrite has_set1 | apply get1_set1_same].
    rewrite set1_set1.
    repeat split; apply path_wild; rewrite has_set1; reflexivity. }
  destruct (has wordwise_wildcard n) eqn:Hw.
  { pose proof (exclusive_node n E Hw) as Hd.
    apply has_get1 in Hw as [c G].
    rewrite (set_walk_ww k rp v n c G).
    exact (Along c (exclusive_child _ _ _ E G) Hd). }
  destruct (has wildcard n) eqn:Hd.
  { apply has_get1 in Hd as [c G].
    rewrite (set_walk_wild k rp v n c Hw G).
    destruct (Ends (set_value v c) eq_refl) as (P2 & P1 & Q2).
    rewrite P2, P1, Q2.
    split; [intros _ H | intro H]; exfalso; now apply H. }
  rewrite (set_walk_plain k rp v n Hw Hd).
  pose proof (exclusive_child_or_new k n E) as E0.
  destruct k as [s| |].
  - (* a literal key *)
    set (c0 := child_or_new (Lit s) n) in *.
    set (c1 := set_walk rp v c0).
    assert (W1 : has wordwise_wildcard (set1 (Lit s) c1 n) = false)
      by now rewrite has_set1.
    assert (D1 : has wildcard (set1 (Lit s) c1 n) = false)
      by now rewrite has_set1.
    rewrite (set_walk_plain k' rq w _ W1 D1).
    rewrite (path_plain (Lit s) rp (set1 (Lit s) c1 n) D1 W1).
    rewrite get1_set1_same.
    assert (Found : getNode_path rp c1 <> None)
      by now apply path_after_set.
    destruct (Key_eqb (Lit s) k') eqn:K.
    + apply Key_eqb_eq in K. subst k'.
      rewrite child_or_new_set1_same, set1_set1. fold c1.
      set (c2 := set_walk rq w c1).
      assert (W2 : has wordwise_wildcard (set1 (Lit s) c2 n) = false)
        by now rewrite has_set1.
      assert (D2 : has wildcard (set1 (Lit s) c2 n) = false)
        by now rewrite has_set1.
      rewrite !(path_plain _ _ (set1 (Lit s) c2 n) D2 W2).
      rewrite (value_at_plain _ _ (set1 (Lit s) c2 n) D2 W2).
      rewrite get1_set1_same.
      destruct (IH rq v w c0 E0 Wp' Wq') as [I1 I2]. fold c1 c2 in I1, I2.
      split.
      * intros Hs Hne. apply I1; [now apply option_cons_inj in Hs|].
        intro X. apply Hne. now rewrite X.
      * intro Hne. apply I2. intro X. apply Hne. now rewrite X.
    + apply Key_eqb_neq in K.
      assert (C : child_or_new k' (set1 (Lit s) c1 n) = child_or_new k' n).
      { unfold child_or_new. rewrite get1_set1_other by congruence.
        reflexivity. }
      rewrite C.
      set (sub := set_walk rq w (child_or_new k' n)).
      set (n1 := set1 (Lit s) c1 n) in *.
      destruct k' as [s'| |].
      * assert (W2 : has wordwise_wildcard (set1 (Lit s') sub n1) = false)
          by now rewrite has_set1.
        assert (D2 : has wildcard (set1 (Lit s') sub n1) = false)
          by now rewrite has_set1.
        assert (G2 : get1 (Lit s) (set1 (Lit s') sub n1) = Some c1).
        { rewrite get1_set1_other by congruence. apply get1_set1_same. }
        rewrite (path_plain (Lit s) rp _ D2 W2), G2.
        rewrite (value_at_plain (Lit s) rp _ D2 W2), G2.
        split.
        -- intros _ _. now apply value_at_set_walk_exclusive.
        -- intro Hne. exfalso. now apply Hne.
      * assert (N : child_or_new wordwise_wildcard n = new_Node).
        { unfold child_or_new. now rewrite (has_false_get1 _ _ Hw). }
        subst sub. rewrite N.
        set (chain := set_walk rq w new_Node).
        assert (D2 : has wildcard (set1 wordwise_wildcard chain n1) = false)
          by now rewrite has_set1.
        rewrite (path_ww (Lit s) rp _ chain D2) by apply get1_set1_same.
        rewrite (value_at_ww (Lit s) rp _ chain D2) by apply get1_set1_same.
        split.
        -- intros Hs _. exfalso.
           destruct (getNode_path rp c1); [|now apply Found].
           destruct (getNode_path rp chain); discriminate Hs.
        -- intros _. apply value_at_chain.
      * assert (N : child_or_new wildcard n = new_Node).
        { unfold child_or_new. now rewrite (has_false_get1 _ _ Hd). }
        subst sub. rewrite N.
        set (chain := set_walk rq w new_Node).
        assert (D2 : has wildcard (set1 wildcard chain n1) = true)
          by now rewrite has_set1.
        rewrite (path_wild (Lit s) rp _ D2).
        rewrite (value_at_wild (Lit s) rp _ chain) by apply get1_set1_same.
        split.
        -- intros Hs _. exfalso.
           destruct (getNode_path rp c1); discriminate Hs.
        -- intros _. exact (value_at_chain rq [] w).
  - exact (Along _ E0 eq_refl).
  - destruct (Ends (set_walk rp v (child_or_new wildcard n)) eq_refl)
      as (P2 & P1 & Q2).
    rewrite P2, P1, Q2.
    split; [intros _ H | intro H]; exfalso; now apply H.
Qed.

(** Two patterns whose lookups go along the same edges read the same
    node. *)
Lemma value_at_same_path kp kq n :
  getNode_path kp n = getNode_path kq n -> value_at kp n = value_at kq n.
Proof.
  intro P. unfold value_at. rewrite !getNode_path_walk. now rewrite P.
Qed.

End TwoSets.

Lemma get_value_at {T} p keys (m : PatternMap T) :
  getKeys p = Ok keys -> get p m = Ok (value_at keys m).
Proof.
  intro K. unfold get, getNode, value_at. rewrite K.
  now destruct (getNode_walk keys m).
Qed.

End PatternMapWalks.

(* ===================================================================== *)
(** * The claims *)
(* ===================================================================== *)


(** C3, as stated, fails: after [set(/a/:x, 1)] and [set(/a/b, 2)] on an
    empty map both patterns reach the same node and [get(/a/:x)] returns
    2. *)
Lemma C3_distinct_patterns_collide :
  ~ (forall (m m1 m2 : PatternMap.PatternMap Z) (p q : Pattern.Pattern) (v w : option Z),
        Pattern.tokens p <> Pattern.tokens q ->
        PatternMap.set p v m = Ok m1 ->
        PatternMap.set q w m1 = Ok m2 ->
        PatternMap.get p m2 = Ok v /\ PatternMap.get q m2 = Ok w).
Proof.
  intro H.
  destruct (H PatternMap.empty _ _ Examples.p_a_x Examples.p_a_b
              (Some 1) (Some 2)
              ltac:(discriminate) eq_refl eq_refl) as [Hp _].
  discriminate Hp.
Qed.

(** C3, amended: on a map in which no node has both a wordwise-wildcard
    and a wildcard child (every map built by [set] is one), after
    [set(p, v)] and [set(q, w)] both succeed, [get(q)] returns [w], and
    [get(p)] returns
    - [v], when the second [set] has left the walk of [p] as it was
      after the first and the walk of [q] goes along other edges;
    - [w], when the lookups of [p] and [q] go along the same edges;
    - [w] or [undefined], when the second [set] has turned the walk of
      [p], by adding a wordwise-wildcard or wildcard child on its way. *)
Theorem C3_set_get_walks :
  forall (T : Type) (m m1 m2 : PatternMap.PatternMap T) (p q : Pattern.Pattern)
         (v w : option T) (kp kq : list PatternMap.Key),
    PatternMap.exclusive m = true ->
    PatternMap.getKeys p = Ok kp ->
    PatternMap.getKeys q = Ok kq ->
    PatternMap.set p v m = Ok m1 ->
    PatternMap.set q w m1 = Ok m2 ->
    PatternMap.get q m2 = Ok w
    /\ (PatternMap.getNode_path kp m2 = PatternMap.getNode_path kp m1 ->
        PatternMap.getNode_path kp m2 <> PatternMap.getNode_path kq m2 ->
        PatternMap.get p m2 = Ok v)
    /\ (PatternMap.getNode_path kp m2 = PatternMap.getNode_path kq m2 ->
        PatternMap.get p m2 = Ok w)
    /\ (PatternMap.getNode_path kp m2 <> PatternMap.getNode_path kp m1 ->
        PatternMap.get p m2 = Ok w \/ PatternMap.get p m2 = Ok None).
Proof.
  intros T m m1 m2 p q v w kp kq E Kp Kq Sp Sq.
  destruct (PatternMapMore.set_keys _ _ _ _ Sp) as (kp' & Kp' & Wp & ->).
  destruct (PatternMapMore.set_keys _ _ _ _ Sq) as (kq' & Kq' & Wq & ->).
  rewrite Kp in Kp'. injection Kp' as <-.
  rewrite Kq in Kq'. injection Kq' as <-.
  rewrite (PatternMapWalks.get_value_at p kp _ Kp).
  rewrite (PatternMapWalks.get_value_at q kq _ Kq).
  pose proof (PatternMapMore.exclusive_set_walk kp v m E) as E1.
  pose proof (PatternMapMore.value_at_set_walk_exclusive kq w _ E1 Wq) as Q.
  destruct (PatternMapWalks.two_sets kp kq v w m E Wp Wq) as [Kept Turned].
  split; [now rewrite Q|]. split; [|split].
  - intros Same Other. now rewrite (Kept Same Other).
  - intro Same. now rewrite (PatternMapWalks.value_at_same_path _ _ _ Same), Q.
  - intro Other. destruct (Turned Other) as [-> | ->]; auto.
Qed.

Lemma C3_set_get_walks_witness :
  PatternMap.get Examples.p_a_b_c Examples.m_a_x_cd = Ok (Some 3%Z)
  /\ PatternMap.get Examples.p_a_b_d Examples.m_a_x_cd = Ok (Some 4%Z).
Proof.
  destruct (C3_set_get_walks Z Examples.m_a_x
              Examples.m_a_x_c Examples.m_a_x_cd
              Examples.p_a_b_c Examples.p_a_b_d (Some 3) (Some 4)
              Examples.k_a_b_c Examples.k_a_b_d
              eq_refl eq_refl eq_refl eq_refl eq_refl)
    as (Q & P & _).
  split; [|exact Q].
  apply P; [reflexivity | discriminate].
Defined.

(** C4, as stated, fails: the map that holds [/a/:x] has a
    wordwise-wildcard child under [a]; [set(/a/b, 2)] would add the
    literal child [b] there, which breaks the uniqueness rule, and it
    returns normally. *)
Lemma C4_set_does_not_raise :
  ~ (forall (m : PatternMap.PatternMap Z) (p : Pattern.Pattern) (v : option Z)
            (keys : list PatternMap.Key),
        PatternMap.getKeys p = Ok keys ->
        Spec.breaks_rule keys m = true ->
        exists e, PatternMap.set p v m = Throw e).
Proof.
  intro H.
  destruct (H Examples.m_a_x Examples.p_a_b (Some 2) _ eq_refl eq_refl)
    as [e He].
  discriminate He.
Qed.

(** C4, amended: [set] raises for no pattern of kind exact or forward
    that has a token (or is forward): it returns the map after the walk
    of the pattern's keys.  On that walk a node that has a
    wordwise-wildcard child, or a wildcard child, gets no further child
    (the walk follows that child instead), and a node with neither gets
    the absent key as a new child, also a wordwise wildcard next to
    literal children.  Only a kind other than exact and forward, or an
    exact pattern without tokens, raises. *)
Theorem C4_set_is_silent :
  forall (T : Type) (m : PatternMap.PatternMap T) (p : Pattern.Pattern) (v : option T),
    Pattern.kind p = "exact" \/ Pattern.kind p = "forward" ->
    Pattern.tokens p <> [] \/ Pattern.kind p = "forward" ->
    exists keys,
      PatternMap.getKeys p = Ok keys
      /\ PatternMap.set p v m = Ok (PatternMap.set_walk keys v m)
      /\ (forall key rest (n : PatternMap.Node T),
             PatternMap.has PatternMap.wordwise_wildcard n = true
             \/ PatternMap.has PatternMap.wildcard n = true ->
             PatternMap.edge_keys
               (PatternMap.set_walk (key :: rest) v n)
             = PatternMap.edge_keys n)
      /\ (forall key rest (n : PatternMap.Node T),
             PatternMap.has PatternMap.wordwise_wildcard n = false ->
             PatternMap.has PatternMap.wildcard n = false ->
             PatternMap.has key n = false ->
             PatternMap.edge_keys
               (PatternMap.set_walk (key :: rest) v n)
             = (PatternMap.edge_keys n ++ [key])%list).
Proof.
  intros T m p v K Tk.
  assert (G : exists keys, PatternMap.getKeys p = Ok keys).
  { unfold PatternMap.getKeys.
    destruct (Pattern.tokens p) as [|prev rest] eqn:E; [|eauto].
    destruct Tk as [Tk | Tk]; [congruence|]. rewrite Tk. simpl. eauto. }
  destruct G as [keys G]. exists keys. split; [exact G|]. split.
  - unfold PatternMap.set. rewrite G.
    destruct K as [K | K]; rewrite K; reflexivity.
  - split.
    + intros key rest n [H | H].
      * now apply PatternMapEdges.set_walk_keeps_edges_wordwise.
      * now apply PatternMapEdges.set_walk_keeps_edges_wildcard.
    + intros key rest n. apply PatternMapEdges.set_walk_adds_edge.
Qed.

Lemma C4_set_is_silent_witness :
  exists keys,
    PatternMap.getKeys Examples.p_a_b = Ok keys
    /\ PatternMap.set Examples.p_a_b (Some 2%Z) Examples.m_a_x
       = Ok (PatternMap.set_walk keys (Some 2%Z) Examples.m_a_x)
    /\ (forall key rest (n : PatternMap.Node Z),
           PatternMap.has PatternMap.wordwise_wildcard n = true
           \/ PatternMap.has PatternMap.wildcard n = true ->
           PatternMap.edge_keys
             (PatternMap.set_walk (key :: rest) (Some 2%Z) n)
           = PatternMap.edge_keys n)
    /\ (forall key rest (n : PatternMap.Node Z),
           PatternMap.has PatternMap.wordwise_wildcard n = false ->
           PatternMap.has PatternMap.wildcard n = false ->
           PatternMap.has key n = false ->
           PatternMap.edge_keys
             (PatternMap.set_walk (key :: rest) (Some 2%Z) n)
           = (PatternMap.edge_keys n ++ [key])%list).
Proof.
  apply (C4_set_is_silent Z Examples.m_a_x Examples.p_a_b (Some 2)).
  - left. reflexivity.
  - left. discriminate.
Defined.

(** C9.  For every text the JSON body decoder accepts, the value it
    returns has no own property named [__proto__] at any depth. *)
Theorem C9_parseJson_no_proto :
  forall (h : Host) (json : string) (v : JsValue),
    Copyutil.parseJson h json None = Some v ->
    Copyutil.no_proto v = true.
Proof.
  intros h json v H. unfold Copyutil.parseJson in H.
  destruct (JSON_parse h json) as [raw|]; [|discriminate].
  injection H as <-. apply CopyutilFacts.internalize_no_proto.
Qed.

Lemma C9_parseJson_no_proto_witness :
  Copyutil.parseJson Examples.demo_host Examples.json_text None
  = Some (JObj [("a", JInt 2)])
  /\ Copyutil.no_proto (JObj [("a", JInt 2)]) = true.
Proof.
  split; [reflexivity|].
  apply (C9_parseJson_no_proto Examples.demo_host Examples.json_text).
  reflexivity.
Defined.

(** C8.  The method override applies only when
    [allowsPostMethodOverride] is set and the original method is POST;
    then the headers [x-http-method], [x-http-method-override] and
    [x-method-override] are consulted in this order, the first present
    wins and its first value, in upper case, is the dispatch method;
    with none present, for another method, or with the option off the
    original method is kept. *)
Theorem C8_method_override :
  forall (router : Router.Router) (method : string) (headers : Http.Headers),
    (Router.allowsPostMethodOverride router = false \/ method <> "POST" ->
     Router.resolveMethodOverride router method (Some headers) = Ok method)
    /\ (Router.allowsPostMethodOverride router = true ->
        method = "POST" ->
        match Spec.override_header headers with
        | Some (d :: _) =>
            Router.resolveMethodOverride router method (Some headers)
            = Ok (toUpperCase (Http.value d))
        | Some [] =>
            exists e,
              Router.resolveMethodOverride router method (Some headers)
              = Throw e
        | None =>
            Router.resolveMethodOverride router method (Some headers)
            = Ok method
        end).
Proof.
  intros router method headers. unfold Router.resolveMethodOverride. split.
  - intros [H | H].
    + now rewrite H.
    + apply String.eqb_neq in H. rewrite H.
      now destruct (Router.allowsPostMethodOverride router).
  - intros Ha ->. rewrite Ha. simpl. unfold Spec.override_header.
    destruct (getOwn "x-http-method" headers) as [[|d l]|].
    + simpl. eauto.
    + reflexivity.
    + destruct (getOwn "x-http-method-override" headers) as [[|d l]|].
      * simpl. eauto.
      * reflexivity.
      * destruct (getOwn "x-method-override" headers) as [[|d l]|];
          simpl; eauto.
Qed.

Lemma C8_method_override_witness :
  Router.resolveMethodOverride (Examples.router_with Examples.api_x) "GET"
    (Some [("x-http-method-override",
            [{| Http.value := "put"; Http.params := None |}])])
  = Ok "GET"
  /\ Router.resolveMethodOverride (Examples.router_with Examples.api_x) "POST"
       (Some [("x-method-override",
               [{| Http.value := "delete"; Http.params := None |}]);
              ("x-http-method-override",
               [{| Http.value := "put"; Http.params := None |}])])
     = Ok "PUT".
Proof.
  split.
  - apply (C8_method_override (Examples.router_with Examples.api_x) "GET").
    right. discriminate.
  - apply (proj2 (C8_method_override
                    (Examples.router_with Examples.api_x) "POST"
                    [("x-method-override",
                      [{| Http.value := "delete"; Http.params := None |}]);
                     ("x-http-method-override",
                      [{| Http.value := "put"; Http.params := None |}])])
             eq_refl eq_refl).
Defined.




(** C6.  For every PUT request whose handler resolves to an envelope:
    the status is 200 when both [noContent] and [created] are booleans
    (and a warning is logged), else 204 when [noContent] is true, else
    201 when [created] is true, else an integer [statusCode] in
    [200, 599], otherwise 200; the other envelope fields are the
    response headers and no body is written.  So the envelope
    [{ created: true, location: "/x/1" }] gives 201 with the header
    [location: /x/1]. *)
Theorem C6_put_envelope :
  forall (h : Host) (ops : Router.PatternOps) (router : Router.Router)
         (raw : Http.RawRequest) lq (query : Props)
         (endpoint : WebEntity.WebEntity) proto ancestors (f : WebEntity.Handler)
         (vr : VerifyResult.VerifyResult) (params envelope : Props),
    Router.resolveMethodOverride router (Http.raw_method raw)
      (Some (Http.raw_headers raw)) = Ok "PUT" ->
    Router.query_of h router raw = (lq, Ok query) ->
    PatternMap.get
      (Router.escaped ops
         (Router.formatRequestPath router (Http.raw_path raw)))
      (Router.web_entity_map router) = Ok (Some endpoint) ->
    WebEntity.variant endpoint = WebEntity.IsWebApi proto ancestors ->
    getOwn "put" proto = Some (WebEntity.DataFunction f) ->
    WebEntity.verify endpoint (Router.request_of router raw query)
    = Ok (Some vr) ->
    VerifyResult.ok vr = true ->
    Router.handler_params h ops endpoint "PUT"
      (Router.request_of router raw query) = Ok params ->
    f params = {| r_ok := Some envelope; r_error := None |} ->
    exists log,
      Router.route_parsed h ops router (Ok raw)
      = (log,
         Ok {| Router.statusCode :=
                 Spec.put_status (getOwn "noContent" envelope)
                   (getOwn "created" envelope)
                   (getOwn "statusCode" envelope);
               Router.statusMessage := None;
               Router.headers := Spec.put_headers envelope;
               Router.body := None |})
      /\ In (Router.invoked "put" params) log
      /\ (is_boolean (getOwn "noContent" envelope)
          && is_boolean (getOwn "created" envelope) = true ->
          In (Router.warn_both_flags "PUT") log).
Proof.
  intros h ops router raw lq query endpoint proto ancestors f vr params
         envelope Hm Hq He Hv Hf Hver Hok Hp Hr.
  rewrite (RouterFacts.route_parsed_found _ _ _ _ _ _ _ _ Hm Hq He).
  assert (Ha : Router.allowed endpoint "PUT" = true).
  { unfold Router.allowed, WebApi.supports. rewrite Hv.
    change (WebApi.HttpMethods_has (toUpperCase "PUT")) with true.
    change (toLowerCase "PUT") with "put".
    cbv zeta. simpl negb. cbv iota. now rewrite Hf. }
  rewrite (RouterFacts.respond_found_verified _ _ _ _ _ _ Ha Hver).
  cbv zeta. rewrite Hok. simpl negb. cbv iota.
  unfold Router.respond_verified. rewrite Hv.
  rewrite (EnvelopeFacts.serve_api_returned _ _ _ _ "PUT" _ params f Hp Hf)
    by now rewrite Hr.
  rewrite Hr. simpl r_ok.
  destruct (EnvelopeFacts.respond_envelope_put h envelope) as (le & -> & Hw).
  simpl. eexists. split; [reflexivity|]. split.
  - apply in_or_app. right. simpl. auto.
  - intro B. apply in_or_app. right. simpl. right. right. now apply Hw.
Qed.

Lemma C6_put_envelope_witness :
  exists log,
    Router.route_parsed Examples.demo_host Examples.demo_ops
      (Examples.router_with Examples.api_x)
      (Ok (Examples.raw_request "PUT" []))
    = (log,
       Ok {| Router.statusCode := 201;
             Router.statusMessage := None;
             Router.headers := [("location", JStr "/x/1")];
             Router.body := None |})
    /\ In (Router.invoked "put" [("body", JBuf "")]) log
    /\ (false = true -> In (Router.warn_both_flags "PUT") log).
Proof.
  apply (C6_put_envelope Examples.demo_host Examples.demo_ops
           (Examples.router_with Examples.api_x)
           (Examples.raw_request "PUT" []) [] []
           Examples.api_x
           [("put", WebEntity.DataFunction Examples.put_handler)] []
           Examples.put_handler VerifyResult.accepted [("body", JBuf "")]
           [("created", JBool true); ("location", JStr "/x/1")]);
    reflexivity.
Defined.




(** C10.  When [verify] resolves to [null] or [undefined] the router
    answers as for [{ ok: false }] without a scheme: status 401 and
    [www-authenticate] set to the join of the challenges of all the
    registered protocols. *)
Theorem C10_undefined_verification :
  forall (h : Host) (ops : Router.PatternOps) (router : Router.Router)
         (raw : Http.RawRequest) (method : string) lq (query : Props)
         (endpoint : WebEntity.WebEntity),
    Router.resolveMethodOverride router (Http.raw_method raw)
      (Some (Http.raw_headers raw)) = Ok method ->
    Router.query_of h router raw = (lq, Ok query) ->
    PatternMap.get
      (Router.escaped ops
         (Router.formatRequestPath router (Http.raw_path raw)))
      (Router.web_entity_map router) = Ok (Some endpoint) ->
    Router.allowed endpoint method = true ->
    WebEntity.verify endpoint (Router.request_of router raw query)
    = Ok None ->
    exists log resp,
      Router.route_parsed h ops router (Ok raw) = (log, Ok resp)
      /\ Router.respond_unverified h method endpoint VerifyResult.rejected
         = ([], Ok resp)
      /\ Router.statusCode resp = 401
      /\ getOwn "www-authenticate" (Router.headers resp)
         = Some (JStr (join ", " (WebEntity.getChallenges endpoint)))
      /\ (forall protocols,
             WebEntity.auth_protocols endpoint
             = WebEntity.protocol_map protocols ->
             WebEntity.getChallenges endpoint
             = flat_map
                 (fun p => match Auth.getChallenge p with
                           | Some challenge => [challenge]
                           | None => []
                           end)
                 (WebEntity.authProtocols endpoint)).
Proof.
  intros h ops router raw method lq query endpoint Hm Hq He Ha Hver.
  rewrite (RouterFacts.route_parsed_found _ _ _ _ _ _ _ _ Hm Hq He).
  rewrite (RouterFacts.respond_found_verified _ _ _ _ _ _ Ha Hver).
  cbv zeta. simpl negb. cbv iota.
  destruct (RouterFacts.respond_unverified_ok h method endpoint
              VerifyResult.rejected) as (resp & R & Hs & Hh).
  rewrite R. simpl. eexists. exists resp. split; [reflexivity|].
  split; [reflexivity|]. split; [exact Hs|]. split; [exact Hh|].
  intros protocols. apply WebEntityFacts.getChallenges_registered.
Qed.

Lemma C10_undefined_verification_witness :
  exists log resp,
    Router.route_parsed Examples.demo_host Examples.demo_ops
      (Examples.router_with (Examples.api_with [Examples.base_protocol]))
      (Ok (Examples.raw_request "PUT" (Examples.authorization "basic")))
    = (log, Ok resp)
    /\ Router.statusCode resp = 401
    /\ getOwn "www-authenticate" (Router.headers resp)
       = Some (JStr "Basic realm=x").
Proof.
  destruct (C10_undefined_verification Examples.demo_host Examples.demo_ops
              (Examples.router_with
                 (Examples.api_with [Examples.base_protocol]))
              (Examples.raw_request "PUT" (Examples.authorization "basic"))
              "PUT" [] []
              (Examples.api_with [Examples.base_protocol])
              eq_refl eq_refl eq_refl eq_refl eq_refl)
    as (log & resp & R & _ & S & W & _).
  exists log, resp. split; [exact R|]. split; [exact S | exact W].
Defined.

(** C7.  For a request that declares a [Content-Length] (a number [n]
    that is not negative): when the number of body bytes received
    differs from [n], parsing fails, with the length mismatch once the
    headers parsed and the stream ended, and the router answers 400 Bad
    Request; when it equals [n], parsing goes on to decode the body. *)
Theorem C7_content_length :
  forall (h : Host)
         (parseFormData : string -> option string -> result JsValue)
         (request : RequestParser.IncomingMessage) (s : string) (n : Z),
    getOwn "content-length" (RequestParser.im_headers request)
    = Some (RequestParser.One s) ->
    Number h s = NumInt n ->
    0 <= n ->
    (RequestParser.total_length (RequestParser.chunks request) <> n ->
     (exists e, RequestParser.parse h parseFormData request = Throw e)
     /\ (forall hs,
            RequestParser.readable request = true ->
            RequestParser.parse_headers h
              (RequestParser.im_headers request) [] = Ok hs ->
            RequestParser.ending request = None ->
            exists msg,
              RequestParser.parse h parseFormData request
              = Throw (RangeError msg))
     /\ (forall ops router,
            exists log resp,
              Router.route h ops parseFormData router request
              = (log, Ok resp)
              /\ Router.statusCode resp = 400
              /\ Router.statusMessage resp = Some "Bad Request"))
    /\ (RequestParser.total_length (RequestParser.chunks request) = n ->
        forall hs,
          RequestParser.readable request = true ->
          RequestParser.parse_headers h
            (RequestParser.im_headers request) [] = Ok hs ->
          RequestParser.ending request = None ->
          RequestParser.parse h parseFormData request
          = match RequestParser.decode_body h parseFormData hs
                    (join "" (RequestParser.chunks request)) with
            | Throw e => Throw e
            | Ok body =>
                Ok {| Http.raw_method := RequestParser.im_method request;
                      Http.raw_path :=
                        fst (RequestParser.split_url
                               (RequestParser.url request));
                      Http.raw_headers := hs;
                      Http.raw_query :=
                        RequestParser.fromEntries
                          (URLSearchParams h
                             (snd (RequestParser.split_url
                                     (RequestParser.url request))));
                      Http.raw_body := body |}
            end).
Proof.
  intros h pfd request s n Hh Hn Hpos.
  assert (D : RequestParser.declared_length h request = NumInt n).
  { unfold RequestParser.declared_length. now rewrite Hh. }
  assert (P : RequestParser.non_negative (NumInt n) = true).
  { simpl. now apply Z.leb_le. }
  assert (R : RequestParser.received_length (NumInt n)
                (RequestParser.chunks request)
              = RequestParser.total_length
                  (RequestParser.chunks request)).
  { now apply RequestParserFacts.received_length_declared. }
  split.
  - intro Hne.
    assert (F : forall hs,
               RequestParser.readable request = true ->
               RequestParser.parse_headers h
                 (RequestParser.im_headers request) [] = Ok hs ->
               RequestParser.ending request = None ->
               exists msg,
                 RequestParser.parse h pfd request = Throw (RangeError msg)).
    { intros hs Hr Hp He. rewrite RequestParserFacts.parse_eq; cbv zeta.
      rewrite Hr, Hp. simpl negb. cbv iota.
      destruct (RequestParser.split_url (RequestParser.url request)).
      rewrite He, D, R, P. simpl.
      assert (E : (n =? RequestParser.total_length
                          (RequestParser.chunks request)) = false)
        by (apply Z.eqb_neq; congruence).
      rewrite E. simpl. eauto. }
    assert (T : exists e, RequestParser.parse h pfd request = Throw e).
    { destruct (RequestParser.readable request) eqn:Hr.
      - destruct (RequestParser.parse_headers h
                    (RequestParser.im_headers request) []) as [hs|e] eqn:Hp.
        + destruct (RequestParser.ending request) as [err|] eqn:He.
          * exists err. rewrite RequestParserFacts.parse_eq; cbv zeta.
            rewrite Hr, Hp. simpl negb. cbv iota.
            destruct (RequestParser.split_url (RequestParser.url request)).
            now rewrite He.
          * destruct (F hs eq_refl eq_refl eq_refl) as [msg ->]. eauto.
        + exists e. rewrite RequestParserFacts.parse_eq; cbv zeta. now rewrite Hr, Hp.
      - eexists. rewrite RequestParserFacts.parse_eq; cbv zeta. rewrite Hr. reflexivity. }
    split; [exact T|]. split; [exact F|].
    intros ops router. destruct T as [e T].
    unfold Router.route. unfold RequestParser.parse in T.
    destruct (RequestParser.parse_run h pfd request) as [console parsed].
    simpl in T. subst parsed. simpl.
    eexists. eexists. split; [reflexivity|]. split; reflexivity.
  - intros Heq hs Hr Hp He. rewrite RequestParserFacts.parse_eq; cbv zeta.
    rewrite Hr, Hp. simpl negb. cbv iota.
    destruct (RequestParser.split_url (RequestParser.url request)).
    rewrite He, D, R, P. simpl.
    assert (E : (n =? RequestParser.total_length
                        (RequestParser.chunks request)) = true)
      by (apply Z.eqb_eq; congruence).
    rewrite E. reflexivity.
Qed.

Lemma C7_content_length_witness :
  (exists log resp,
      Router.route Examples.demo_host Examples.demo_ops
        Examples.demo_parseFormData (Examples.router_with Examples.api_x)
        (Examples.incoming ["ab"]) = (log, Ok resp)
      /\ Router.statusCode resp = 400
      /\ Router.statusMessage resp = Some "Bad Request")
  /\ RequestParser.parse Examples.demo_host Examples.demo_parseFormData
       (Examples.incoming ["ab"; "c"])
     = Ok {| Http.raw_method := "PUT";
             Http.raw_path := "/x";
             Http.raw_headers :=
               [("content-length",
                 [{| Http.value := "3"; Http.params := None |}])];
             Http.raw_query := [];
             Http.raw_body := JBuf "abc" |}.
Proof.
  split.
  - apply (proj1 (C7_content_length Examples.demo_host
                    Examples.demo_parseFormData (Examples.incoming ["ab"])
                    "3" 3 eq_refl eq_refl ltac:(lia))).
    discriminate.
  - apply (proj2 (C7_content_length Examples.demo_host
                    Examples.demo_parseFormData
                    (Examples.incoming ["ab"; "c"])
                    "3" 3 eq_refl eq_refl ltac:(lia))
             eq_refl _ eq_refl eq_refl eq_refl).
Defined.

(** C2, on the code: the header parser stores the scheme of an
    [authorization] header in lower case ([params.scheme]), while the
    protocol map is keyed by the protocol's own [scheme], which is
    [Digest] for [DigestAuthProtocol], and is looked up exactly.  So for
    an entity that registers the Digest protocol no authorization header
    that parses selects it, in any capitalisation: [verify] answers
    [{ ok: false }] without a scheme and never delegates. *)
Theorem C2_digest_is_never_selected :
  forall (h : Host) (line : string) (descs : list Http.Descriptor)
         (e : WebEntity.WebEntity) (request : Http.Request)
         verifyParameters (challenge : string),
    RequestParser.parseHeader h line = Ok ("authorization", descs) ->
    getOwn "authorization" (Http.headers request) = Some descs ->
    WebEntity.auth_protocols e
    = WebEntity.protocol_map
        [Auth.DigestAuthProtocol verifyParameters challenge] ->
    WebEntity.verify e request = Ok (Some VerifyResult.rejected).
Proof.
  intros h line descs e request vp challenge Hl Hh Hm.
  destruct (CredentialsFacts.authorization_scheme_lowercased _ _ _ Hl)
    as (d & ps & x & -> & Hp & Hs).
  unfold WebEntity.verify, WebEntity.authRequired, WebEntity.authProtocols,
    WebEntity.getAuthProtocol, Http.first_authorization.
  rewrite Hm, Hh, Hp, Hs.
  change (WebEntity.protocol_map [Auth.DigestAuthProtocol vp challenge])
    with [("Digest", Auth.DigestAuthProtocol vp challenge)].
  cbn [map snd negb getOwn].
  destruct (String.eqb "Digest" (toLowerCase x)) eqn:E; [|reflexivity].
  apply String.eqb_eq in E. symmetry in E.
  now apply RequestParserFacts.toLowerCase_not_Digest in E.
Qed.

Lemma C2_digest_is_never_selected_witness :
  RequestParser.parseHeader Examples.demo_host Examples.digest_line
  = Ok ("authorization", [Examples.digest_descriptor])
  /\ WebEntity.verify (Examples.api_with [Examples.digest])
       {| Http.method := "PUT";
          Http.path := "/x";
          Http.headers := [("authorization", [Examples.digest_descriptor])];
          Http.body := JBuf "";
          Http.query := [] |}
     = Ok (Some VerifyResult.rejected).
Proof.
  split; [reflexivity|].
  apply (C2_digest_is_never_selected Examples.demo_host
           Examples.digest_line [Examples.digest_descriptor]
           (Examples.api_with [Examples.digest]) _
           (fun _ _ => Ok true) "Digest qop=auth");
    reflexivity.
Defined.

(* ===================================================================== *)
(** * Further properties of the code *)
(* ===================================================================== *)

(** X1.  In a map built from the empty one by [set] calls, [get] of a
    pattern right after its [set] returns the value just given, whatever
    was set before. *)
Theorem PatternMap_set_then_get :
  forall (T : Type) (calls : list (Pattern.Pattern * option T))
         (m m' : PatternMap.PatternMap T) (p : Pattern.Pattern)
         (v : option T),
    PatternMap.sets calls PatternMap.empty = Ok m ->
    PatternMap.set p v m = Ok m' ->
    PatternMap.get p m' = Ok v.
Proof.
  intros T calls m m' p v B S.
  pose proof (PatternMapMore.exclusive_sets calls PatternMap.empty _ PatternMapMore.exclusive_new B) as E.
  destruct (PatternMapMore.set_keys _ _ _ _ S) as (keys & K & W & ->).
  unfold PatternMap.get, PatternMap.getNode. rewrite K.
  pose proof (PatternMapMore.value_at_set_walk_exclusive keys v m E W) as V.
  unfold PatternMap.value_at in V.
  destruct (PatternMap.getNode_walk keys (PatternMap.set_walk keys v m));
    now rewrite <- V.
Qed.

Lemma PatternMap_set_then_get_witness :
  exists m',
    PatternMap.set Examples.p_a_b (Some 2) Examples.m_a_x = Ok m'
    /\ PatternMap.get Examples.p_a_b m' = Ok (Some 2).
Proof.
  eexists. split; [reflexivity|].
  apply (PatternMap_set_then_get Z [(Examples.p_a_x, Some 1)]
           Examples.m_a_x _ Examples.p_a_b (Some 2) eq_refl eq_refl).
Defined.

(** X2.  A second [set] of a pattern leaves the map as a single [set] of
    the second value would: the first value is gone and no node is
    added. *)
Theorem PatternMap_set_overwrites :
  forall (T : Type) (m m1 : PatternMap.PatternMap T) (p : Pattern.Pattern)
         (v w : option T),
    PatternMap.set p w m = Ok m1 ->
    PatternMap.set p v m1 = PatternMap.set p v m.
Proof.
  intros T m m1 p v w S.
  destruct (PatternMapMore.set_keys _ _ _ _ S) as (keys & K & W & ->).
  unfold PatternMap.set in *. destruct (negb _); [reflexivity|].
  rewrite K. f_equal. now apply PatternMapMore.set_walk_twice.
Qed.

Lemma PatternMap_set_overwrites_witness :
  PatternMap.set Examples.p_a_x (Some 5) Examples.m_a_x
  = PatternMap.set Examples.p_a_x (Some 5) PatternMap.empty.
Proof.
  apply (PatternMap_set_overwrites Z PatternMap.empty Examples.m_a_x
           Examples.p_a_x (Some 5) (Some 1) eq_refl).
Defined.

(** X3.  After [set(p, v)] on a map built by [set] calls, [has(q)] is
    true for every pattern [q] whose keys are a prefix of the keys of
    [p], [p] itself included, though [q] was never set; on a fresh map
    [get(q)] is [undefined] for each strict prefix. *)
Theorem PatternMap_has_prefix :
  forall (T : Type) (calls : list (Pattern.Pattern * option T))
         (m m' : PatternMap.PatternMap T) (p q : Pattern.Pattern)
         (v : option T) (kq more : list PatternMap.Key),
    PatternMap.sets calls PatternMap.empty = Ok m ->
    PatternMap.set p v m = Ok m' ->
    PatternMap.getKeys q = Ok kq ->
    PatternMap.getKeys p = Ok (kq ++ more)%list ->
    PatternMap.has_pattern q m' = Ok true
    /\ (calls = [] -> more <> [] -> PatternMap.get q m' = Ok None).
Proof.
  intros T calls m m' p q v kq more B S Kq Kp.
  pose proof (PatternMapMore.exclusive_sets calls PatternMap.empty _ PatternMapMore.exclusive_new B) as E.
  destruct (PatternMapMore.set_keys _ _ _ _ S) as (keys & K & W & ->).
  assert (keys = (kq ++ more)%list) by congruence. subst keys.
  split.
  - unfold PatternMap.has_pattern, PatternMap.getNode. rewrite Kq.
    pose proof (PatternMapMore.getNode_walk_prefix kq more v m E W) as N.
    now destruct (PatternMap.getNode_walk kq _).
  - intros -> R. simpl in B. injection B as <-.
    unfold PatternMap.get, PatternMap.getNode. rewrite Kq.
    pose proof (PatternMapMore.value_at_inner (T := T) kq more v R W) as V.
    unfold PatternMap.value_at in V. unfold PatternMap.empty.
    destruct (PatternMap.getNode_walk kq _); [now rewrite V | reflexivity].
Qed.

Lemma PatternMap_has_prefix_witness :
  PatternMap.has_pattern MoreExamples.p_a MoreExamples.m_a_b = Ok true
  /\ PatternMap.get MoreExamples.p_a MoreExamples.m_a_b = Ok None.
Proof.
  destruct (PatternMap_has_prefix Z [] PatternMap.empty MoreExamples.m_a_b
              Examples.p_a_b MoreExamples.p_a (Some 2)
              [PatternMap.Lit "a"] [PatternMap.Lit "b"]
              eq_refl eq_refl eq_refl eq_refl) as [H G].
  split; [exact H|]. apply G; [reflexivity | discriminate].
Defined.

(** X4.  [delete(p)] removes the node of [p] with everything below it:
    when [p] is resolved through its own keys, [delete(p)] returns true
    and afterwards neither [p] nor any pattern whose keys extend those
    of [p] is found. *)
Theorem PatternMap_delete_subtree :
  forall (T : Type) (m : PatternMap.PatternMap T) (p q : Pattern.Pattern)
         (kp more : list PatternMap.Key),
    PatternMap.getKeys p = Ok kp ->
    PatternMap.getKeys q = Ok (kp ++ more)%list ->
    PatternMap.resolves_own kp m = true ->
    exists m',
      PatternMap.delete p m = Ok (true, m')
      /\ PatternMap.has_pattern q m' = Ok false
      /\ PatternMap.get q m' = Ok None.
Proof.
  intros T m p q kp more Kp Kq R.
  pose proof (PatternMapFacts.getKeys_wildcard_last _ _ Kp) as Wp.
  pose proof (PatternMapFacts.getKeys_wildcard_last _ _ Kq) as Wq.
  pose proof (PatternMapMore.getKeys_nonempty _ _ Kp) as N.
  exists (PatternMap.remove_at kp m).
  unfold PatternMap.delete, PatternMap.has_pattern, PatternMap.get,
    PatternMap.getNode.
  rewrite Kp, Kq, (PatternMapMore.getNode_path_own kp m Wp R).
  now rewrite (PatternMapMore.getNode_walk_removed kp more m N Wq R).
Qed.

Lemma PatternMap_delete_subtree_witness :
  exists m',
    PatternMap.delete MoreExamples.p_a MoreExamples.m_a_b = Ok (true, m')
    /\ PatternMap.has_pattern Examples.p_a_b m' = Ok false
    /\ PatternMap.get Examples.p_a_b m' = Ok None.
Proof.
  apply (PatternMap_delete_subtree Z MoreExamples.m_a_b MoreExamples.p_a
           Examples.p_a_b [PatternMap.Lit "a"] [PatternMap.Lit "b"]
           eq_refl eq_refl eq_refl).
Defined.

(** X5.  [delete(p)] returns what [has(p)] returns, fails where it
    fails, and leaves the map as it is when it returns false. *)
Theorem PatternMap_delete_reports_has :
  forall (T : Type) (m : PatternMap.PatternMap T) (p : Pattern.Pattern),
    match PatternMap.delete p m with
    | Ok (found, m') =>
        PatternMap.has_pattern p m = Ok found
        /\ (found = false -> m' = m)
    | Throw e => PatternMap.has_pattern p m = Throw e
    end.
Proof.
  intros T m p.
  unfold PatternMap.delete, PatternMap.has_pattern, PatternMap.getNode.
  destruct (PatternMap.getKeys p) as [keys|e]; [|reflexivity].
  destruct (PatternMap.getNode_path keys m) as [path|] eqn:P.
  - pose proof (PatternMapMore.getNode_path_found _ _ _ P) as F.
    destruct (PatternMap.getNode_walk keys m); [|congruence].
    split; [reflexivity | discriminate].
  - rewrite (PatternMapMore.getNode_path_missing _ _ P).
    split; reflexivity.
Qed.

(** X6.  The names of the parameters play no part: two patterns of the
    same kind whose tokens agree up to the names of the parameters are
    one key of the map for [set], [get], [has] and [delete]. *)
Theorem PatternMap_parameter_names :
  forall (T : Type) (m : PatternMap.PatternMap T) (p q : Pattern.Pattern)
         (v : option T),
    Pattern.kind p = Pattern.kind q ->
    map PatternMap.token_key (Pattern.tokens p)
    = map PatternMap.token_key (Pattern.tokens q) ->
    PatternMap.set p v m = PatternMap.set q v m
    /\ PatternMap.get p m = PatternMap.get q m
    /\ PatternMap.has_pattern p m = PatternMap.has_pattern q m
    /\ PatternMap.delete p m = PatternMap.delete q m.
Proof.
  intros T m p q v K M.
  pose proof (PatternMapMore.getKeys_names p q K M) as E.
  unfold PatternMap.set, PatternMap.get, PatternMap.has_pattern,
    PatternMap.delete, PatternMap.getNode.
  rewrite E, K. repeat split; reflexivity.
Qed.

Lemma PatternMap_parameter_names_witness :
  PatternMap.get MoreExamples.p_a_y Examples.m_a_x
  = PatternMap.get Examples.p_a_x Examples.m_a_x.
Proof.
  apply (PatternMap_parameter_names Z Examples.m_a_x MoreExamples.p_a_y
           Examples.p_a_x None eq_refl eq_refl).
Defined.

(** X7.  In a map built from the empty one by [set] calls no node has
    both a wordwise-wildcard child (a parameter) and a wildcard child. *)
Theorem PatternMap_wildcards_exclusive :
  forall (T : Type) (calls : list (Pattern.Pattern * option T))
         (m : PatternMap.PatternMap T),
    PatternMap.sets calls PatternMap.empty = Ok m ->
    PatternMap.exclusive m = true.
Proof.
  intros T calls m B.
  exact (PatternMapMore.exclusive_sets calls PatternMap.empty _ PatternMapMore.exclusive_new B).
Qed.

Lemma PatternMap_wildcards_exclusive_witness :
  exists m,
    PatternMap.sets MoreExamples.calls_a PatternMap.empty = Ok m
    /\ PatternMap.exclusive m = true.
Proof.
  eexists. split; [reflexivity|].
  apply (PatternMap_wildcards_exclusive Z MoreExamples.calls_a _ eq_refl).
Defined.

(** ** Router: paths, registration and the answers of [route] *)

Module RouterMore.
Import WebEntity Router RouterFacts.

Lemma strip_idem s :
  strip_trailing_slashes (strip_trailing_slashes s)
  = strip_trailing_slashes s.
Proof.
  induction s as [|c r IH]; simpl; [reflexivity|].
  destruct (Ascii.eqb c "/" && String.eqb (strip_trailing_slashes r) "")
    eqn:E; [reflexivity|].
  simpl. rewrite IH, E. reflexivity.
Qed.

Lemma strip_app_slash s :
  strip_trailing_slashes (s ++ "/") = strip_trailing_slashes s.
Proof.
  induction s as [|c r IH]; simpl; [reflexivity|]. now rewrite IH.
Qed.

Lemma length_append (a b : string) :
  String.length (a ++ b) = (String.length a + String.length b)%nat.
Proof. induction a as [|c r IH]; simpl; [reflexivity | now rewrite IH]. Qed.

Lemma strip_no_slash s t : strip_trailing_slashes s <> t ++ "/".
Proof.
  intro H. pose proof (strip_idem s) as I. rewrite H in I.
  rewrite strip_app_slash in I.
  assert (L : (String.length (strip_trailing_slashes t)
               <= String.length t)%nat).
  { clear. induction t as [|c r IH]; simpl; [lia|].
    destruct (Ascii.eqb c "/" && String.eqb (strip_trailing_slashes r) "");
      simpl; lia. }
  rewrite I in L. rewrite length_append in L. simpl in L. lia.
Qed.

Lemma strip_split path :
  exists slashes,
    path = strip_trailing_slashes path ++ slashes
    /\ only_slashes slashes = true.
Proof.
  induction path as [|c r (tail & E & O)]; simpl.
  - exists "". auto.
  - destruct (Ascii.eqb c "/") eqn:C; simpl.
    + destruct (String.eqb (strip_trailing_slashes r) "") eqn:F.
      * apply String.eqb_eq in F. rewrite F in E. simpl in E.
        exists (String c r). split; [reflexivity|]. simpl.
        rewrite C. simpl. now rewrite E.
      * exists tail. split; [simpl; f_equal; exact E | exact O].
    + exists tail. split; [simpl; f_equal; exact E | exact O].
Qed.

Lemma new_Router_policy o router :
  new_Router o = Ok router ->
  In (trailingSlashPolicy router) ["asis"; "add"; "remove"].
Proof.
  assert (P : forall policy,
             hasOwn policy TrailingSlashPolicy = true ->
             In policy ["asis"; "add"; "remove"]).
  { intros policy P. unfold TrailingSlashPolicy in P. cbn [hasOwn] in P.
    simpl.
    destruct (String.eqb "asis" policy) eqn:E1;
      [apply String.eqb_eq in E1; auto|].
    destruct (String.eqb "add" policy) eqn:E2;
      [apply String.eqb_eq in E2; auto|].
    destruct (String.eqb "remove" policy) eqn:E3;
      [apply String.eqb_eq in E3; auto | discriminate P]. }
  unfold new_Router. intro N. cbv zeta in N.
  destruct o; try discriminate N;
    (destruct (option_of "trailingSlashPolicy" _)
       as [[| | | | |policy| | |]|]; try discriminate N);
    (destruct (option_of "allowsPostMethodOverride" _)
       as [[| |allows| | | | | |]|]; try discriminate N;
     try (destruct (negb _); discriminate N));
    (destruct (option_of "parsesQueryAsJson" _)
       as [[| |parses| | | | | |]|]; try discriminate N;
     try (destruct (negb _); discriminate N));
    try (simpl in N; injection N as <-; simpl; now auto);
    (destruct (hasOwn policy TrailingSlashPolicy) eqn:H;
     [|discriminate N]);
    simpl in N; injection N as <-; simpl; apply (P _ H).
Qed.

Lemma prepend_ok {A} l (m : M A) log (a : A) :
  prepend l m = (log, Ok a) ->
  exists l', m = (l', Ok a) /\ log = (l ++ l')%list.
Proof.
  destruct m as [l' [x|e]]; simpl; intro H; [|discriminate].
  injection H as <- <-. eauto.
Qed.

(** [route] on a request that parsed, whose method resolved and whose
    path is not registered. *)
Lemma route_parsed_missing h ops router raw method lq query :
  resolveMethodOverride router (Http.raw_method raw)
    (Some (Http.raw_headers raw)) = Ok method ->
  query_of h router raw = (lq, Ok query) ->
  PatternMap.get
    (escaped ops (formatRequestPath router (Http.raw_path raw)))
    (web_entity_map router) = Ok None ->
  route_parsed h ops router (Ok raw)
  = prepend lq (respond_error h method 404
                  (formatRequestPath router (Http.raw_path raw)
                   ++ " not found")).
Proof.
  intros Hm Hq He. unfold route_parsed.
  rewrite Hm, bind_lift_ok, Hq, bind_ok, He, bind_lift_ok. reflexivity.
Qed.

Lemma prepend_prepend {A} l l' (m : M A) :
  prepend l (prepend l' m) = prepend (l ++ l')%list m.
Proof. destruct m as [l0 r]. simpl. now rewrite app_assoc. Qed.

Lemma allowed_api endpoint proto ancestors method f :
  variant endpoint = IsWebApi proto ancestors ->
  WebApi.HttpMethods_has (toUpperCase method) = true ->
  getOwn (toLowerCase method) proto = Some (DataFunction f) ->
  allowed endpoint method = true.
Proof.
  intros V U G. unfold allowed, WebApi.supports. rewrite V, U.
  simpl negb. cbv iota zeta. now rewrite G.
Qed.

(** [route] on a request that reaches the handler of a [WebApi]. *)
Lemma route_parsed_served h ops router raw method lq query endpoint
      proto ancestors f vr :
  resolveMethodOverride router (Http.raw_method raw)
    (Some (Http.raw_headers raw)) = Ok method ->
  query_of h router raw = (lq, Ok query) ->
  PatternMap.get
    (escaped ops (formatRequestPath router (Http.raw_path raw)))
    (web_entity_map router) = Ok (Some endpoint) ->
  variant endpoint = IsWebApi proto ancestors ->
  WebApi.HttpMethods_has (toUpperCase method) = true ->
  getOwn (toLowerCase method) proto = Some (DataFunction f) ->
  WebEntity.verify endpoint (request_of router raw query) = Ok (Some vr) ->
  VerifyResult.ok vr = true ->
  route_parsed h ops router (Ok raw)
  = prepend (lq ++ [verified (Pattern.pattern (WebEntity.path endpoint))])
      (serve_api h ops endpoint proto method (request_of router raw query)).
Proof.
  intros Hm Hq He V U G Hv Hok.
  rewrite (route_parsed_found _ _ _ _ _ _ _ _ Hm Hq He).
  rewrite (respond_found_verified _ _ _ _ _ _
             (allowed_api _ _ _ _ _ V U G) Hv).
  cbv zeta. rewrite Hok. simpl negb. cbv iota.
  unfold respond_verified. rewrite V. apply prepend_prepend.
Qed.

(** The handler is called once and what it threw is answered. *)
Lemma serve_api_threw h ops endpoint proto method request params f error :
  handler_params h ops endpoint method request = Ok params ->
  getOwn (toLowerCase method) proto = Some (DataFunction f) ->
  r_error (f params) = Some error ->
  serve_api h ops endpoint proto method request
  = prepend [invoked (toLowerCase method) params] (respond_thrown h error).
Proof.
  intros Hp Hf He. unfold serve_api, invoke.
  rewrite Hp, bind_lift_ok, Hf, bind_emit. unfold prepend at 1, ret.
  rewrite bind_ok, He. reflexivity.
Qed.

Lemma decode_params_get h extracted : forall decoded k raw,
  decode_params h extracted = Ok decoded ->
  getOwn k extracted = Some raw ->
  exists v, decodeURIComponent h raw = Some v
            /\ getOwn k decoded = Some (JStr v).
Proof.
  induction extracted as [|[k0 v0] r IH]; intros decoded k raw D G;
    [discriminate|].
  simpl in D. destruct (decodeURIComponent h v0) as [v'|] eqn:U;
    [|discriminate].
  destruct (decode_params h r) as [r'|] eqn:R; [|discriminate].
  injection D as <-. simpl in G |- *.
  destruct (String.eqb k0 k).
  - injection G as <-. eauto.
  - now apply IH.
Qed.

Lemma decode_params_keys h extracted : forall decoded,
  decode_params h extracted = Ok decoded ->
  map fst decoded = map fst extracted.
Proof.
  induction extracted as [|[k0 v0] r IH]; intros decoded D; simpl in D.
  - now injection D as <-.
  - destruct (decodeURIComponent h v0); [|discriminate].
    destruct (decode_params h r) as [r'|]; [|discriminate].
    injection D as <-. simpl. f_equal. now apply IH.
Qed.

End RouterMore.

(** ** Copyutil: [merge], and [parseJson] with a reviver *)

Module CopyutilMore.
Import Copyutil.

Lemma hasOwn_define {A} k k' (v : A) o :
  hasOwn k (define k' v o) = String.eqb k' k || hasOwn k o.
Proof.
  induction o as [|[k0 v0] r IH]; simpl.
  - now destruct (String.eqb k' k).
  - destruct (String.eqb k0 k') eqn:E; simpl.
    + apply String.eqb_eq in E. subst k0.
      destruct (String.eqb k' k); reflexivity.
    + rewrite IH. destruct (String.eqb k0 k) eqn:F; [|reflexivity].
      now rewrite orb_true_r.
Qed.

Lemma hasOwn_assign_proto k v o :
  hasOwn "__proto__" (assign k v o) = hasOwn "__proto__" o.
Proof.
  unfold assign. destruct (String.eqb k "__proto__") eqn:E; [reflexivity|].
  now rewrite hasOwn_define, E.
Qed.

Lemma hasOwn_merge1_proto target source :
  hasOwn "__proto__" (merge1 target source) = hasOwn "__proto__" target.
Proof.
  unfold merge1. revert target.
  induction (own_enumerable source) as [|[k v] r IH]; intro target; simpl;
    [reflexivity|].
  rewrite IH. destruct (String.eqb k "__proto__"); [reflexivity|].
  apply hasOwn_assign_proto.
Qed.

Lemma getOwn_assign_same k v o :
  k <> "__proto__" -> getOwn k (assign k v o) = Some v.
Proof.
  intro N. unfold assign. apply String.eqb_neq in N. rewrite N.
  apply CredentialsFacts.getOwn_define_same.
Qed.

Lemma getOwn_assign_other k k' v o :
  k <> k' -> getOwn k (assign k' v o) = getOwn k o.
Proof.
  intro N. unfold assign. destruct (String.eqb k' "__proto__"); [reflexivity|].
  apply CredentialsFacts.getOwn_define_other. congruence.
Qed.

Lemma getOwn_app {A} k (a b : list (string * A)) :
  getOwn k (a ++ b)%list
  = match getOwn k a with Some v => Some v | None => getOwn k b end.
Proof.
  induction a as [|[k0 v0] r IH]; simpl; [reflexivity|].
  destruct (String.eqb k0 k); [reflexivity | exact IH].
Qed.

(** The loop of [merge] over one source: the last entry of a key
    decides. *)
Lemma getOwn_merge_loop k (l : Props) : forall target,
  k <> "__proto__" ->
  getOwn k
    (fold_left
       (fun t kv =>
          if String.eqb (fst kv) "__proto__" then t
          else assign (fst kv) (snd kv) t)
       l target)
  = match getOwn k (rev l) with
    | Some v => Some v
    | None => getOwn k target
    end.
Proof.
  induction l as [|[k0 v0] r IH]; intros target N; simpl; [reflexivity|].
  rewrite IH by exact N. rewrite getOwn_app. simpl.
  destruct (getOwn k (rev r)); [reflexivity|].
  destruct (String.eqb k0 k) eqn:E.
  - apply String.eqb_eq in E. subst k0.
    apply String.eqb_neq in N. rewrite N.
    apply getOwn_assign_same. now apply String.eqb_neq.
  - apply String.eqb_neq in E.
    destruct (String.eqb k0 "__proto__"); [reflexivity|].
    apply getOwn_assign_other. congruence.
Qed.

Lemma getOwn_missing {A} k (l : list (string * A)) :
  getOwn k l = None <-> ~ In k (map fst l).
Proof.
  induction l as [|[k0 v0] r IH]; simpl.
  - split; [intros _ [] | reflexivity].
  - destruct (String.eqb k0 k) eqn:E.
    + apply String.eqb_eq in E. subst. split; [discriminate|].
      intro H. exfalso. apply H. now left.
    + apply String.eqb_neq in E. rewrite IH. split.
      * intros H [F | F]; [congruence | contradiction].
      * intros H F. apply H. now right.
Qed.

Lemma getOwn_rev {A} k (l : list (string * A)) :
  NoDup (map fst l) -> getOwn k (rev l) = getOwn k l.
Proof.
  intro N. destruct (getOwn k l) as [v|] eqn:G.
  - apply WebEntityFacts.getOwn_NoDup.
    + rewrite map_rev. now apply NoDup_rev.
    + apply in_rev. rewrite rev_involutive.
      clear N. induction l as [|[k0 v0] r IH]; simpl in *; [discriminate|].
      destruct (String.eqb k0 k) eqn:E.
      * apply String.eqb_eq in E. injection G as ->. subst. now left.
      * right. now apply IH.
  - apply getOwn_missing. apply getOwn_missing in G.
    rewrite map_rev. intro I. apply G. now apply in_rev.
Qed.

Lemma getOwn_merge1 k target source :
  k <> "__proto__" ->
  NoDup (map fst (own_enumerable source)) ->
  getOwn k (merge1 target source)
  = match getOwn k (own_enumerable source) with
    | Some v => Some v
    | None => getOwn k target
    end.
Proof.
  intros N D. unfold merge1. rewrite getOwn_merge_loop by exact N.
  now rewrite getOwn_rev.
Qed.

Lemma no_proto_guard_with reviver key v :
  clean_reviver reviver ->
  no_proto v = true -> no_proto (guard_reviver_with reviver key v) = true.
Proof.
  intros C H. unfold guard_reviver_with.
  destruct (String.eqb key "__proto__"); [reflexivity | now apply C].
Qed.

Lemma internalize_with_no_proto reviver v :
  clean_reviver reviver ->
  forall key,
    no_proto (internalize (guard_reviver_with reviver) key v) = true.
Proof.
  intro C.
  induction v using JsValue_nested_ind; intro key;
    try (simpl; apply no_proto_guard_with; [exact C | reflexivity]).
  - simpl. apply no_proto_guard_with; [exact C|]. simpl.
    generalize O. induction H as [|x r Hx Hr IH]; intro i; simpl.
    + reflexivity.
    + rewrite Hx. simpl. apply IH.
  - simpl. apply no_proto_guard_with; [exact C|]. simpl.
    induction H as [|[k x] r Hx Hr IH]; simpl.
    + reflexivity.
    + simpl in Hx. specialize (Hx k).
      destruct (String.eqb k "__proto__") eqn:E.
      * apply String.eqb_eq in E. subst k.
        assert (U : internalize (guard_reviver_with reviver) "__proto__" x
                    = JUndefined).
        { destruct x; reflexivity. }
        rewrite U. exact IH.
      * destruct (internalize (guard_reviver_with reviver) k x) eqn:V;
          try exact IH;
          cbn [forallb fst snd]; rewrite E; cbn [negb andb];
          try (rewrite IH; reflexivity);
          cbn [no_proto] in Hx |- *; rewrite Hx; exact IH.
Qed.

End CopyutilMore.

(** X8.  [merge] never gives the target an own property named
    [__proto__]: whatever the sources hold, the target has one
    afterwards exactly when it had one before. *)
Theorem merge_defines_no_proto :
  forall (target : Props) (sources : list JsValue),
    hasOwn "__proto__" (Copyutil.merge target sources)
    = hasOwn "__proto__" target.
Proof.
  intros target sources. unfold Copyutil.merge. revert target.
  induction sources as [|s r IH]; intro target; simpl; [reflexivity|].
  rewrite IH. apply CopyutilMore.hasOwn_merge1_proto.
Qed.

(** X9.  In [merge], for a key other than [__proto__], the last source
    that has the key decides its value, and a key that the last source
    lacks keeps what the earlier sources and the target gave it. *)
Theorem merge_last_source_wins :
  forall (target : Props) (sources : list JsValue) (source : JsValue)
         (k : string),
    k <> "__proto__" ->
    NoDup (map fst (Copyutil.own_enumerable source)) ->
    getOwn k (Copyutil.merge target (sources ++ [source]))
    = match getOwn k (Copyutil.own_enumerable source) with
      | Some v => Some v
      | None => getOwn k (Copyutil.merge target sources)
      end.
Proof.
  intros target sources source k N D. unfold Copyutil.merge.
  rewrite fold_left_app. simpl.
  now apply CopyutilMore.getOwn_merge1.
Qed.

Lemma merge_last_source_wins_witness :
  getOwn "a"
    (Copyutil.merge [("a", JInt 1)]
       ([JObj [("a", JInt 2); ("b", JInt 3)]] ++ [JObj [("a", JInt 4)]]))
  = Some (JInt 4).
Proof.
  apply (merge_last_source_wins [("a", JInt 1)]
           [JObj [("a", JInt 2); ("b", JInt 3)]] (JObj [("a", JInt 4)]) "a").
  - discriminate.
  - simpl. constructor; [intros [] | constructor].
Defined.

(** X10.  [parseJson] with a reviver: when the reviver itself brings in
    no [__proto__] key, the parsed value has no own property named
    [__proto__] at any depth. *)
Theorem parseJson_reviver_no_proto :
  forall (h : Host) (json : string)
         (reviver : string -> JsValue -> JsValue) (v : JsValue),
    Copyutil.clean_reviver reviver ->
    Copyutil.parseJson h json (Some reviver) = Some v ->
    Copyutil.no_proto v = true.
Proof.
  intros h json reviver v C P.
  unfold Copyutil.parseJson in P.
  destruct (JSON_parse h json) as [x|]; [|discriminate].
  simpl in P. injection P as <-.
  now apply CopyutilMore.internalize_with_no_proto.
Qed.

Lemma parseJson_reviver_no_proto_witness :
  Copyutil.parseJson Examples.demo_host Examples.json_text
    (Some (fun _ v => v))
  = Some (JObj [("a", JInt 2)])
  /\ Copyutil.no_proto (JObj [("a", JInt 2)]) = true.
Proof.
  split; [reflexivity|].
  apply (parseJson_reviver_no_proto Examples.demo_host Examples.json_text
           (fun _ v => v) (JObj [("a", JInt 2)])).
  - intros key v H. exact H.
  - reflexivity.
Defined.

(** X11.  A request whose path resolves to no entity is answered 404
    with the message [<path> not found], where the path is the formatted
    one; nothing is verified and no handler runs, and only a HEAD request
    gets no body. *)
Theorem Router_unknown_path :
  forall (h : Host) (ops : Router.PatternOps) (router : Router.Router)
         (raw : Http.RawRequest) (method : string),
    Router.resolveMethodOverride router (Http.raw_method raw)
      (Some (Http.raw_headers raw)) = Ok method ->
    PatternMap.get
      (Router.escaped ops
         (Router.formatRequestPath router (Http.raw_path raw)))
      (Router.web_entity_map router) = Ok None ->
    exists log resp,
      Router.route_parsed h ops router (Ok raw) = (log, Ok resp)
      /\ Router.statusCode resp = 404
      /\ Router.statusMessage resp
         = Some (Router.formatRequestPath router (Http.raw_path raw)
                 ++ " not found")
      /\ Forall Router.is_query_warning log
      /\ (Router.body resp = None <-> method = "HEAD").
Proof.
  intros h ops router raw method Hm He.
  destruct (RouterFacts.query_of_ok h router raw) as (lq & q & Hq & W).
  rewrite (RouterMore.route_parsed_missing _ _ _ _ _ _ _ Hm Hq He).
  unfold Router.respond_error.
  destruct (String.eqb method "HEAD") eqn:E; simpl;
    eexists; eexists; (split; [reflexivity|]);
    (split; [reflexivity|]); (split; [reflexivity|]);
    (split; [now rewrite app_nil_r|]); simpl.
  - split; [intros _; now apply String.eqb_eq | reflexivity].
  - split; [discriminate|].
    intro H. apply String.eqb_neq in E. contradiction.
Qed.

Lemma Router_unknown_path_witness :
  exists log resp,
    Router.route_parsed Examples.demo_host Examples.demo_ops
      (Examples.router_with Examples.api_x)
      (Ok {| Http.raw_method := "GET"; Http.raw_path := "/y/";
             Http.raw_headers := []; Http.raw_query := [];
             Http.raw_body := JBuf "" |})
    = (log, Ok resp)
    /\ Router.statusCode resp = 404
    /\ Router.statusMessage resp = Some "/y not found".
Proof.
  destruct (Router_unknown_path Examples.demo_host Examples.demo_ops
              (Examples.router_with Examples.api_x)
              {| Http.raw_method := "GET"; Http.raw_path := "/y/";
                 Http.raw_headers := []; Http.raw_query := [];
                 Http.raw_body := JBuf "" |} "GET" eq_refl eq_refl)
    as (log & resp & R & S & M & _).
  exists log, resp. split; [exact R|]. split; [exact S | exact M].
Defined.

(** X12.  When a handler throws, the response carries the status code of
    the thrown [WebApiError], or 500 with the description [Something went
    wrong] for any other error; the body is the error document with the
    description, written whatever the method is, and [retry-after] is
    set exactly when the error has one.  For an error made by the
    [WebApiError] constructor the status lies between 100 and 599. *)
Theorem Router_handler_error :
  forall (c : WebApiErrors.Clock) (h : Host) (ops : Router.PatternOps)
         (router : Router.Router) (raw : Http.RawRequest) (method : string)
         lq (query : Props) (endpoint : WebEntity.WebEntity) proto ancestors
         (f : WebEntity.Handler) (vr : VerifyResult.VerifyResult)
         (params : Props) (error : JsError),
    Router.resolveMethodOverride router (Http.raw_method raw)
      (Some (Http.raw_headers raw)) = Ok method ->
    Router.query_of h router raw = (lq, Ok query) ->
    PatternMap.get
      (Router.escaped ops
         (Router.formatRequestPath router (Http.raw_path raw)))
      (Router.web_entity_map router) = Ok (Some endpoint) ->
    WebEntity.variant endpoint = WebEntity.IsWebApi proto ancestors ->
    WebApi.HttpMethods_has (toUpperCase method) = true ->
    getOwn (toLowerCase method) proto = Some (WebEntity.DataFunction f) ->
    WebEntity.verify endpoint (Router.request_of router raw query)
    = Ok (Some vr) ->
    VerifyResult.ok vr = true ->
    Router.handler_params h ops endpoint method
      (Router.request_of router raw query) = Ok params ->
    r_error (f params) = Some error ->
    exists log resp description retry_after,
      Router.route_parsed h ops router (Ok raw) = (log, Ok resp)
      /\ In (Router.invoked (toLowerCase method) params) log
      /\ WebApiErrors.answered c error
         = WebApiError (Router.statusCode resp) description retry_after
      /\ Router.body resp
         = Some (Router.error_body h (Some description)
                   (Router.statusCode resp))
      /\ getOwn "retry-after" (Router.headers resp)
         = option_map JStr retry_after
      /\ (forall statusCode options,
             error = WebApiErrors.new_WebApiError c statusCode options ->
             100 <= Router.statusCode resp <= 599).
Proof.
  intros c h ops router raw method lq query endpoint proto ancestors f vr
         params error Hm Hq He V U G Hv Hok Hp Hr.
  rewrite (RouterMore.route_parsed_served _ _ _ _ _ _ _ _ _ _ _ _
             Hm Hq He V U G Hv Hok).
  rewrite (RouterMore.serve_api_threw _ _ _ _ _ _ _ _ _ Hp G Hr).
  unfold Router.respond_thrown.
  assert (S : forall sc options,
             error = WebApiErrors.new_WebApiError c sc options ->
             match error with
             | WebApiError s0 _ _ => 100 <= s0 <= 599
             | _ => True
             end).
  { intros sc options ->. unfold WebApiErrors.new_WebApiError.
    unfold WebApiErrors.status_of. destruct sc; try lia.
    destruct ((100 <=? z) && (z <=? 599)) eqn:R; [lia | lia]. }
  destruct error as [m|m|m|m|s0 d r|m];
    try (simpl; eexists; eexists; exists "Something went wrong", None;
         split; [reflexivity|]; split;
         [apply in_or_app; right; simpl; auto|];
         split; [reflexivity|]; split; [reflexivity|];
         split; [reflexivity|]; intros sc options E; discriminate E).
  simpl. eexists. eexists. exists d, r.
  split; [reflexivity|]. split; [apply in_or_app; right; simpl; auto|].
  split; [reflexivity|]. split; [reflexivity|].
  split; [destruct r; reflexivity|].
  intros sc options E. exact (S sc options E).
Qed.

Lemma Router_handler_error_witness :
  exists log resp,
    Router.route_parsed Examples.demo_host Examples.demo_ops
      (Examples.router_with MoreExamples.api_failing)
      (Ok (Examples.raw_request "PUT" []))
    = (log, Ok resp)
    /\ Router.statusCode resp = 404.
Proof.
  destruct (Router_handler_error MoreExamples.clock Examples.demo_host
              Examples.demo_ops
              (Examples.router_with MoreExamples.api_failing)
              (Examples.raw_request "PUT" []) "PUT" [] []
              MoreExamples.api_failing
              [("put", WebEntity.DataFunction MoreExamples.failing_handler)]
              [] MoreExamples.failing_handler VerifyResult.accepted
              [("body", JBuf "")]
              (WebApiErrors.NotFoundError MoreExamples.clock (JObj []))
              eq_refl eq_refl eq_refl eq_refl eq_refl eq_refl eq_refl
              eq_refl eq_refl eq_refl)
    as (log & resp & d & r & R & _ & A & _).
  exists log, resp. split; [exact R|].
  now injection A as <- _ _.
Defined.

(** X13.  A HEAD request is answered without a body whenever the
    request parsed, with one exception: when the [head] handler throws,
    the error document is written as for any other method. *)
Theorem Router_head_body :
  forall (h : Host) (ops : Router.PatternOps) (router : Router.Router)
         (raw : Http.RawRequest) log (resp : Router.Response),
    Router.resolveMethodOverride router (Http.raw_method raw)
      (Some (Http.raw_headers raw)) = Ok "HEAD" ->
    Router.route_parsed h ops router (Ok raw) = (log, Ok resp) ->
    Router.body resp = None
    \/ (In Router.console_error log
        /\ exists params, In (Router.invoked "head" params) log).
Proof.
  intros h ops router raw log resp Hm R.
  destruct (RouterFacts.query_of_ok h router raw) as (lq & q & Hq & W).
  unfold Router.route_parsed in R.
  rewrite Hm, RouterFacts.bind_lift_ok, Hq, RouterFacts.bind_ok in R.
  destruct (PatternMap.get _ (Router.web_entity_map router))
    as [[endpoint|]|e] eqn:He.
  2:{ rewrite RouterFacts.bind_lift_ok in R.
      apply RouterMore.prepend_ok in R as (l' & R & ->).
      injection R as <- <-. now left. }
  2:{ discriminate R. }
  rewrite RouterFacts.bind_lift_ok in R.
  apply RouterMore.prepend_ok in R as (l' & R & ->).
  unfold Router.respond_found in R.
  destruct (Router.allowed endpoint "HEAD") eqn:A; simpl negb in R;
    cbv iota in R.
  2:{ injection R as <- <-. now left. }
  rewrite RouterFacts.bind_emit in R.
  apply RouterMore.prepend_ok in R as (l1 & R & ->).
  destruct (WebEntity.verify endpoint (Router.request_of router raw q))
    as [verified_|e]; [|discriminate R].
  rewrite RouterFacts.bind_lift_ok in R.
  destruct (negb _).
  { unfold Router.respond_unverified in R. simpl in R.
    injection R as <- <-. now left. }
  unfold Router.respond_verified in R. unfold Router.allowed in A.
  destruct (WebEntity.variant endpoint) as [proto ancestors|get|];
    [|discriminate A | discriminate R].
  unfold Router.serve_api in R.
  destruct (Router.handler_params h ops endpoint "HEAD"
              (Router.request_of router raw q)) as [params|e];
    [|discriminate R].
  rewrite RouterFacts.bind_lift_ok in R. unfold Router.invoke in R.
  change (toLowerCase "HEAD") with "head" in R.
  destruct (getOwn "head" proto) as [[f|v|]|]; try discriminate R.
  rewrite RouterFacts.bind_emit in R.
  unfold Router.prepend at 1, Router.ret in R.
  rewrite RouterFacts.bind_ok in R.
  apply RouterMore.prepend_ok in R as (l2 & R & ->).
  destruct (r_error (f params)) as [error|].
  - unfold Router.respond_thrown in R. rewrite RouterFacts.bind_emit in R.
    apply RouterMore.prepend_ok in R as (l3 & R & ->).
    right. split.
    + apply in_or_app. right. right. apply in_or_app. right.
      apply in_or_app. right. simpl. auto.
    + exists params. apply in_or_app. right. right.
      apply in_or_app. right. apply in_or_app. left. simpl. auto.
  - simpl in R. injection R as <- <-. now left.
Qed.

Lemma Router_head_body_witness :
  exists log resp,
    Router.route_parsed Examples.demo_host Examples.demo_ops
      (Examples.router_with Examples.api_x)
      (Ok (Examples.raw_request "HEAD" []))
    = (log, Ok resp)
    /\ Router.statusCode resp = 405
    /\ Router.body resp = None.
Proof.
  eexists. eexists. split; [reflexivity|]. split; [reflexivity|].
  destruct (Router_head_body Examples.demo_host Examples.demo_ops
              (Examples.router_with Examples.api_x)
              (Examples.raw_request "HEAD" []) _ _ eq_refl eq_refl)
    as [B | [E _]]; [exact B | simpl in E; contradiction].
Defined.

(** X14.  A path parameter reaches the handler URI-decoded and under
    its own name, whatever the query and the body hold under that name:
    among the [params] of a handler the path parameters come last. *)
Theorem Router_path_parameters_win :
  forall (h : Host) (ops : Router.PatternOps)
         (endpoint : WebEntity.WebEntity) (method : string)
         (request : Http.Request) (params : Props)
         (extracted : list (string * string)) (k raw_value : string),
    Router.handler_params h ops endpoint method request = Ok params ->
    Router.extract_params ops (WebEntity.path endpoint) (Http.path request)
    = Some extracted ->
    NoDup (map fst extracted) ->
    k <> "__proto__" ->
    getOwn k extracted = Some raw_value ->
    exists v,
      decodeURIComponent h raw_value = Some v
      /\ getOwn k params = Some (JStr v).
Proof.
  intros h ops endpoint method request params extracted k raw_value
         P X D N G.
  unfold Router.handler_params in P. rewrite X in P.
  destruct (Router.decode_params h extracted) as [decoded|e] eqn:Dec;
    [|discriminate P].
  injection P as <-.
  destruct (RouterMore.decode_params_get _ _ _ _ _ Dec G) as (v & U & Gd).
  exists v. split; [exact U|].
  change (Copyutil.merge ?t [JObj decoded])
    with (Copyutil.merge1 t (JObj decoded)).
  rewrite CopyutilMore.getOwn_merge1; [| exact N |].
  - simpl. now rewrite Gd.
  - simpl. now rewrite (RouterMore.decode_params_keys _ _ _ Dec).
Qed.

Lemma Router_path_parameters_win_witness :
  exists params,
    Router.handler_params Examples.demo_host MoreExamples.ops_id
      MoreExamples.api_user "POST" MoreExamples.request_user = Ok params
    /\ getOwn "id" params = Some (JStr "7").
Proof.
  eexists. split; [reflexivity|].
  destruct (Router_path_parameters_win Examples.demo_host MoreExamples.ops_id
              MoreExamples.api_user "POST" MoreExamples.request_user _
              [("id", "7")] "id" "7" eq_refl eq_refl) as (v & U & G).
  - simpl. constructor; [intros [] | constructor].
  - discriminate.
  - reflexivity.
  - injection U as <-. exact G.
Defined.

(** X15.  For GET, HEAD and DELETE the request body never reaches the
    handler: its [params] are the same whatever the body is. *)
Theorem Router_body_ignored :
  forall (h : Host) (ops : Router.PatternOps)
         (endpoint : WebEntity.WebEntity) (method : string)
         (request : Http.Request) (other_body : JsValue),
    In method ["GET"; "HEAD"; "DELETE"] ->
    Router.handler_params h ops endpoint method request
    = Router.handler_params h ops endpoint method
        {| Http.method := Http.method request;
           Http.path := Http.path request;
           Http.headers := Http.headers request;
           Http.body := other_body;
           Http.query := Http.query request |}.
Proof.
  intros h ops endpoint method request other_body I.
  unfold Router.handler_params.
  assert (E : existsb (String.eqb method) ["GET"; "HEAD"; "DELETE"] = true).
  { simpl in I. destruct I as [<- | [<- | [<- | []]]]; reflexivity. }
  rewrite E. reflexivity.
Qed.

Lemma Router_body_ignored_witness :
  Router.handler_params Examples.demo_host MoreExamples.ops_id
    MoreExamples.api_user "DELETE" MoreExamples.request_user
  = Ok [("id", JStr "7")].
Proof.
  rewrite (Router_body_ignored Examples.demo_host MoreExamples.ops_id
             MoreExamples.api_user "DELETE" MoreExamples.request_user
             JNull).
  - reflexivity.
  - simpl. auto.
Defined.

(** X16.  A request without an [Authorization] header to an entity that
    has authentication protocols is answered 401 Unauthorized, with the
    challenges of all the registered protocols, joined by commas, in
    [WWW-Authenticate]; no protocol is asked and no handler runs. *)
Theorem Router_missing_authorization :
  forall (h : Host) (ops : Router.PatternOps) (router : Router.Router)
         (raw : Http.RawRequest) (method : string) lq (query : Props)
         (endpoint : WebEntity.WebEntity),
    Router.resolveMethodOverride router (Http.raw_method raw)
      (Some (Http.raw_headers raw)) = Ok method ->
    Router.query_of h router raw = (lq, Ok query) ->
    PatternMap.get
      (Router.escaped ops
         (Router.formatRequestPath router (Http.raw_path raw)))
      (Router.web_entity_map router) = Ok (Some endpoint) ->
    Router.allowed endpoint method = true ->
    WebEntity.authRequired endpoint = true ->
    getOwn "authorization" (Http.raw_headers raw) = None ->
    WebEntity.verify endpoint (Router.request_of router raw query)
    = Ok (Some VerifyResult.rejected)
    /\ exists resp,
         Router.route_parsed h ops router (Ok raw)
         = ((lq ++ [Router.verified
                      (Pattern.pattern (WebEntity.path endpoint))])%list,
            Ok resp)
         /\ Router.statusCode resp = 401
         /\ Router.statusMessage resp = Some "Unauthorized"
         /\ getOwn "www-authenticate" (Router.headers resp)
            = Some (JStr (join ", " (WebEntity.getChallenges endpoint))).
Proof.
  intros h ops router raw method lq query endpoint Hm Hq He A R N.
  assert (V : WebEntity.verify endpoint (Router.request_of router raw query)
              = Ok (Some VerifyResult.rejected)).
  { unfold WebEntity.verify, Http.first_authorization. rewrite R. simpl.
    now rewrite N. }
  split; [exact V|].
  rewrite (RouterFacts.route_parsed_found _ _ _ _ _ _ _ _ Hm Hq He).
  rewrite (RouterFacts.respond_found_verified _ _ _ _ _ _ A V).
  cbv zeta. simpl negb. cbv iota.
  unfold Router.respond_unverified.
  destruct (negb (String.eqb method "HEAD")); simpl;
    eexists; (split; [reflexivity|]); repeat split.
Qed.

Lemma Router_missing_authorization_witness :
  exists log resp,
    Router.route_parsed Examples.demo_host Examples.demo_ops
      (Examples.router_with (Examples.api_with [Examples.base_protocol]))
      (Ok (Examples.raw_request "PUT" []))
    = (log, Ok resp)
    /\ Router.statusCode resp = 401
    /\ getOwn "www-authenticate" (Router.headers resp)
       = Some (JStr "Basic realm=x").
Proof.
  destruct (Router_missing_authorization Examples.demo_host
              Examples.demo_ops
              (Examples.router_with
                 (Examples.api_with [Examples.base_protocol]))
              (Examples.raw_request "PUT" []) "PUT" [] []
              (Examples.api_with [Examples.base_protocol])
              eq_refl eq_refl eq_refl eq_refl eq_refl eq_refl)
    as (_ & resp & R & S & _ & W).
  eexists. exists resp. split; [exact R|]. split; [exact S | exact W].
Defined.

(** X17.  [enable] on a router whose map was built by [set] calls: when
    it returns, the path of the entity resolves to that entity (or to the
    object it is identical with), the map is again one built by [set]
    calls, and enabling the entity once more changes nothing. *)
Theorem Router_enable_registers :
  forall (same : WebEntity.WebEntity -> WebEntity.WebEntity -> bool)
         (calls : list (Pattern.Pattern * option WebEntity.WebEntity))
         (router router' : Router.Router) (e : WebEntity.WebEntity),
    PatternMap.sets calls PatternMap.empty
    = Ok (Router.web_entity_map router) ->
    same e e = true ->
    Router.enable same e router = Ok router' ->
    (exists x,
        PatternMap.get (WebEntity.path e) (Router.web_entity_map router')
        = Ok (Some x)
        /\ (x = e \/ same e x = true))
    /\ (exists calls',
           PatternMap.sets calls' PatternMap.empty
           = Ok (Router.web_entity_map router'))
    /\ Router.enable same e router' = Ok router'.
Proof.
  intros same calls router router' e B S E.
  unfold Router.enable in E.
  destruct (PatternMap.get (WebEntity.path e) (Router.web_entity_map router))
    as [[old|]|err] eqn:G; [| |discriminate E].
  - destruct (same e old) eqn:I; [|discriminate E].
    simpl in E. injection E as <-.
    split; [exists old; auto|]. split; [eauto|].
    unfold Router.enable. now rewrite G, I.
  - destruct (PatternMap.set (WebEntity.path e) (Some e)
                (Router.web_entity_map router)) as [m|err] eqn:P;
      [|discriminate E].
    injection E as <-.
    assert (B' : PatternMap.sets (calls ++ [(WebEntity.path e, Some e)])
                   PatternMap.empty = Ok m).
    { clear G. revert B. generalize (@PatternMap.empty WebEntity.WebEntity).
      induction calls as [|[p v] r IH]; intro m0; simpl.
      - intro H. injection H as ->. now rewrite P.
      - destruct (PatternMap.set p v m0); [apply IH | discriminate]. }
    assert (G' : PatternMap.get (WebEntity.path e) m = Ok (Some e)).
    { pose proof (PatternMapMore.exclusive_sets calls PatternMap.empty _
                    PatternMapMore.exclusive_new B) as X.
      destruct (PatternMapMore.set_keys _ _ _ _ P) as (keys & K & W & ->).
      unfold PatternMap.get, PatternMap.getNode. rewrite K.
      pose proof (PatternMapMore.value_at_set_walk_exclusive keys (Some e)
                    _ X W) as V.
      unfold PatternMap.value_at in V.
      destruct (PatternMap.getNode_walk keys _); [now rewrite V|].
      discriminate V. }
    split; [exists e; auto|]. split; [eauto|].
    unfold Router.enable. simpl. now rewrite G', S.
Qed.

Lemma Router_enable_registers_witness :
  exists router',
    Router.enable (fun _ _ => true) Examples.api_x MoreExamples.router0
    = Ok router'
    /\ Router.enable (fun _ _ => true) Examples.api_x router' = Ok router'.
Proof.
  eexists. split; [reflexivity|].
  apply (Router_enable_registers (fun _ _ => true) [] MoreExamples.router0
           _ Examples.api_x eq_refl eq_refl eq_refl).
Defined.

(** X18.  [disable] of an entity whose path is resolved through its own
    keys to that entity takes down, with the entity, every entity
    registered under a path that extends its path: none of them is
    found afterwards. *)
Theorem Router_disable_removes_subtree :
  forall (same : WebEntity.WebEntity -> WebEntity.WebEntity -> bool)
         (router : Router.Router) (e cur : WebEntity.WebEntity)
         (q : Pattern.Pattern) (kp more : list PatternMap.Key),
    PatternMap.getKeys (WebEntity.path e) = Ok kp ->
    PatternMap.getKeys q = Ok (kp ++ more)%list ->
    PatternMap.resolves_own kp (Router.web_entity_map router) = true ->
    PatternMap.get (WebEntity.path e) (Router.web_entity_map router)
    = Ok (Some cur) ->
    same e cur = true ->
    exists router',
      Router.disable same e router = Ok router'
      /\ PatternMap.get q (Router.web_entity_map router') = Ok None.
Proof.
  intros same router e cur q kp more Kp Kq R G S.
  pose proof (PatternMapFacts.getKeys_wildcard_last _ _ Kp) as Wp.
  pose proof (PatternMapFacts.getKeys_wildcard_last _ _ Kq) as Wq.
  pose proof (PatternMapMore.getKeys_nonempty _ _ Kp) as N.
  unfold Router.disable. rewrite G, S.
  unfold PatternMap.delete. rewrite Kp.
  rewrite (PatternMapMore.getNode_path_own kp _ Wp R).
  eexists. split; [reflexivity|]. simpl.
  unfold PatternMap.get, PatternMap.getNode. rewrite Kq.
  now rewrite (PatternMapMore.getNode_walk_removed kp more _ N Wq R).
Qed.

Lemma Router_disable_removes_subtree_witness :
  exists router',
    Router.disable (fun _ _ => true) MoreExamples.entity_a
      MoreExamples.router_a_b = Ok router'
    /\ PatternMap.get Examples.p_a_b (Router.web_entity_map router')
       = Ok None.
Proof.
  apply (Router_disable_removes_subtree (fun _ _ => true)
           MoreExamples.router_a_b MoreExamples.entity_a
           MoreExamples.entity_a Examples.p_a_b
           [PatternMap.Lit "a"] [PatternMap.Lit "b"]
           eq_refl eq_refl eq_refl eq_refl eq_refl).
Defined.

(** X19.  For every router the constructor returns, the formatted
    request path is the path itself (policy [asis]), the path without
    its trailing slashes (policy [remove], the default) or that followed
    by one slash (policy [add]); formatting a second time changes
    nothing. *)
Theorem Router_formatRequestPath :
  forall (o : JsValue) (router : Router.Router) (path : string),
    Router.new_Router o = Ok router ->
    Router.formatRequestPath router (Router.formatRequestPath router path)
    = Router.formatRequestPath router path
    /\ exists stem slashes,
         path = stem ++ slashes
         /\ Router.only_slashes slashes = true
         /\ (forall t, stem <> t ++ "/")
         /\ (Router.trailingSlashPolicy router = "asis"
             /\ Router.formatRequestPath router path = path
             \/ Router.trailingSlashPolicy router = "remove"
                /\ Router.formatRequestPath router path = stem
             \/ Router.trailingSlashPolicy router = "add"
                /\ Router.formatRequestPath router path = stem ++ "/").
Proof.
  intros o router path N.
  pose proof (RouterMore.new_Router_policy _ _ N) as P.
  split.
  { unfold Router.formatRequestPath.
    destruct (String.eqb (Router.trailingSlashPolicy router) "remove");
      [apply RouterMore.strip_idem|].
    destruct (String.eqb (Router.trailingSlashPolicy router) "add");
      [|reflexivity].
    now rewrite RouterMore.strip_app_slash, RouterMore.strip_idem. }
  destruct (RouterMore.strip_split path) as (slashes & Hs & Ho).
  exists (Router.strip_trailing_slashes path), slashes.
  split; [exact Hs|]. split; [exact Ho|].
  split; [intro t; apply RouterMore.strip_no_slash|].
  unfold Router.formatRequestPath.
  simpl in P. destruct P as [<- | [<- | [<- | []]]]; simpl; auto.
Qed.

Lemma Router_formatRequestPath_witness :
  Router.new_Router (JObj []) = Ok MoreExamples.router0
  /\ Router.formatRequestPath MoreExamples.router0 "/a//" = "/a".
Proof.
  split; [reflexivity|].
  destruct (Router_formatRequestPath (JObj []) MoreExamples.router0 "/a//"
              eq_refl) as (_ & stem & slashes & _ & _ & _
                           & [[E _] | [[_ E] | [E _]]]);
    try discriminate E.
  reflexivity.
Defined.

(** ** WebEntity and the credentials parser *)

Module CredentialsMore.
Import Http RequestParser CredentialsFacts.

Lemma lower_ascii_idem c : lower_ascii (lower_ascii c) = lower_ascii c.
Proof. destruct c as [[] [] [] [] [] [] [] []]; reflexivity. Qed.

Lemma toLowerCase_idem s : toLowerCase (toLowerCase s) = toLowerCase s.
Proof.
  unfold toLowerCase.
  induction s as [|c r IH]; cbn [map_string]; [reflexivity|].
  now rewrite lower_ascii_idem, IH.
Qed.

(** The first of the words of the value, the scheme. *)
Lemma split_stores_first_word h desc d :
  quote_free (value desc) = true ->
  split_scheme_and_token68 h desc = Ok d ->
  getOwn "scheme" (params_of d)
  = Some (toLowerCase (first_word (value d))).
Proof.
  intros Q H. unfold split_scheme_and_token68 in H. unfold first_word.
  pose proof (split_on_free " " _ Q) as F.
  assert (V : value d = value desc).
  { destruct (_setDescParam h desc "scheme" _) as [desc'|e] eqn:S1;
      [|discriminate].
    pose proof (_setDescParam_value _ _ _ _ _ S1) as V1.
    destruct (split_on " " (value desc)) as [|p0 [|token68 ps]];
      try (injection H as <-; exact V1).
    destruct (0 <? Js.length token68); [|injection H as <-; exact V1].
    now rewrite (_setDescParam_value _ _ _ _ _ H). }
  rewrite V.
  set (parts := split_on " " (value desc)) in *.
  set (scheme := match parts with s :: _ => s | [] => EmptyString end) in *.
  assert (Qs : quote_free (toLowerCase scheme) = true).
  { apply toLowerCase_free. subst scheme.
    destruct parts; [reflexivity | now inversion F]. }
  destruct (_setDescParam h desc "scheme" (toLowerCase scheme))
    as [desc'|e] eqn:S1; [|discriminate].
  pose proof (_setDescParam_scheme _ _ _ _ Qs S1) as G.
  destruct parts as [|p0 [|token68 ps]]; try (injection H as <-; exact G).
  destruct (0 <? Js.length token68); [|injection H as <-; exact G].
  rewrite (_setDescParam_keeps_scheme _ _ _ _ _ H); [exact G | discriminate].
Qed.

(** The first descriptor the credentials loop yields has, as its
    scheme, the first word of its value in lower case. *)
Lemma credentials_first_word h tokens :
  forall state buf desc d rest,
    tokens_ok tokens ->
    clean buf desc ->
    credentials_loop h state buf desc tokens = Yield d rest ->
    getOwn "scheme" (params_of d)
    = Some (toLowerCase (first_word (value d))).
Proof.
  induction tokens as [|token tokens' IH|e];
    intros state buf desc d rest T C H.
  - destruct state; cbn [credentials_loop] in H;
      unfold incomplete, unexpected in H; try discriminate;
      split_tests;
      (unfold yield_split in H;
       match type of H with
       | match split_scheme_and_token68 h ?D with _ => _ end = _ =>
           destruct (split_scheme_and_token68 h D) eqn:S;
           [injection H as <- _ | discriminate];
           eapply split_stores_first_word; [|exact S]; free_value
       end).
  - destruct T as [Tk T].
    destruct state; cbn [credentials_loop] in H;
      unfold incomplete, unexpected in H;
      split_tests; try discriminate;
      first
        [ eapply IH; [exact T | | exact H]; clean_state
        | unfold and_then in H;
          match type of H with
          | match ?S with _ => _ end = _ =>
              destruct S eqn:SP; [|discriminate];
              eapply IH; [exact T | | exact H]; clean_state
          end
        | unfold yield_split in H;
          match type of H with
          | match split_scheme_and_token68 h ?D with _ => _ end = _ =>
              destruct (split_scheme_and_token68 h D) eqn:S;
              [injection H as <- _ | discriminate];
              eapply split_stores_first_word; [|exact S]; free_value
          end ].
  - discriminate.
Qed.

Lemma authorization_first_word h line descs :
  parseHeader h line = Ok ("authorization", descs) ->
  exists d ps,
    descs = [d] /\ params d = Some ps
    /\ getOwn "scheme" ps = Some (toLowerCase (first_word (value d))).
Proof.
  unfold parseHeader.
  destruct (split_header_line "" (header_line_tokens line))
    as [[name v]|]; [|discriminate].
  destruct (String.eqb name ""); [discriminate|].
  destruct (spread (parseHeaderValue h name v)) as [l|] eqn:S; [|discriminate].
  intro H. injection H as -> ->.
  change (parseHeaderValue h "authorization" v)
    with (_parseCredentialsHeader h (substr_iter v)) in S.
  unfold _parseCredentialsHeader, _parseCredentialsListHeader in S.
  destruct (credentials_loop h WAIT_VALUE [] _nextDesc
              (_tokenizeCredentialsList (substr_iter v)))
    as [|d rest|e] eqn:L; try discriminate.
  simpl in S. injection S as <-.
  pose proof (credentials_first_word h _ _ _ _ _ _
                (credentials_tokens_ok _) clean_next L) as G.
  unfold params_of in G. destruct (params d) as [ps|] eqn:P.
  - exists d, ps. auto.
  - discriminate G.
Qed.

Lemma getOwn_in {A} k (m : list (string * A)) v :
  getOwn k m = Some v -> In (k, v) m.
Proof.
  induction m as [|[k0 v0] r IH]; simpl; [discriminate|].
  destruct (String.eqb k0 k) eqn:E.
  - apply String.eqb_eq in E. intro H. injection H as ->. subst. now left.
  - intro H. right. now apply IH.
Qed.

Lemma getOwn_protocol_map s ps : forall m,
  getOwn s (fold_left (fun m p => define (Auth.scheme p) p m) ps m)
  = match find (fun p => String.eqb (Auth.scheme p) s) (rev ps) with
    | Some p => Some p
    | None => getOwn s m
    end.
Proof.
  induction ps as [|p r IH]; intro m; simpl; [reflexivity|].
  rewrite IH.
  assert (F : find (fun p => String.eqb (Auth.scheme p) s) (rev r ++ [p])
              = match find (fun p => String.eqb (Auth.scheme p) s) (rev r)
                with
                | Some q => Some q
                | None => if String.eqb (Auth.scheme p) s
                          then Some p else None
                end).
  { clear. induction (rev r) as [|q l IHl]; simpl; [reflexivity|].
    destruct (String.eqb (Auth.scheme q) s); [reflexivity | exact IHl]. }
  rewrite F. destruct (find _ (rev r)); [reflexivity|].
  destruct (String.eqb (Auth.scheme p) s) eqn:E.
  - apply String.eqb_eq in E. subst s. apply getOwn_define_same.
  - apply getOwn_define_other. apply String.eqb_neq in E. congruence.
Qed.

End CredentialsMore.

(** X20.  When several protocols are registered with one scheme, the
    last of them answers for the scheme: [getAuthProtocol(scheme)] is the
    last registered protocol whose scheme is exactly [scheme], and
    [undefined] when there is none. *)
Theorem WebEntity_last_protocol_wins :
  forall (e : WebEntity.WebEntity) (ps : list Auth.AbstractAuthProtocol)
         (s : string),
    WebEntity.auth_protocols e = WebEntity.protocol_map ps ->
    WebEntity.getAuthProtocol e (Some s)
    = find (fun p => String.eqb (Auth.scheme p) s) (rev ps).
Proof.
  intros e ps s E. unfold WebEntity.getAuthProtocol. rewrite E.
  unfold WebEntity.protocol_map.
  rewrite CredentialsMore.getOwn_protocol_map.
  now destruct (find _ (rev ps)).
Qed.

Lemma WebEntity_last_protocol_wins_witness :
  WebEntity.getAuthProtocol
    (Examples.api_with [Examples.base_protocol; MoreExamples.basic_again])
    (Some "basic")
  = Some MoreExamples.basic_again.
Proof.
  apply (WebEntity_last_protocol_wins
           (Examples.api_with
              [Examples.base_protocol; MoreExamples.basic_again])
           [Examples.base_protocol; MoreExamples.basic_again] "basic"
           eq_refl).
Defined.

(** X21.  An [Authorization] header line that parses gives exactly one
    descriptor; its [params.scheme] is the first word of its value in
    lower case. *)
Theorem Authorization_scheme_is_first_word :
  forall (h : Host) (line : string) (descs : list Http.Descriptor),
    RequestParser.parseHeader h line = Ok ("authorization", descs) ->
    exists d ps,
      descs = [d]
      /\ Http.params d = Some ps
      /\ getOwn "scheme" ps
         = Some (toLowerCase (RequestParser.first_word (Http.value d))).
Proof.
  intros h line descs H.
  exact (CredentialsMore.authorization_first_word h line descs H).
Qed.

Lemma Authorization_scheme_is_first_word_witness :
  exists d ps,
    [Examples.digest_descriptor] = [d]
    /\ Http.params d = Some ps
    /\ getOwn "scheme" ps
       = Some (toLowerCase (RequestParser.first_word (Http.value d))).
Proof.
  apply (Authorization_scheme_is_first_word Examples.demo_host
           Examples.digest_line [Examples.digest_descriptor] eq_refl).
Defined.

(** X22.  With an [Authorization] header that parsed, [verify] never
    throws, and it hands the request to a protocol only if the scheme of
    that protocol is written in lower case: a protocol whose scheme has
    an upper-case letter is never chosen. *)
Theorem WebEntity_verify_parsed_header :
  forall (h : Host) (line : string) (descs : list Http.Descriptor)
         (e : WebEntity.WebEntity) (ps : list Auth.AbstractAuthProtocol)
         (request : Http.Request),
    RequestParser.parseHeader h line = Ok ("authorization", descs) ->
    getOwn "authorization" (Http.headers request) = Some descs ->
    WebEntity.auth_protocols e = WebEntity.protocol_map ps ->
    WebEntity.verify e request = Ok (Some VerifyResult.accepted)
    \/ WebEntity.verify e request = Ok (Some VerifyResult.rejected)
    \/ exists p,
         WebEntity.verify e request = Ok (Auth.verify p request)
         /\ In p (WebEntity.authProtocols e)
         /\ toLowerCase (Auth.scheme p) = Auth.scheme p.
Proof.
  intros h line descs e ps request Hl Hh Hm.
  destruct (CredentialsFacts.authorization_scheme_lowercased _ _ _ Hl)
    as (d & pr & x & -> & Hp & Hs).
  unfold WebEntity.verify.
  destruct (WebEntity.authRequired e); simpl negb; cbv iota; [|now left].
  right. unfold Http.first_authorization. rewrite Hh, Hp, Hs.
  unfold WebEntity.getAuthProtocol.
  destruct (getOwn (toLowerCase x) (WebEntity.auth_protocols e))
    as [p|] eqn:G; [|now left].
  right. exists p. split; [reflexivity|].
  apply CredentialsMore.getOwn_in in G.
  split.
  - unfold WebEntity.authProtocols. apply (in_map snd) in G. exact G.
  - destruct (WebEntityFacts.protocol_map_from ps []
                (Forall_nil _) (NoDup_nil _)) as [K _].
    fold (WebEntity.protocol_map ps) in K. rewrite <- Hm in K.
    unfold WebEntity.keyed_by_scheme in K. rewrite Forall_forall in K.
    pose proof (K _ G) as Hk. simpl in Hk. rewrite <- Hk.
    apply CredentialsMore.toLowerCase_idem.
Qed.

Lemma WebEntity_verify_parsed_header_witness :
  WebEntity.verify (Examples.api_with [Examples.digest])
    {| Http.method := "PUT";
       Http.path := "/x";
       Http.headers := [("authorization", [Examples.digest_descriptor])];
       Http.body := JBuf "";
       Http.query := [] |}
  = Ok (Some VerifyResult.rejected).
Proof.
  destruct (WebEntity_verify_parsed_header Examples.demo_host
              Examples.digest_line [Examples.digest_descriptor]
              (Examples.api_with [Examples.digest]) [Examples.digest]
              {| Http.method := "PUT";
                 Http.path := "/x";
                 Http.headers :=
                   [("authorization", [Examples.digest_descriptor])];
                 Http.body := JBuf "";
                 Http.query := [] |}
              eq_refl eq_refl eq_refl)
    as [A | [R | (p & V & I & L)]].
  - discriminate A.
  - exact R.
  - simpl in I. destruct I as [<- | []]. discriminate L.
Defined.

(** ** RequestParser: [tokenize] *)

Module TokenizeFacts.
Import RequestParser.

Lemma join_empty_cons (t : string) (l : list string) :
  join "" (t :: l) = t ++ join "" l.
Proof.
  unfold join. destruct l as [|x r]; simpl; [|reflexivity].
  induction t as [|c s IH]; simpl; [reflexivity | now rewrite <- IH].
Qed.

Lemma append_assoc (a b c : string) : (a ++ b) ++ c = a ++ (b ++ c).
Proof. induction a as [|x r IH]; simpl; [reflexivity | now rewrite IH]. Qed.

Lemma append_nil (a : string) : a ++ "" = a.
Proof. induction a as [|x r IH]; simpl; [reflexivity | now rewrite IH]. Qed.

Lemma snoc_app cur c s : snoc cur c ++ s = cur ++ String c s.
Proof. unfold snoc. now rewrite append_assoc. Qed.

Lemma spread_yield_nonempty cur k tokens :
  spread (yield_nonempty cur k) = Ok tokens ->
  exists rest,
    spread k = Ok rest
    /\ tokens = (if String.eqb cur "" then rest else cur :: rest).
Proof.
  unfold yield_nonempty. destruct (String.eqb cur "") eqn:E.
  - intro H. eauto.
  - simpl. destruct (spread k) as [rest|e]; [|discriminate].
    intro H. injection H as <-. eauto.
Qed.

Lemma join_maybe cur rest :
  join "" (if String.eqb cur "" then rest else cur :: rest)
  = cur ++ join "" rest.
Proof.
  destruct (String.eqb cur "") eqn:E.
  - apply String.eqb_eq in E. now subst.
  - apply join_empty_cons.
Qed.

Lemma ascii_text_app (a b : string) :
  ascii_text (a ++ b) = ascii_text a && ascii_text b.
Proof.
  induction a as [|c r IH]; simpl; [reflexivity|].
  now rewrite IH, andb_assoc.
Qed.

Lemma ascii_text_join (l : list string) :
  ascii_text (join "" l) = true ->
  Forall (fun t => ascii_text t = true) l.
Proof.
  induction l as [|t r IH]; intro H; [constructor|].
  rewrite join_empty_cons, ascii_text_app in H.
  apply andb_true_iff in H as [A B].
  constructor; [exact A | exact (IH B)].
Qed.

(** The tokens are consecutive pieces of the text. *)
Lemma tokenize_loop_join s : forall mode skip last_code cur tokens,
  spread (tokenize_loop mode skip last_code cur s) = Ok tokens ->
  join "" tokens = cur ++ s.
Proof.
  induction s as [|c r IH]; intros mode skip last_code cur tokens H.
  - simpl in H. rewrite append_nil.
    destruct mode; try discriminate H;
      (destruct (last_code =? 92)%N; [discriminate H|]);
      apply spread_yield_nonempty in H as (rest & R & ->);
      simpl in R; injection R as <-; rewrite join_maybe;
      apply append_nil.
  - cbn [tokenize_loop] in H.
    destruct skip.
    { rewrite (IH _ _ _ _ _ H). apply snoc_app. }
    destruct (is_unused_char c); [discriminate H|].
    destruct mode.
    + destruct (is_wsp_char c).
      { apply spread_yield_nonempty in H as (rest & R & ->).
        rewrite join_maybe, (IH _ _ _ _ _ R). reflexivity. }
      destruct (is_code 34 c).
      { apply spread_yield_nonempty in H as (rest & R & ->).
        rewrite join_maybe, (IH _ _ _ _ _ R). reflexivity. }
      rewrite (IH _ _ _ _ _ H). apply snoc_app.
    + destruct (negb (is_wsp_char c)).
      { apply spread_yield_nonempty in H as (rest & R & ->).
        rewrite join_maybe, (IH _ _ _ _ _ R). reflexivity. }
      rewrite (IH _ _ _ _ _ H). apply snoc_app.
    + destruct (is_code 92 c).
      { rewrite (IH _ _ _ _ _ H). apply snoc_app. }
      destruct (is_code 34 c).
      { simpl in H.
        destruct (spread (tokenize_loop Plain false (code c) "" r))
          as [rest|e] eqn:R; [|discriminate H].
        injection H as <-. rewrite join_empty_cons, (IH _ _ _ _ _ R).
        simpl. apply snoc_app. }
      rewrite (IH _ _ _ _ _ H). apply snoc_app.
Qed.

Lemma is_code_eq n c : is_code n c = true -> c = ascii_of_N n.
Proof.
  unfold is_code, code. intro H. apply N.eqb_eq in H. subst n.
  symmetry. apply ascii_N_embedding.
Qed.

Lemma startsWith_snoc cur c :
  startsWith cur quote = true -> startsWith (snoc cur c) quote = true.
Proof.
  intro H. apply CredentialsFacts.startsWith_quote in H as [r ->].
  unfold startsWith, quote, snoc. cbn -[Ascii.ascii_dec].
  destruct (Ascii.ascii_dec "034" "034"); [|congruence].
  now destruct (r ++ String c EmptyString).
Qed.

Lemma rev_string_snoc cur c :
  rev_string (cur ++ String c EmptyString) = String c (rev_string cur).
Proof.
  induction cur as [|a r IH]; simpl; [reflexivity|]. now rewrite IH.
Qed.

Lemma endsWith_snoc cur c :
  endsWith (snoc cur c) (String c EmptyString) = true.
Proof.
  unfold endsWith, snoc. rewrite rev_string_snoc.
  cbn -[Ascii.ascii_dec].
  destruct (Ascii.ascii_dec c c); [|congruence].
  now destruct (rev_string cur).
Qed.

Lemma quoted_snoc cur c :
  startsWith cur quote = true -> is_code 34 c = true ->
  _isQuotedString (snoc cur c) = true.
Proof.
  intros S Q. unfold _isQuotedString.
  apply is_code_eq in Q. change (ascii_of_N 34) with "034"%char in Q.
  subst c. fold quote. rewrite (startsWith_snoc _ _ S).
  unfold quote. rewrite endsWith_snoc. rewrite !andb_true_r.
  destruct cur as [|a r]; [discriminate S|].
  apply Z.leb_le. unfold Js.length, snoc. simpl String.length.
  rewrite RouterMore.length_append. simpl. lia.
Qed.

Lemma take_while_snoc p cur c :
  take_while p cur = cur -> p c = true ->
  take_while p (snoc cur c) = snoc cur c.
Proof.
  unfold snoc. intros T P. induction cur as [|a r IH]; simpl.
  - now rewrite P.
  - simpl in T. destruct (p a); [|discriminate T].
    injection T as T. now rewrite IH.
Qed.

Lemma all_wsp_snoc cur c :
  (cur = "" \/ all_wsp cur = true) -> is_wsp_char c = true ->
  all_wsp (snoc cur c) = true.
Proof.
  intros H W. unfold all_wsp.
  assert (T : take_while is_wsp_char cur = cur).
  { destruct H as [-> | H]; [reflexivity|].
    unfold all_wsp in H. apply andb_true_iff in H as [_ H].
    now apply String.eqb_eq in H. }
  rewrite (take_while_snoc _ _ _ T W), String.eqb_refl.
  unfold snoc. now destruct cur.
Qed.

Lemma plain_chars_snoc cur c :
  plain_chars cur = true -> is_wsp_char c = false -> is_code 34 c = false ->
  plain_chars (snoc cur c) = true.
Proof.
  unfold snoc. intros P W Q. induction cur as [|a r IH]; simpl.
  - now rewrite W, Q.
  - simpl in P. apply andb_true_iff in P as [P1 P2].
    now rewrite P1, IH.
Qed.

Lemma kinds_maybe cur rest :
  (cur = "" \/ token_kind cur = true) ->
  Forall (fun t => token_kind t = true) rest ->
  Forall (fun t => token_kind t = true)
    (if String.eqb cur "" then rest else cur :: rest).
Proof.
  intros H R. destruct (String.eqb cur "") eqn:E; [exact R|].
  constructor; [|exact R]. destruct H as [-> | H]; [discriminate E | exact H].
Qed.

Lemma plain_kind cur :
  plain_chars cur = true -> cur = "" \/ token_kind cur = true.
Proof.
  intro P. destruct cur as [|a r]; [now left|]. right.
  unfold token_kind, plain_run. rewrite P. simpl. apply orb_true_r.
Qed.

Lemma wsp_kind cur : all_wsp cur = true -> cur = "" \/ token_kind cur = true.
Proof. intro W. right. unfold token_kind. now rewrite W. Qed.

(** Each token is of one of the three kinds. *)
Lemma tokenize_loop_kinds s : forall mode skip last_code cur tokens,
  held mode skip cur ->
  spread (tokenize_loop mode skip last_code cur s) = Ok tokens ->
  Forall (fun t => token_kind t = true) tokens.
Proof.
  induction s as [|c r IH]; intros mode skip last_code cur tokens I H.
  - simpl in H.
    destruct mode; try discriminate H;
      (destruct (last_code =? 92)%N; [discriminate H|]);
      apply spread_yield_nonempty in H as (rest & R & ->);
      simpl in R; injection R as <-; destruct I as [I _];
      (apply kinds_maybe; [|constructor]).
    + now apply plain_kind.
    + now apply wsp_kind.
  - cbn [tokenize_loop] in H.
    destruct skip.
    { destruct mode as [| |];
        [destruct I as [? I']; discriminate I'
        |destruct I as [? I']; discriminate I'|].
      eapply IH; [|exact H]. exact (startsWith_snoc _ c I). }
    destruct (is_unused_char c); [discriminate H|].
    destruct mode.
    + destruct I as [I _].
      destruct (is_wsp_char c) eqn:W.
      { apply spread_yield_nonempty in H as (rest & R & ->).
        apply kinds_maybe; [now apply plain_kind|].
        eapply IH; [|exact R]. split; [|reflexivity].
        exact (all_wsp_snoc "" c (or_introl eq_refl) W). }
      destruct (is_code 34 c) eqn:Q.
      { apply spread_yield_nonempty in H as (rest & R & ->).
        apply kinds_maybe; [now apply plain_kind|].
        eapply IH; [|exact R].
        apply is_code_eq in Q. subst c. reflexivity. }
      eapply IH; [|exact H]. split; [|reflexivity].
      exact (plain_chars_snoc _ _ I W Q).
    + destruct I as [I _].
      destruct (is_wsp_char c) eqn:W; simpl negb in H; cbv iota in H.
      { eapply IH; [|exact H]. split; [|reflexivity].
        exact (all_wsp_snoc _ c (or_intror I) W). }
      apply spread_yield_nonempty in H as (rest & R & ->).
      apply kinds_maybe; [now apply wsp_kind|].
      eapply IH; [|exact R].
      destruct (is_code 34 c) eqn:Q.
      * apply is_code_eq in Q. subst c. reflexivity.
      * split; [|reflexivity]. simpl. now rewrite W, Q.
    + simpl in I.
      destruct (is_code 92 c).
      { eapply IH; [|exact H]. exact (startsWith_snoc _ c I). }
      destruct (is_code 34 c) eqn:Q.
      { simpl in H.
        destruct (spread (tokenize_loop Plain false (code c) "" r))
          as [rest|e] eqn:R; [|discriminate H].
        injection H as <-. constructor.
        - unfold token_kind. rewrite (quoted_snoc _ _ I Q).
          now rewrite orb_true_r.
        - eapply IH; [|exact R]. split; reflexivity. }
      eapply IH; [|exact H]. exact (startsWith_snoc _ c I).
Qed.

End TokenizeFacts.

(** X23.  [tokenize] loses nothing of a text of ASCII characters: when
    it runs to its end without throwing, its tokens, put together in
    order, are the text, and each token is made of ASCII characters. *)
Theorem tokenize_lossless :
  forall (text : string) (tokens : list string),
    RequestParser.ascii_text text = true ->
    RequestParser.spread (RequestParser.tokenize text) = Ok tokens ->
    join "" tokens = text
    /\ Forall (fun t => RequestParser.ascii_text t = true) tokens.
Proof.
  intros text tokens A H.
  pose proof (TokenizeFacts.tokenize_loop_join text _ _ _ _ _ H) as J.
  simpl in J. split; [exact J|].
  apply TokenizeFacts.ascii_text_join. now rewrite J.
Qed.

Lemma tokenize_lossless_witness :
  RequestParser.spread (RequestParser.tokenize MoreExamples.header_text)
  = Ok MoreExamples.header_tokens
  /\ join "" MoreExamples.header_tokens = MoreExamples.header_text.
Proof.
  split; [reflexivity|].
  apply (tokenize_lossless MoreExamples.header_text
           MoreExamples.header_tokens eq_refl eq_refl).
Defined.

(** X24.  Every token of [tokenize] is a run of spaces and tabs, a
    quoted string (it opens and closes with a double quote), or a run of
    characters without a space, a tab or a double quote; none is
    empty. *)
Theorem tokenize_token_kinds :
  forall (text : string) (tokens : list string),
    RequestParser.spread (RequestParser.tokenize text) = Ok tokens ->
    Forall (fun t => RequestParser.token_kind t = true) tokens.
Proof.
  intros text tokens H.
  apply (TokenizeFacts.tokenize_loop_kinds text _ _ _ _ _
           (conj eq_refl eq_refl
            : RequestParser.held RequestParser.Plain false "") H).
Qed.

Lemma tokenize_token_kinds_witness :
  Forall (fun t => RequestParser.token_kind t = true)
    MoreExamples.header_tokens.
Proof.
  apply (tokenize_token_kinds MoreExamples.header_text
           MoreExamples.header_tokens eq_refl).
Defined.

(** ** Router: bodies that do not parse, and the status of a success *)

Module StatusFacts.
Import WebEntity Router RouterFacts.





End StatusFacts.

(** X25.  A request whose [Content-Type] is [application/json] and whose
    body [JSON.parse] rejects does not parse: the router answers 400 Bad
    Request and consults no entity, the log holding nothing but calls of
    [console].  When the request is readable, declares no
    [Content-Length] and ends without an error, these are: a warning of
    the parser if several content types were given, the error logged by
    the parser, and the error logged by the router. *)
Theorem Router_invalid_json_body :
  forall (h : Host) (ops : Router.PatternOps)
         (parseFormData : string -> option string -> result JsValue)
         (router : Router.Router) (request : RequestParser.IncomingMessage)
         (hs : Http.Headers) (content_type : Http.Descriptor)
         (others : list Http.Descriptor),
    RequestParser.parse_headers h (RequestParser.im_headers request) []
    = Ok hs ->
    getOwn "content-type" hs = Some (content_type :: others) ->
    Http.value content_type = "application/json" ->
    JSON_parse h (join "" (RequestParser.chunks request)) = None ->
    (exists e, RequestParser.parse h parseFormData request = Throw e)
    /\ exists log resp,
         Router.route h ops parseFormData router request = (log, Ok resp)
         /\ Router.statusCode resp = 400
         /\ Router.statusMessage resp = Some "Bad Request"
         /\ (forall event, In event log ->
               event = Router.console_error
               \/ exists call, event = Router.parser_console call)
         /\ (RequestParser.readable request = true ->
             RequestParser.ending request = None ->
             getOwn "content-length" (RequestParser.im_headers request)
             = None ->
             log
             = (map Router.parser_console
                  (match others with
                   | [] => []
                   | _ :: _ => [RequestParser.logged_warning]
                   end ++ [RequestParser.logged_error])
                ++ [Router.console_error])%list).
Proof.
  intros h ops parseFormData router request hs content_type others
         Hp Hc Hv Hj.
  pose proof (RequestParserFacts.decode_run_bad_json h parseFormData hs _
                content_type others Hc Hv Hj) as D.
  assert (T : exists e, RequestParser.parse h parseFormData request = Throw e).
  { rewrite RequestParserFacts.parse_eq; cbv zeta.
    destruct (negb (RequestParser.readable request)); [eauto|].
    rewrite Hp.
    destruct (RequestParser.split_url (RequestParser.url request)).
    destruct (RequestParser.ending request); [eauto|].
    destruct (_ && _); [eauto|].
    unfold RequestParser.decode_body. rewrite D. simpl. eauto. }
  split; [exact T|]. destruct T as [e T].
  unfold Router.route. unfold RequestParser.parse in T.
  destruct (RequestParser.parse_run h parseFormData request)
    as [console parsed] eqn:R.
  simpl in T. subst parsed. simpl.
  eexists. eexists. split; [reflexivity|].
  split; [reflexivity|]. split; [reflexivity|]. split.
  - intros event I. apply in_app_or in I as [I | [<- | []]]; [|now left].
    apply in_map_iff in I as (call & <- & _). right. now exists call.
  - intros Hr He Hl. f_equal. f_equal.
    unfold RequestParser.parse_run in R. rewrite Hr, Hp in R.
    simpl negb in R. cbv iota in R.
    destruct (RequestParser.split_url (RequestParser.url request)).
    unfold RequestParser.declared_length in R. rewrite He, Hl in R.
    simpl in R. rewrite D in R. now injection R as <-.
Qed.

Lemma Router_invalid_json_body_witness :
  exists resp,
    Router.route Examples.demo_host Examples.demo_ops
      Examples.demo_parseFormData (Examples.router_with Examples.api_x)
      MoreExamples.incoming_json
    = ([Router.parser_console RequestParser.logged_error;
        Router.console_error], Ok resp)
    /\ Router.statusCode resp = 400.
Proof.
  destruct (Router_invalid_json_body Examples.demo_host Examples.demo_ops
              Examples.demo_parseFormData
              (Examples.router_with Examples.api_x)
              MoreExamples.incoming_json
              [("content-type",
                [{| Http.value := "application/json";
                    Http.params := None |}])]
              {| Http.value := "application/json"; Http.params := None |}
              [] eq_refl eq_refl eq_refl eq_refl)
    as (_ & log & resp & R & S & _ & _ & L).
  exists resp. rewrite R, (L eq_refl eq_refl eq_refl).
  split; [reflexivity | exact S].
Defined.



(** ** ContentType: the registry *)

Module ContentTypeFacts.
Import ContentType.

Lemma Id_eqb_eq (a b : Id) : Id_eqb a b = true <-> a = b.
Proof.
  destruct a as [a1 a2], b as [b1 b2]. unfold Id_eqb. simpl. split.
  - intro H. apply andb_true_iff in H as [H1 H2].
    apply String.eqb_eq in H1. apply String.eqb_eq in H2. now subst.
  - intro H. injection H as -> ->. now rewrite !String.eqb_refl.
Qed.

Lemma in_add {A} (eqb : A -> A -> bool) x y (l : list A) :
  (forall a b, eqb a b = true <-> a = b) ->
  In y (add eqb x l) <-> y = x \/ In y l.
Proof.
  intro R. unfold add. destruct (existsb (eqb x) l) eqn:E.
  - split; [auto|]. intros [-> | H]; [|exact H].
    apply existsb_exists in E as (z & I & Z). apply R in Z. now subst.
  - rewrite in_app_iff. simpl. split.
    + intros [H | [<- | []]]; auto.
    + intros [-> | H]; auto.
Qed.

Lemma types_at_associate e x id repos :
  types_at e (associate x id repos)
  = if String.eqb x e then ContentType.add Id_eqb id (types_at x repos)
    else types_at e repos.
Proof.
  unfold types_at, associate. destruct (String.eqb x e) eqn:E.
  - apply String.eqb_eq in E. subst e.
    now rewrite CredentialsFacts.getOwn_define_same.
  - apply String.eqb_neq in E.
    rewrite CredentialsFacts.getOwn_define_other by congruence. reflexivity.
Qed.

Lemma in_types_at_associate e x id id' repos :
  In id' (types_at e (associate x id repos))
  <-> (id' = id /\ x = e) \/ In id' (types_at e repos).
Proof.
  rewrite types_at_associate. destruct (String.eqb x e) eqn:E.
  - apply String.eqb_eq in E. subst e. rewrite (in_add _ _ _ _ Id_eqb_eq).
    split; [intros [-> | H]; auto | intros [[-> _] | H]; auto].
  - apply String.eqb_neq in E. split; [auto|].
    intros [[_ H] | H]; [contradiction | exact H].
Qed.

Lemma in_types_at_fold exts id : forall repos e id',
  In id' (types_at e
            (fold_left (fun repos extension => associate extension id repos)
               exts repos))
  <-> (id' = id /\ In e exts) \/ In id' (types_at e repos).
Proof.
  induction exts as [|x r IH]; intros repos e id'; simpl.
  - split; [auto | intros [[_ []] | H]; exact H].
  - rewrite IH, in_types_at_associate. split.
    + intros [[-> H] | [[-> <-] | H]]; auto.
    + intros [[-> [<- | H]] | H]; auto.
Qed.

Lemma extensions_of_store id id' known reg_types reg_exts :
  extensions_of id'
    {| type_repos := store id known reg_types; ext_repos := reg_exts |}
  = if Id_eqb id id' then Some known
    else extensions_of id'
           {| type_repos := reg_types; ext_repos := reg_exts |}.
Proof.
  destruct id as [t st], id' as [t' st'].
  unfold extensions_of, store, Id_eqb. simpl.
  destruct (String.eqb t t') eqn:E; simpl.
  - apply String.eqb_eq in E. subst t'.
    rewrite CredentialsFacts.getOwn_define_same.
    destruct (String.eqb st st') eqn:F.
    + apply String.eqb_eq in F. subst st'.
      now rewrite CredentialsFacts.getOwn_define_same.
    + apply String.eqb_neq in F.
      rewrite CredentialsFacts.getOwn_define_other by congruence.
      now destruct (getOwn t reg_types).
  - apply String.eqb_neq in E.
    now rewrite CredentialsFacts.getOwn_define_other by congruence.
Qed.

Lemma agree_empty : agree empty.
Proof.
  intros e id. simpl. split; [intros [] | intros (k & H & _)].
  discriminate H.
Qed.

(** Adding an extension to a registered instance keeps the maps in
    step. *)
Lemma agree_merge_extension id reg extension :
  agree reg -> agree (merge_extension id reg extension).
Proof.
  intro A. unfold merge_extension.
  destruct (extensions_of id reg) as [known|] eqn:K; [|exact A].
  destruct (existsb (String.eqb extension) known) eqn:X; [exact A|].
  intros e id'. simpl ext_repos. rewrite in_types_at_associate.
  rewrite extensions_of_store.
  specialize (A e id').
  destruct (Id_eqb id id') eqn:I.
  - apply Id_eqb_eq in I. subst id'. split.
    + intros [[_ <-] | H].
      * exists (known ++ [extension])%list. split; [reflexivity|].
        apply in_or_app. right. now left.
      * apply A in H as (k & Hk & Hi).
        destruct reg as [tr er]. simpl in *. rewrite K in Hk.
        injection Hk as <-. exists (known ++ [extension])%list.
        split; [reflexivity|]. apply in_or_app. now left.
    + intros (k & Hk & Hi). injection Hk as <-.
      apply in_app_or in Hi as [Hi | [<- | []]]; [|now left].
      right. apply A. exists known. destruct reg; auto.
  - assert (N : id' <> id).
    { intro E. subst id'.
      assert (T : Id_eqb id id = true) by now apply Id_eqb_eq.
      congruence. }
    destruct reg as [tr er]. simpl in *. rewrite <- A. split.
    + intros [[E _] | H]; [contradiction | exact H].
    + auto.
Qed.

Lemma agree_merge_extensions id exts : forall reg,
  agree reg -> agree (fold_left (merge_extension id) exts reg).
Proof.
  induction exts as [|x r IH]; intros reg A; simpl; [exact A|].
  apply IH. now apply agree_merge_extension.
Qed.

(** Registering a new instance with its extensions keeps them in
    step. *)
Lemma agree_store id exts reg :
  agree reg -> extensions_of id reg = None ->
  agree {| type_repos := store id exts (type_repos reg);
           ext_repos :=
             fold_left (fun repos extension => associate extension id repos)
               exts (ext_repos reg) |}.
Proof.
  intros A N e id'. simpl ext_repos. rewrite in_types_at_fold, extensions_of_store.
  specialize (A e id').
  destruct (Id_eqb id id') eqn:I.
  - apply Id_eqb_eq in I. subst id'. split.
    + intros [[_ H] | H]; [eauto|].
      apply A in H as (k & Hk & _). congruence.
    + intros (k & Hk & Hi). injection Hk as <-. auto.
  - assert (D : id' <> id).
    { intro E. subst id'.
      assert (T : Id_eqb id id = true) by now apply Id_eqb_eq.
      congruence. }
    destruct reg as [tr er]. simpl in *. rewrite <- A. split.
    + intros [[E _] | H]; [contradiction | exact H].
    + auto.
Qed.

Lemma get_some contentType reg id :
  get contentType reg = Some id ->
  isContentType contentType = true
  /\ id = type_and_subtype contentType
  /\ exists known, extensions_of id reg = Some known.
Proof.
  unfold get. destruct (isContentType contentType); [|discriminate].
  simpl. destruct (extensions_of _ reg) as [k|] eqn:E; [|discriminate].
  intro H. injection H as <-. eauto.
Qed.

Lemma agree_new contentType extensions reg id reg' :
  agree reg ->
  new_ContentType contentType extensions reg = Ok (id, reg') ->
  agree reg'.
Proof.
  intros A H. unfold new_ContentType in H.
  destruct (isContentType contentType) eqn:V; [|discriminate H].
  simpl in H. destruct (get contentType reg) as [other|] eqn:G.
  - injection H as <- <-. now apply agree_merge_extensions.
  - injection H as <- <-. apply agree_store; [exact A|].
    unfold get in G. rewrite V in G. simpl in G.
    now destruct (extensions_of (type_and_subtype contentType) reg).
Qed.

Lemma agree_register defs : forall reg reg',
  agree reg -> register defs reg = Ok reg' -> agree reg'.
Proof.
  induction defs as [|[ct exts] r IH]; intros reg reg' A H; simpl in H.
  - now injection H as <-.
  - destruct (new_ContentType ct exts reg) as [[id reg1]|e] eqn:N;
      [|discriminate H].
    apply (IH reg1 reg' (agree_new _ _ _ _ _ A N) H).
Qed.

Lemma is_tchar_lower c : is_tchar (lower_ascii c) = is_tchar c.
Proof. destruct c as [[] [] [] [] [] [] [] []]; reflexivity. Qed.

Lemma slash_lower c : Ascii.eqb (lower_ascii c) "/" = Ascii.eqb c "/".
Proof. destruct c as [[] [] [] [] [] [] [] []]; reflexivity. Qed.

Lemma after_token_lower s :
  after_token (toLowerCase s) = toLowerCase (after_token s).
Proof.
  unfold toLowerCase. induction s as [|c r IH]; [reflexivity|].
  cbn [map_string after_token]. rewrite is_tchar_lower.
  destruct (is_tchar c); [exact IH | reflexivity].
Qed.

Lemma empty_lower s : String.eqb (toLowerCase s) "" = String.eqb s "".
Proof. now destruct s. Qed.

Lemma isContentType_lower s : isContentType (toLowerCase s) = isContentType s.
Proof.
  destruct s as [|c r]; [reflexivity|].
  change (toLowerCase (String c r))
    with (String (lower_ascii c) (toLowerCase r)).
  unfold isContentType.
  rewrite is_tchar_lower. f_equal.
  change (String (lower_ascii c) (toLowerCase r))
    with (toLowerCase (String c r)).
  rewrite after_token_lower.
  destruct (after_token (String c r)) as [|a [|c' r']]; try reflexivity.
  change (toLowerCase (String a (String c' r')))
    with (String (lower_ascii a)
            (String (lower_ascii c') (toLowerCase r'))).
  cbv beta iota.
  now rewrite slash_lower, is_tchar_lower, after_token_lower, empty_lower.
Qed.

Lemma split_on_lower s :
  split_on "/" (toLowerCase s) = map toLowerCase (split_on "/" s).
Proof.
  unfold toLowerCase. induction s as [|c r IH]; [reflexivity|].
  cbn [map_string split_on]. rewrite slash_lower, IH.
  destruct (Ascii.eqb c "/"); [reflexivity|].
  now destruct (split_on "/" r).
Qed.

Lemma type_and_subtype_lower s s' :
  toLowerCase s' = toLowerCase s ->
  type_and_subtype s' = type_and_subtype s.
Proof.
  intro E. unfold type_and_subtype.
  now rewrite <- !split_on_lower, E.
Qed.

Lemma in_fold_add (f : string -> string) exts e : forall acc,
  In e exts \/ In (f e) acc ->
  In (f e) (fold_left (fun set x => ContentType.add String.eqb (f x) set)
              exts acc).
Proof.
  induction exts as [|x r IH]; intros acc H; simpl.
  - destruct H as [[] | H]. exact H.
  - apply IH. destruct H as [[-> | H] | H]; auto; right;
      apply (in_add _ _ _ _ String.eqb_eq); auto.
Qed.

(** The extensions of a registered instance only grow. *)
Lemma merge_extension_grows id reg x known e :
  extensions_of id reg = Some known ->
  exists known',
    extensions_of id (merge_extension id reg x) = Some known'
    /\ In x known'
    /\ (In e known -> In e known').
Proof.
  intro K. unfold merge_extension. rewrite K.
  destruct (existsb (String.eqb x) known) eqn:X.
  - exists known. split; [exact K|]. split; [|auto].
    apply existsb_exists in X as (y & I & Y).
    apply String.eqb_eq in Y. now subst.
  - exists (known ++ [x])%list. rewrite extensions_of_store.
    assert (T : Id_eqb id id = true) by now apply Id_eqb_eq.
    rewrite T. split; [reflexivity|]. split.
    + apply in_or_app. right. now left.
    + intro H. apply in_or_app. now left.
Qed.

Lemma merge_extensions_hold id exts : forall reg known e,
  extensions_of id reg = Some known ->
  In e exts \/ In e known ->
  exists known',
    extensions_of id (fold_left (merge_extension id) exts reg) = Some known'
    /\ In e known'.
Proof.
  induction exts as [|x r IH]; intros reg known e K H; simpl.
  - destruct H as [[] | H]. eauto.
  - destruct (merge_extension_grows id reg x known e K)
      as (k1 & K1 & Ix & Ie).
    apply (IH _ k1 e K1). destruct H as [[-> | H] | H]; auto.
Qed.

(** After the constructor the instance is registered, with each of the
    extensions given. *)
Lemma new_registers contentType extensions reg id reg' :
  new_ContentType contentType extensions reg = Ok (id, reg') ->
  isContentType contentType = true
  /\ id = type_and_subtype contentType
  /\ (exists known, extensions_of id reg' = Some known)
  /\ forall e, In e extensions ->
       exists known,
         extensions_of id reg' = Some known /\ In (normalized e) known.
Proof.
  intro H. unfold new_ContentType in H.
  destruct (isContentType contentType) eqn:V; [|discriminate H].
  simpl in H. split; [reflexivity|].
  set (extensions_ :=
         fold_left (fun set x => ContentType.add String.eqb (normalized x) set)
           extensions []) in *.
  assert (M : forall e, In e extensions -> In (normalized e) extensions_).
  { intros e I. apply in_fold_add. now left. }
  destruct (get contentType reg) as [other|] eqn:G.
  - injection H as <- <-.
    apply get_some in G as (_ & E & known & K).
    split; [exact E|]. split.
    + clear M. revert reg known K. generalize extensions_.
      intro l. induction l as [|x r IH]; intros reg known K; simpl; [eauto|].
      destruct (merge_extension_grows other reg x known x K)
        as (k1 & K1 & _). apply (IH _ _ K1).
    + intros e I.
      apply (merge_extensions_hold other extensions_ reg known _ K).
      left. now apply M.
  - injection H as <- <-. split; [reflexivity|].
    assert (S : extensions_of (type_and_subtype contentType)
                  {| type_repos :=
                       store (type_and_subtype contentType) extensions_
                         (type_repos reg);
                     ext_repos :=
                       fold_left
                         (fun repos extension =>
                            associate extension
                              (type_and_subtype contentType) repos)
                         extensions_ (ext_repos reg) |}
                = Some extensions_).
    { rewrite extensions_of_store.
      assert (T : Id_eqb (type_and_subtype contentType)
                    (type_and_subtype contentType) = true)
        by now apply Id_eqb_eq.
      now rewrite T. }
    split; [eauto|]. intros e I. exists extensions_. auto.
Qed.

End ContentTypeFacts.

(** X27.  After [new ContentType(s, ...extensions)] on a registry made
    by constructor calls, [ContentType.get] finds the instance under
    every spelling of [s] that differs in the case of letters only, and
    [ContentType.typesOf] lists the instance for each of the extensions
    given, however the call spelled it (with or without the leading
    dot, in any case of letters). *)
Theorem ContentType_new_then_get :
  forall (defs : list (string * list string))
         (reg reg' : ContentType.Registry) (s s' : string)
         (extensions : list string) (id : ContentType.Id),
    ContentType.register defs ContentType.empty = Ok reg ->
    ContentType.new_ContentType s extensions reg = Ok (id, reg') ->
    toLowerCase s' = toLowerCase s ->
    ContentType.get s' reg' = Some id
    /\ forall e, In e extensions -> In id (ContentType.typesOf e reg').
Proof.
  intros defs reg reg' s s' extensions id B N L.
  pose proof (ContentTypeFacts.agree_register defs _ _
                ContentTypeFacts.agree_empty B) as A.
  pose proof (ContentTypeFacts.agree_new _ _ _ _ _ A N) as A'.
  destruct (ContentTypeFacts.new_registers _ _ _ _ _ N)
    as (V & E & (known & K) & M).
  split.
  - unfold ContentType.get.
    rewrite <- ContentTypeFacts.isContentType_lower, L,
      ContentTypeFacts.isContentType_lower, V.
    simpl. rewrite (ContentTypeFacts.type_and_subtype_lower _ _ L), <- E, K.
    reflexivity.
  - intros e I. unfold ContentType.typesOf. apply A'.
    exact (M e I).
Qed.

Lemma ContentType_new_then_get_witness :
  exists reg',
    ContentType.new_ContentType "text/html" [".HTML"; "htm"]
      MoreExamples.registry = Ok (("text", "html"), reg')
    /\ ContentType.get "Text/HTML" reg' = Some ("text", "html")
    /\ In ("text", "html") (ContentType.typesOf ".htm" reg').
Proof.
  eexists. split; [reflexivity|].
  destruct (ContentType_new_then_get
              [("application/json", ["json"]); ("text/html", ["html"])]
              MoreExamples.registry _ "text/html" "Text/HTML"
              [".HTML"; "htm"] ("text", "html")
              eq_refl eq_refl eq_refl) as [G T].
  split; [exact G|]. apply (T "htm"). simpl. auto.
Defined.

(** X28.  In a registry made by constructor calls the two maps tell the
    same: [ContentType.typesOf(extension)] lists an instance exactly
    when the extension, without its leading dot and in lower case, is
    among the extensions of that registered instance. *)
Theorem ContentType_maps_agree :
  forall (defs : list (string * list string)) (reg : ContentType.Registry)
         (extension : string) (id : ContentType.Id),
    ContentType.register defs ContentType.empty = Ok reg ->
    In id (ContentType.typesOf extension reg)
    <-> exists known,
          ContentType.extensions_of id reg = Some known
          /\ In (ContentType.normalized extension) known.
Proof.
  intros defs reg extension id B.
  pose proof (ContentTypeFacts.agree_register defs _ _
                ContentTypeFacts.agree_empty B) as A.
  unfold ContentType.typesOf. apply A.
Qed.

Lemma ContentType_maps_agree_witness :
  In ("text", "html") (ContentType.typesOf ".HTML" MoreExamples.registry)
  <-> exists known,
        ContentType.extensions_of ("text", "html") MoreExamples.registry
        = Some known
        /\ In "html" known.
Proof.
  apply (ContentType_maps_agree
           [("application/json", ["json"]); ("text/html", ["html"])]
           MoreExamples.registry ".HTML" ("text", "html") eq_refl).
Defined.

(** ** WebResource: the allowed content types *)

Module WebResourceFacts.
Import ContentType WebResource ContentTypeFacts.

Lemma in_allowed (r : ContentTypes) m subs s :
  In (m, subs) (allowed_content_types r) -> In s subs ->
  In (m ++ "/" ++ s) (allowedContentTypes r).
Proof.
  intros I J. unfold allowedContentTypes. apply in_flat_map.
  exists (m, subs). split; [exact I|]. simpl.
  apply (in_map (fun sub_type => m ++ "/" ++ sub_type)). exact J.
Qed.

Lemma existsb_eqb s l : existsb (String.eqb s) l = true <-> In s l.
Proof.
  rewrite existsb_exists. split.
  - intros (x & I & E). apply String.eqb_eq in E. now subst.
  - intro I. exists s. split; [exact I | apply String.eqb_refl].
Qed.

Lemma fold_allow_throw l e : fold_left allow l (Throw e) = Throw e.
Proof. induction l as [|x r IH]; simpl; [reflexivity | exact IH]. Qed.

(** One turn of the loop: the type is valid, it is allowed afterwards,
    and what was allowed stays allowed. *)
Lemma allow_ok al x al' :
  allow (Ok al) x = Ok al' ->
  isContentType x = true
  /\ (exists subs,
         getOwn (fst (type_and_subtype x)) al' = Some subs
         /\ In (snd (type_and_subtype x)) subs)
  /\ forall m s subs,
       getOwn m al = Some subs -> In s subs ->
       exists subs', getOwn m al' = Some subs' /\ In s subs'.
Proof.
  unfold allow. destruct (isContentType x); [|discriminate].
  simpl negb. cbv iota.
  destruct (type_and_subtype x) as [main sub]. simpl fst. simpl snd.
  destruct (getOwn main al) as [known|] eqn:G; intro H; injection H as <-;
    (split; [reflexivity|]); split.
  - exists (ContentType.add String.eqb sub known).
    split; [apply CredentialsFacts.getOwn_define_same|].
    apply (in_add _ _ _ _ String.eqb_eq). now left.
  - intros m s subs Gm I. destruct (String.eqb main m) eqn:E.
    + apply String.eqb_eq in E. subst m.
      rewrite CredentialsFacts.getOwn_define_same.
      rewrite G in Gm. injection Gm as <-. eexists. split; [reflexivity|].
      apply (in_add _ _ _ _ String.eqb_eq). now right.
    + apply String.eqb_neq in E.
      rewrite CredentialsFacts.getOwn_define_other by congruence. eauto.
  - exists [sub]. split; [apply CredentialsFacts.getOwn_define_same|].
    now left.
  - intros m s subs Gm I. destruct (String.eqb main m) eqn:E.
    + apply String.eqb_eq in E. subst m. congruence.
    + apply String.eqb_neq in E.
      rewrite CredentialsFacts.getOwn_define_other by congruence. eauto.
Qed.

Lemma fold_allow_ok l : forall al al',
  fold_left allow l (Ok al) = Ok al' ->
  (forall x, In x l ->
     isContentType x = true
     /\ exists subs,
          getOwn (fst (type_and_subtype x)) al' = Some subs
          /\ In (snd (type_and_subtype x)) subs)
  /\ forall m s subs,
       getOwn m al = Some subs -> In s subs ->
       exists subs', getOwn m al' = Some subs' /\ In s subs'.
Proof.
  induction l as [|x r IH]; intros al al' H; cbn [fold_left] in H.
  - injection H as <-. split; [intros x [] | eauto].
  - destruct (allow (Ok al) x) as [al1|e] eqn:A.
    2:{ rewrite fold_allow_throw in H. discriminate H. }
    destruct (allow_ok _ _ _ A) as (V & (subs & G & I) & K).
    destruct (IH _ _ H) as (R & K').
    split.
    + intros y [<- | J]; [|exact (R y J)].
      split; [exact V|]. exact (K' _ _ _ G I).
    + intros m s subs0 G0 I0.
      destruct (K _ _ _ G0 I0) as (subs1 & G1 & I1).
      exact (K' _ _ _ G1 I1).
Qed.

End WebResourceFacts.

(** X29.  [getAllowedType] never gives a type the resource does not
    allow: for the request [*/*] it gives the primary content type of a
    resource without wildcard, and otherwise a type [main/sub] whose
    subtype is in the allowed set of its main type and which agrees with
    the requested type wherever that has no [*]. *)
Theorem WebResource_allowed_only :
  forall (r : WebResource.ContentTypes) (content_type allowed_type : string),
    WebResource.getAllowedType r content_type = Some allowed_type ->
    (ContentType.type_and_subtype content_type = ("*", "*")
     /\ WebResource.uses_wildcard r = false
     /\ allowed_type = WebResource.contentType r)
    \/ exists main sub,
         allowed_type = main ++ "/" ++ sub
         /\ In allowed_type (WebResource.allowedContentTypes r)
         /\ (fst (ContentType.type_and_subtype content_type) = "*"
             \/ fst (ContentType.type_and_subtype content_type) = main)
         /\ (snd (ContentType.type_and_subtype content_type) = "*"
             \/ snd (ContentType.type_and_subtype content_type) = sub).
Proof.
  intros r content_type allowed_type H.
  unfold WebResource.getAllowedType in H.
  destruct (negb (ContentType.isContentType content_type)); [discriminate H|].
  destruct (ContentType.type_and_subtype content_type) as [main sub].
  simpl fst. simpl snd. cbv zeta in H.
  destruct (String.eqb main "*") eqn:M; destruct (String.eqb sub "*") eqn:S;
    simpl andb in H; cbv iota in H.
  - apply String.eqb_eq in M. apply String.eqb_eq in S. subst.
    destruct (WebResource.uses_wildcard r); [discriminate H|].
    injection H as <-. left. auto.
  - destruct (find _ (WebResource.allowed_content_types r))
      as [[m subs]|] eqn:F; [|discriminate H].
    injection H as <-. apply find_some in F as [I E]. simpl in E.
    apply WebResourceFacts.existsb_eqb in E.
    right. exists m, sub. split; [reflexivity|].
    split; [exact (WebResourceFacts.in_allowed _ _ _ _ I E)|].
    apply String.eqb_eq in M. auto.
  - destruct (getOwn main (WebResource.allowed_content_types r))
      as [[|s subs]|] eqn:G; try discriminate H.
    injection H as <-. apply CredentialsMore.getOwn_in in G.
    right. exists main, s. split; [reflexivity|].
    split; [apply (WebResourceFacts.in_allowed _ _ _ _ G); now left|].
    apply String.eqb_eq in S. auto.
  - destruct (getOwn main (WebResource.allowed_content_types r))
      as [subs|] eqn:G; [|discriminate H].
    destruct (existsb (String.eqb sub) subs) eqn:E; [|discriminate H].
    injection H as <-. apply CredentialsMore.getOwn_in in G.
    apply WebResourceFacts.existsb_eqb in E.
    right. exists main, sub. split; [reflexivity|].
    split; [exact (WebResourceFacts.in_allowed _ _ _ _ G E) | auto].
Qed.

Lemma WebResource_allowed_only_witness :
  WebResource.getAllowedType MoreExamples.page "*/html" = Some "text/html"
  /\ In "text/html" (WebResource.allowedContentTypes MoreExamples.page).
Proof.
  split; [reflexivity|].
  destruct (WebResource_allowed_only MoreExamples.page "*/html" "text/html"
              eq_refl) as [(E & _) | (m & s & _ & I & _)];
    [discriminate E | exact I].
Defined.

(** X30.  A resource accepts every content type it was constructed
    with: for the primary type and for each of [allowedContentTypes],
    when neither part of the type is [*], [getAllowedType] returns the
    type in lower case, however the request spells its letters. *)
Theorem WebResource_declared_types_allowed :
  forall (content_type_ : string) (allowedContentTypes : option (list string))
         (r : WebResource.ContentTypes) (declared requested : string),
    WebResource.new_ContentTypes content_type_ allowedContentTypes = Ok r ->
    declared = content_type_
    \/ In declared match allowedContentTypes with
                   | Some content_types => content_types
                   | None => []
                   end ->
    fst (ContentType.type_and_subtype declared) <> "*" ->
    snd (ContentType.type_and_subtype declared) <> "*" ->
    toLowerCase requested = toLowerCase declared ->
    WebResource.getAllowedType r requested
    = Some (fst (ContentType.type_and_subtype declared) ++ "/"
            ++ snd (ContentType.type_and_subtype declared)).
Proof.
  intros c allowed r declared requested N D Nm Ns L.
  unfold WebResource.new_ContentTypes in N.
  destruct (ContentType.isContentType c) eqn:V; [|discriminate N].
  simpl negb in N. cbv iota in N.
  destruct (ContentType.type_and_subtype c) as [cm cs] eqn:T.
  cbv zeta in N.
  destruct (fold_left WebResource.allow _ _) as [al|e] eqn:F;
    [|discriminate N].
  injection N as <-.
  destruct (WebResourceFacts.fold_allow_ok _ _ _ F) as (R & K).
  assert (Q : ContentType.isContentType declared = true
              /\ exists subs,
                   getOwn (fst (ContentType.type_and_subtype declared)) al
                   = Some subs
                   /\ In (snd (ContentType.type_and_subtype declared)) subs).
  { destruct D as [-> | D]; [|exact (R _ D)].
    split; [exact V|]. rewrite T in Nm, Ns |- *. simpl in Nm, Ns |- *.
    apply String.eqb_neq in Nm. apply String.eqb_neq in Ns.
    rewrite Nm, Ns in K. simpl in K.
    apply (K cm cs [cs]); [simpl; now rewrite String.eqb_refl | now left]. }
  destruct Q as (Vd & subs & G & I).
  unfold WebResource.getAllowedType.
  rewrite <- ContentTypeFacts.isContentType_lower, L,
    ContentTypeFacts.isContentType_lower, Vd.
  simpl negb. cbv iota.
  rewrite (ContentTypeFacts.type_and_subtype_lower _ _ L).
  destruct (ContentType.type_and_subtype declared) as [m s].
  simpl in *. apply String.eqb_neq in Nm. apply String.eqb_neq in Ns.
  rewrite Nm, Ns. simpl. rewrite G.
  now rewrite (proj2 (WebResourceFacts.existsb_eqb s subs) I).
Qed.

Lemma WebResource_declared_types_allowed_witness :
  WebResource.new_ContentTypes "Text/HTML" (Some ["text/plain"])
  = Ok MoreExamples.page
  /\ WebResource.getAllowedType MoreExamples.page "TEXT/Plain"
     = Some "text/plain".
Proof.
  split; [reflexivity|].
  apply (WebResource_declared_types_allowed "Text/HTML"
           (Some ["text/plain"]) MoreExamples.page "text/plain"
           "TEXT/Plain" eq_refl).
  - right. simpl. auto.
  - discriminate.
  - discriminate.
  - reflexivity.
Defined.
